(** * VideoEnhancer: the enhancement pipeline and its stages

    A shallow embedding of the Python sources under [ml/]:
    [quality_check.py], [analyzer.py], [enhancer.py],
    [video_frame_extraction.py], [reconstructor.py], [run_pipeline.py]
    and [tasks.py], of the routes of [api/routes.py] and of the client
    of [shared/redis_client.py].

    Conventions of the embedding.
    - A Python function that touches the disk, logs or reports progress
      is a computation [M A]: it takes the file system, and returns a
      result (a value or a raised exception), the new file system and
      the list of effects it emitted, in emission order.
    - OpenCV, NumPy, Real-ESRGAN, ffmpeg, MinIO and the operating
      system are outside the repository.  What they answer is read from
      a record [env] of oracles; what they are asked is visible in the
      effects ([Call]).
    - Python floats are modelled by exact rationals ([Q]).
    - Of the logging calls the model keeps the warning and error
      records, and the summary lines of the analysis; the remaining
      informational records carry nothing the pipeline acts upon. *)

From Stdlib Require Import ZArith QArith Qround Lia Lqa.
From Stdlib Require Import Ascii DecimalString DecimalZ DecimalPos.
From stdpp Require Import gmap strings list sorting.

Local Open Scope string_scope.
Local Open Scope list_scope.
Local Open Scope Z_scope.

(** ** Strings *)

(** [str(n)] for a Python int. *)
Definition str_int (n : Z) : string :=
  NilZero.string_of_int (Z.to_int n).

Fixpoint zfill_go (k : nat) (s : string) : string :=
  match k with
  | O => s
  | S k' => zfill_go k' ("0" +:+ s)
  end.

(** [f"{n:06d}"] for a non-negative [n]. *)
Definition fmt_06d (n : Z) : string :=
  let s := str_int n in
  zfill_go (6 - String.length s) s.

(** [s.endswith(suffix)] *)
Definition endswith (s suffix : string) : bool :=
  String.prefix (String.rev suffix) (String.rev s).

(** [os.path.join(d, name)] for a relative [name]. *)
Definition os_path_join (d name : string) : string := d +:+ "/" +:+ name.

(** [s.split('/', 1)]: the text before the first slash and the text
    after it, or [None] when [s] holds no slash (the list has then one
    element and the pair assignment fails). *)
Fixpoint split_slash (s : string) : option (string * string) :=
  match s with
  | EmptyString => None
  | String c rest =>
      if Ascii.eqb c "/"%char then Some (EmptyString, rest)
      else match split_slash rest with
           | Some (a, b) => Some (String c a, b)
           | None => None
           end
  end.

Fixpoint string_drop (n : nat) (s : string) : string :=
  match n, s with
  | S n', String _ rest => string_drop n' rest
  | _, _ => s
  end.

(** [s.replace(".mp4", "_temp.mp4")]; [skip] counts the characters of
    a match still to be passed over. *)
Fixpoint replace_mp4_go (skip : nat) (s : string) : string :=
  match s with
  | EmptyString => EmptyString
  | String c rest =>
      match skip with
      | S k => replace_mp4_go k rest
      | O =>
          if String.prefix ".mp4" s
          then "_temp.mp4" +:+ replace_mp4_go 3 rest
          else String c (replace_mp4_go 0 rest)
      end
  end.

Definition replace_mp4 (s : string) : string := replace_mp4_go 0 s.

(** ** Exceptions and results *)

Inductive exn :=
| ValueError (msg : string)
| RuntimeError (msg : string)
| FileNotFoundError (msg : string)
| ZeroDivisionError (msg : string)
| ExternalError (msg : string).

(** [str(e)] *)
Definition str_exn (e : exn) : string :=
  match e with
  | ValueError m | RuntimeError m | FileNotFoundError m
  | ZeroDivisionError m | ExternalError m => m
  end.

Inductive result (A : Type) :=
| Ok (a : A)
| Raise (e : exn).
Arguments Ok {A} a.
Arguments Raise {A} e.

(** ** Images, files and the file system *)

(** A decoded image: [img.shape] and the pixel values. *)
Record image := Image { shape : list Z; pixels : list Z }.

(** [img.shape[:2]] as [(height, width)]. *)
Definition dims (img : image) : option (Z * Z) :=
  match shape img with
  | h :: w :: _ => Some (h, w)
  | _ => None
  end.

(** A file in a frame directory either decodes to an image or does not
    ([cv2.imread] answers [None] for it). *)
Inductive jpg_file :=
| Decodes (img : image)
| Corrupt.

(** A video container: the frames written and whether it carries the
    audio track of the original. *)
Record video_file := Video { vframes : list image; has_audio : bool }.

Record fsys := Fsys {
  dirs : gmap string (gmap string jpg_file);
  videos : gmap string video_file
}.

(** ** Effects *)

Inductive value :=
| VNone
| VInt (n : Z)
| VNum (q : Q)
| VStr (s : string).

Inductive level := INFO | WARNING | ERROR.

Inductive effect :=
| UpdateState (state : string) (meta : gmap string value)
| Publish (channel : string) (data : gmap string value)
| Log (lvl : level) (text : string) (arg : string)
| Call (fn : string) (args : list string).

(** ** The monad of the pipeline *)

Definition M (A : Type) : Type := fsys -> result A * fsys * list effect.

Definition ret {A} (a : A) : M A := fun s => (Ok a, s, []).

Definition bind {A B} (m : M A) (k : A -> M B) : M B :=
  fun s =>
    match m s with
    | (Ok a, s1, t1) =>
        match k a s1 with
        | (r, s2, t2) => (r, s2, t1 ++ t2)
        end
    | (Raise e, s1, t1) => (Raise e, s1, t1)
    end.

Definition raise {A} (e : exn) : M A := fun s => (Raise e, s, []).

(** [try: m  except Exception as e: h e] *)
Definition try_except {A} (m : M A) (h : exn -> M A) : M A :=
  fun s =>
    match m s with
    | (Ok a, s1, t1) => (Ok a, s1, t1)
    | (Raise e, s1, t1) =>
        match h e s1 with
        | (r, s2, t2) => (r, s2, t1 ++ t2)
        end
    end.

Definition emit (ev : effect) : M unit := fun s => (Ok tt, s, [ev]).
Definition get_fs : M fsys := fun s => (Ok s, s, []).
Definition put_fs (s' : fsys) : M unit := fun _ => (Ok tt, s', []).
Definition lift {A} (r : result A) : M A := fun s => (r, s, []).

Declare Scope pipe_scope.
Delimit Scope pipe_scope with pipe.
Notation "x <- m ;; k" := (bind m (fun x => k))
  (at level 100, m at next level, right associativity) : pipe_scope.
Notation "m ;; k" := (bind m (fun _ => k))
  (at level 100, right associativity) : pipe_scope.
Local Open Scope pipe_scope.

Definition when (b : bool) (m : M unit) : M unit := if b then m else ret tt.

Definition outcome {A} (x : result A * fsys * list effect) : result A := x.1.1.
Definition final_fs {A} (x : result A * fsys * list effect) : fsys := x.1.2.
Definition emitted {A} (x : result A * fsys * list effect) : list effect := x.2.

(** ** The world outside the repository *)

(** What [cv2.VideoCapture(path)] gives once opened: the frame rate, the
    frame count of the container, and the answers of the successive
    [cap.read()] calls ([None] for [ret = False]); once the list is
    exhausted every further read answers [ret = False]. *)
Record video_capture := Capture {
  cap_fps : Q;
  cap_frame_count : Z;
  cap_reads : list (option image)
}.

Record env := Env {
  (** the numeric bodies of the heuristics of [quality_check.py], at
      their default thresholds: the verdict, or the exception raised *)
  blur_body : image -> result bool;
  dark_body : image -> result bool;
  pixelated_body : image -> result bool;
  (** [cv2.imwrite(path, img)]: whether the file could be written *)
  imwrite_ok : string -> image -> bool;
  (** building [RRDBNet] and [RealESRGANer] (loading the weights) *)
  model_init : result unit;
  (** [upsampler.enhance(img)]: the output array, or the exception raised *)
  upsample : image -> result image;
  (** [cv2.VideoCapture(path)], [None] when [isOpened()] is false *)
  capture : string -> option video_capture;
  (** [cv2.VideoWriter(path, ...).isOpened()] *)
  writer_opens : string -> bool;
  (** [os.path.exists] on a video path *)
  path_exists : string -> bool;
  (** [subprocess.run(cmd)]: the return code and the captured stderr,
      or the exception raised *)
  subprocess_run : list string -> result (Z * string);
  (** MinIO: [get_minio_client()], [download_fileobj(bucket, key, f)],
      [upload_fileobj(f, bucket, key)] *)
  get_minio_client : result unit;
  minio_download : string -> string -> result unit;
  minio_upload : string -> string -> result unit;
  (** the name [tempfile.NamedTemporaryFile] picks *)
  temp_name : string
}.

(** ** quality_check.py *)

Record quality_score := QualityScore {
  blurry : bool;
  dark : bool;
  low_resolution : bool;
  pixelated : bool;
  filename : string
}.

Definition is_blurry (E : env) (img : image) : M bool :=
  try_except (lift (blur_body E img))
    (fun e => emit (Log ERROR "Error in blur detection: " (str_exn e));; ret false).

Definition is_dark (E : env) (img : image) : M bool :=
  try_except (lift (dark_body E img))
    (fun e => emit (Log ERROR "Error in brightness detection: " (str_exn e));; ret false).

Definition is_low_resolution (img : image) (min_width min_height : Z) : M bool :=
  try_except
    (match dims img with
     | Some (height, width) =>
         ret ((width <? min_width) || (height <? min_height))
     | None => raise (ValueError "not enough values to unpack (expected 2)")
     end)
    (fun e => emit (Log ERROR "Error in resolution detection: " (str_exn e));; ret false).

Definition is_pixelated (E : env) (img : image) : M bool :=
  try_except (lift (pixelated_body E img))
    (fun e => emit (Log ERROR "Error in pixelation detection: " (str_exn e));; ret false).

(** The dictionary of default values that [get_quality_score] returns
    when it fails; [analyze_video] sets the file name afterwards. *)
Definition default_score : quality_score :=
  QualityScore false false false false "".

Definition get_quality_score (E : env) (img : image) : M quality_score :=
  try_except
    (match shape img with
     | [height; width; channels] =>
         b <- is_blurry E img;;
         d <- is_dark E img;;
         l <- is_low_resolution img 1280 720;;
         p <- is_pixelated E img;;
         ret (QualityScore b d l p "")
     | _ => raise (ValueError "wrong number of values to unpack (expected 3)")
     end)
    (fun e => emit (Log ERROR "Error in quality analysis: " (str_exn e));;
              ret default_score).

(** ** Directory and image access *)

(** [os.listdir(d)]: the names in the directory, in no particular order. *)
Definition listdir (files : gmap string jpg_file) : list string :=
  (map_to_list files).*1.

(** [sorted(names)] *)
Definition sorted (names : list string) : list string :=
  merge_sort String.le names.

(** A path is kept as the directory and the file name that
    [os.path.join] puts together. *)
Definition path_str (p : string * string) : string := os_path_join p.1 p.2.

(** [cv2.imread(os.path.join(d, name))] *)
Definition imread (d name : string) : M (option image) :=
  fs <- get_fs;;
  ret (match dirs fs !! d with
       | Some files =>
           match files !! name with
           | Some (Decodes img) => Some img
           | _ => None
           end
       | None => None
       end).

(** [cv2.imwrite(os.path.join(d, name), img)] *)
Definition imwrite (E : env) (d name : string) (img : image) : M bool :=
  fs <- get_fs;;
  match dirs fs !! d with
  | Some files =>
      if imwrite_ok E (os_path_join d name) img
      then put_fs (Fsys (<[d := <[name := Decodes img]> files]> (dirs fs)) (videos fs));;
           ret true
      else ret false
  | None => ret false
  end.

(** [os.makedirs(d, exist_ok=True)] *)
Definition makedirs (d : string) : M unit :=
  fs <- get_fs;;
  match dirs fs !! d with
  | Some _ => ret tt
  | None => put_fs (Fsys (<[d := ∅]> (dirs fs)) (videos fs))
  end.

(** [shutil.copy(os.path.join(d_in, name), os.path.join(d_out, name))] *)
Definition shutil_copy (d_in d_out name : string) : M unit :=
  emit (Call "shutil.copy" [os_path_join d_in name; os_path_join d_out name]);;
  fs <- get_fs;;
  match dirs fs !! d_in, dirs fs !! d_out with
  | Some src, Some dst =>
      match src !! name with
      | Some f =>
          put_fs (Fsys (<[d_out := <[name := f]> dst]> (dirs fs)) (videos fs))
      | None => raise (FileNotFoundError (os_path_join d_in name))
      end
  | _, _ => raise (FileNotFoundError (os_path_join d_in name))
  end.

(** ** analyzer.py *)

Definition count_if {A} (p : A -> bool) (l : list A) : Z :=
  Z.of_nat (length (filter (fun x => p x = true) l)).

(** [len(results) - blurry_count - dark_count - low_res_count - pixelated_count] *)
Definition analyzer_good_count (results : list quality_score) : Z :=
  let blurry_count := count_if blurry results in
  let dark_count := count_if dark results in
  let low_res_count := count_if low_resolution results in
  let pixelated_count := count_if pixelated results in
  Z.of_nat (length results) - blurry_count - dark_count - low_res_count - pixelated_count.

Definition set_filename (q : quality_score) (file : string) : quality_score :=
  QualityScore (blurry q) (dark q) (low_resolution q) (pixelated q) file.

(** The body of the loop over the frame files. *)
Definition analyze_frame (E : env) (frame_dir file : string)
    (results : list quality_score) : M (list quality_score) :=
  try_except
    (img <- imread frame_dir file;;
     match img with
     | None =>
         emit (Log WARNING "Failed to read frame: " (os_path_join frame_dir file));;
         ret results
     | Some img =>
         q <- get_quality_score E img;;
         ret (results ++ [set_filename q file])
     end)
    (fun e =>
       emit (Log ERROR ("Error analyzing frame " +:+ file +:+ ": ") (str_exn e));;
       ret results).

Fixpoint analyze_frames (E : env) (frame_dir : string) (frame_files : list string)
    (results : list quality_score) : M (list quality_score) :=
  match frame_files with
  | [] => ret results
  | file :: rest =>
      results' <- analyze_frame E frame_dir file results;;
      analyze_frames E frame_dir rest results'
  end.

Definition log_summary (results : list quality_score) : M unit :=
  match results with
  | [] => ret tt
  | _ =>
      emit (Log INFO "  - Total frames: " (str_int (Z.of_nat (length results))));;
      emit (Log INFO "  - Blurry frames: " (str_int (count_if blurry results)));;
      emit (Log INFO "  - Dark frames: " (str_int (count_if dark results)));;
      emit (Log INFO "  - Low-resolution frames: " (str_int (count_if low_resolution results)));;
      emit (Log INFO "  - Pixelated frames: " (str_int (count_if pixelated results)));;
      emit (Log INFO "  - Good frames: " (str_int (analyzer_good_count results)))
  end.

Definition analyze_video (E : env) (frame_dir : string) : M (list quality_score) :=
  try_except
    (fs <- get_fs;;
     match dirs fs !! frame_dir with
     | None =>
         let error_msg := "Frame directory does not exist: " +:+ frame_dir in
         emit (Log ERROR error_msg "");;
         raise (ValueError error_msg)
     | Some files =>
         let frame_files := filter (fun f => endswith f ".jpg" = true) (sorted (listdir files)) in
         match frame_files with
         | [] =>
             let error_msg := "No frame files found in directory: " +:+ frame_dir in
             emit (Log ERROR error_msg "");;
             raise (ValueError error_msg)
         | _ =>
             results <- analyze_frames E frame_dir frame_files [];;
             log_summary results;;
             ret results
         end
     end)
    (fun e => emit (Log ERROR "Video analysis failed: " (str_exn e));; raise e).

(** ** enhancer.py *)

(** [np.clip(output, 0, 255).astype(np.uint8)]: the shape is kept. *)
Definition clip_uint8 (output : image) : image :=
  Image (shape output) (map (fun v => Z.max 0 (Z.min 255 v)) (pixels output)).

Definition enhance_image (E : env) (image_path output_path : string * string) : M bool :=
  emit (Log INFO "Starting image enhancement: "
          (path_str image_path +:+ " -> " +:+ path_str output_path));;
  try_except
    (img <- imread image_path.1 image_path.2;;
     match img with
     | None => raise (ValueError ("Could not load image from " +:+ path_str image_path))
     | Some img =>
         low_res <- is_low_resolution img 1280 720;;
         pixelated <- is_pixelated E img;;
         if negb (low_res || pixelated) then
           success <- imwrite E output_path.1 output_path.2 img;;
           if negb success then
             emit (Log ERROR "Failed to save image (copy mode)" "");;
             raise (RuntimeError "Failed to save image (copy mode)")
           else ret false
         else
           emit (Log INFO "Initializing RealESRGAN model..." "");;
           lift (model_init E);;
           emit (Call "upsampler.enhance" [path_str image_path]);;
           output <- lift (upsample E img);;
           let output := clip_uint8 output in
           success <- imwrite E output_path.1 output_path.2 output;;
           if success then ret true
           else
             emit (Log ERROR "Failed to save enhanced image" "");;
             raise (RuntimeError "Failed to save enhanced image")
     end)
    (fun e => emit (Log ERROR "Image enhancement failed: " (str_exn e));; raise e).

(** ** video_frame_extraction.py *)

Definition frame_name (saved_frames : Z) : string :=
  "frame_" +:+ fmt_06d saved_frames +:+ ".jpg".

(** The [while cap.isOpened()] loop; [reads] are the answers the
    capture still has to give. *)
Fixpoint extract_loop (E : env) (output_dir : string) (extract_all_frames : bool)
    (video_fps : Q) (reads : list (option image)) (saved_frames : Z) : M Z :=
  match reads with
  | [] => ret saved_frames
  | None :: _ => ret saved_frames
  | Some frame :: rest =>
      if extract_all_frames then
        success <- imwrite E output_dir (frame_name saved_frames) frame;;
        if success then
          extract_loop E output_dir extract_all_frames video_fps rest (saved_frames + 1)
        else
          emit (Log ERROR ("Failed to save frame " +:+ str_int saved_frames +:+ " to ")
                  (os_path_join output_dir (frame_name saved_frames)));;
          extract_loop E output_dir extract_all_frames video_fps rest saved_frames
      else
        let frame_interval := if Qlt_le_dec 0 video_fps then Qfloor video_fps else 1 in
        if frame_interval =? 0 then
          raise (ZeroDivisionError "integer division or modulo by zero")
        else if saved_frames mod frame_interval =? 0 then
          success <- imwrite E output_dir (frame_name saved_frames) frame;;
          if success then
            extract_loop E output_dir extract_all_frames video_fps rest (saved_frames + 1 + 1)
          else
            emit (Log ERROR ("Failed to save frame " +:+ str_int saved_frames +:+ " to ")
                    (os_path_join output_dir (frame_name saved_frames)));;
            extract_loop E output_dir extract_all_frames video_fps rest (saved_frames + 1)
        else
          extract_loop E output_dir extract_all_frames video_fps rest (saved_frames + 1)
  end.

Definition extract_frames (E : env) (video_path output_dir : string)
    (extract_all_frames : bool) : M Z :=
  emit (Log INFO "Starting frame extraction from: " video_path);;
  makedirs output_dir;;
  match capture E video_path with
  | None =>
      let error_msg := "Failed to open video file: " +:+ video_path in
      emit (Log ERROR error_msg "");;
      raise (ValueError error_msg)
  | Some cap =>
      try_except
        (extract_loop E output_dir extract_all_frames (cap_fps cap) (cap_reads cap) 0)
        (fun e => emit (Log ERROR "Error during frame extraction: " (str_exn e));; raise e)
  end.

(** ** reconstructor.py *)

(** [os.rename(src, dst)] on video files. *)
Definition os_rename (src dst : string) : M unit :=
  fs <- get_fs;;
  match videos fs !! src with
  | Some v => put_fs (Fsys (dirs fs) (<[dst := v]> (delete src (videos fs))))
  | None => raise (FileNotFoundError src)
  end.

(** [os.remove(p)] on a video file. *)
Definition os_remove (p : string) : M unit :=
  fs <- get_fs;;
  match videos fs !! p with
  | Some _ => put_fs (Fsys (dirs fs) (delete p (videos fs)))
  | None => raise (FileNotFoundError p)
  end.

(** The loop that feeds the frames to the writer; [written] are the
    frames passed to [writer.write] so far. *)
Fixpoint write_frames (frame_dir : string) (frames : list string)
    (written : list image) : M (list image) :=
  match frames with
  | [] => ret written
  | frame_file :: rest =>
      frame <- imread frame_dir frame_file;;
      match frame with
      | None =>
          emit (Log WARNING "Failed to read frame: " (os_path_join frame_dir frame_file));;
          write_frames frame_dir rest written
      | Some frame => write_frames frame_dir rest (written ++ [frame])
      end
  end.

Definition ffmpeg_cmd (temp_video_path original_video_path output_path : string)
  : list string :=
  ["ffmpeg"; "-i"; temp_video_path; "-i"; original_video_path;
   "-c:v"; "copy"; "-c:a"; "aac"; "-map"; "0:v:0"; "-map"; "1:a:0";
   output_path; "-y"].

(** The branch that puts the audio of the original back. *)
Definition add_audio (E : env) (temp_video_path original_video_path output_path : string)
    (written : list image) : M unit :=
  try_except
    (let cmd := ffmpeg_cmd temp_video_path original_video_path output_path in
     emit (Call "subprocess.run" cmd);;
     result <- lift (subprocess_run E cmd);;
     if result.1 =? 0 then
       (* ffmpeg has written the output: the video stream of the
          temporary file and the audio of the original *)
       fs <- get_fs;;
       put_fs (Fsys (dirs fs) (<[output_path := Video written true]> (videos fs)));;
       os_remove temp_video_path
     else
       emit (Log WARNING "Failed to add audio: " result.2);;
       os_rename temp_video_path output_path)
    (fun e =>
       emit (Log WARNING "Error adding audio: " (str_exn e));;
       os_rename temp_video_path output_path).

(** [original_video_path and os.path.exists(original_video_path)] *)
Definition has_original (E : env) (original_video_path : option string) : bool :=
  match original_video_path with
  | Some original => negb (String.eqb original "") && path_exists E original
  | None => false
  end.

Definition reconstruct_video (E : env) (frame_dir output_path : string)
    (original_video_path : option string) (fps : Z) : M string :=
  emit (Log INFO "Starting video reconstruction from: " frame_dir);;
  try_except
    (fs <- get_fs;;
     match dirs fs !! frame_dir with
     | None => raise (FileNotFoundError frame_dir)
     | Some files =>
         let frames := sorted (filter (fun f => endswith f ".jpg" = true) (listdir files)) in
         match frames with
         | [] =>
             let error_msg := "No frame files found in directory: " +:+ frame_dir in
             emit (Log ERROR error_msg "");;
             raise (ValueError error_msg)
         | first :: _ =>
             first_frame <- imread frame_dir first;;
             match first_frame with
             | None =>
                 let error_msg :=
                   "Failed to read first frame: " +:+ os_path_join frame_dir first in
                 emit (Log ERROR error_msg "");;
                 raise (ValueError error_msg)
             | Some first_frame =>
                 match shape first_frame with
                 | [height; width; channels] =>
                     let temp_video_path := replace_mp4 output_path in
                     if negb (writer_opens E temp_video_path) then
                       let error_msg :=
                         "Failed to initialize video writer for: " +:+ temp_video_path in
                       emit (Log ERROR error_msg "");;
                       raise (ValueError error_msg)
                     else
                       written <- write_frames frame_dir frames [];;
                       (* writer.release(): the temporary file holds the frames *)
                       fs <- get_fs;;
                       put_fs (Fsys (dirs fs)
                                 (<[temp_video_path := Video written false]> (videos fs)));;
                       (if has_original E original_video_path
                        then add_audio E temp_video_path
                               (default "" original_video_path) output_path written
                        else os_rename temp_video_path output_path);;
                       ret output_path
                 | _ => raise (ValueError "wrong number of values to unpack (expected 3)")
                 end
             end
         end
     end)
    (fun e => emit (Log ERROR "Video reconstruction failed: " (str_exn e));; raise e).

(** ** run_pipeline.py *)

Definition progress_callback_t : Type := gmap string value -> M unit.

(** The nested function [update_progress]; [task] tells whether a task
    object was passed. [update_data.update(meta)] lets the entries of
    [meta] win. *)
Definition update_progress (task : bool) (progress_callback : option progress_callback_t)
    (step message : string) (progress_percent : option Q) (meta : gmap string value)
  : M unit :=
  let update_data : gmap string value :=
    {[ "step" := VStr step;
       "message" := VStr message;
       "progress_percent" := match progress_percent with
                             | Some q => VNum q
                             | None => VNone
                             end ]} in
  let update_data := meta ∪ update_data in
  when task (emit (UpdateState "PROGRESS" update_data));;
  match progress_callback with
  | Some callback => callback update_data
  | None => ret tt
  end.

(** The handler shared by the four stages: log, record the failure on
    the task, re-raise. *)
Definition stage_failed {A} (task : bool) (what : string) (e : exn) : M A :=
  emit (Log ERROR (what +:+ " failed: ") (str_exn e));;
  when task (emit (UpdateState "FAILURE"
                     {[ "error" := VStr (what +:+ " failed: " +:+ str_exn e) ]}));;
  raise e.

Definition frames_d : string := "ml_output/frames".
Definition enhanced_d : string := "ml_output/enhanced".
Definition reconstructed_mp4 : string := "ml_output/reconstructed.mp4".

(** [progress = 55 + (i / len(results)) * 30] *)
Definition frame_progress (i total : Z) : Q :=
  (55 + (inject_Z i / inject_Z total) * 30)%Q.

(** The body of [for i, result in enumerate(results)], returning the
    two counters. *)
Definition process_frame (E : env) (task : bool) (cb : option progress_callback_t)
    (total i : Z) (result : quality_score) (enhanced_count copied_count : Z)
  : M (Z * Z) :=
  let progress := frame_progress i total in
  let input_path := (frames_d, filename result) in
  let output_path := (enhanced_d, filename result) in
  if blurry result || dark result then
    update_progress task cb "ENHANCE"
      ("Enhancing frame " +:+ str_int (i + 1) +:+ "/" +:+ str_int total +:+ ": "
         +:+ filename result)
      (Some progress)
      {[ "current_frame" := VInt (i + 1);
         "total_frames" := VInt total;
         "enhanced_count" := VInt enhanced_count;
         "copied_count" := VInt copied_count ]};;
    enhance_image E input_path output_path;;
    ret (enhanced_count + 1, copied_count)
  else
    shutil_copy frames_d enhanced_d (filename result);;
    ret (enhanced_count, copied_count + 1).

Fixpoint enhance_frames (E : env) (task : bool) (cb : option progress_callback_t)
    (total : Z) (rest : list quality_score) (i enhanced_count copied_count : Z)
  : M (Z * Z) :=
  match rest with
  | [] => ret (enhanced_count, copied_count)
  | result :: rest' =>
      counts <- process_frame E task cb total i result enhanced_count copied_count;;
      enhance_frames E task cb total rest' (i + 1) counts.1 counts.2
  end.

(** Following the words of the specification: the number of frames
    that have none of the four flags. *)
Definition good_frames (results : list quality_score) : Z :=
  count_if (fun r => negb (blurry r || dark r || low_resolution r || pixelated r)) results.

(** [good_count = len(results) - blurry_count - dark_count] *)
Definition pipeline_good_count (results : list quality_score) : Z :=
  let blurry_count := count_if blurry results in
  let dark_count := count_if dark results in
  Z.of_nat (length results) - blurry_count - dark_count.

(** Step 1: extract all frames from the video. *)
Definition step_extract (E : env) (task : bool) (cb : option progress_callback_t)
    (video_path : string) : M Z :=
  update_progress task cb "EXTRACT" "Starting frame extraction" (Some 15%Q) ∅;;
  try_except
    (total_frames <- extract_frames E video_path frames_d true;;
     update_progress task cb "EXTRACT"
       ("Frame extraction completed successfully. Extracted "
          +:+ str_int total_frames +:+ " frames")
       (Some 30%Q) {[ "total_frames" := VInt total_frames ]};;
     ret total_frames)
    (stage_failed task "Frame extraction").

(** Step 2: analyze the quality of all frames. *)
Definition step_analyze (E : env) (task : bool) (cb : option progress_callback_t)
  : M (list quality_score) :=
  update_progress task cb "ANALYZE" "Starting video quality analysis" (Some 35%Q) ∅;;
  try_except
    (results <- analyze_video E frames_d;;
     let n := Z.of_nat (length results) in
     update_progress task cb "ANALYZE"
       ("Quality analysis completed. Analyzed " +:+ str_int n +:+ " frames")
       (Some 50%Q) {[ "analyzed_frames" := VInt n ]};;
     let blurry_count := count_if blurry results in
     let dark_count := count_if dark results in
     let good_count := pipeline_good_count results in
     update_progress task cb "ANALYZE"
       ("Analysis summary: " +:+ str_int blurry_count +:+ " blurry frames, "
          +:+ str_int dark_count +:+ " dark frames, "
          +:+ str_int good_count +:+ " good frames")
       (Some 50%Q)
       {[ "blurry_count" := VInt blurry_count;
          "dark_count" := VInt dark_count;
          "good_count" := VInt good_count ]};;
     ret results)
    (stage_failed task "Video analysis").

(** Step 3: enhance the bad frames, copy the good ones. *)
Definition step_enhance (E : env) (task : bool) (cb : option progress_callback_t)
    (results : list quality_score) : M (Z * Z) :=
  update_progress task cb "ENHANCE" "Starting frame enhancement" (Some 55%Q) ∅;;
  try_except
    (counts <- enhance_frames E task cb (Z.of_nat (length results)) results 0 0 0;;
     update_progress task cb "ENHANCE"
       ("Frame processing completed: " +:+ str_int counts.1 +:+ " enhanced, "
          +:+ str_int counts.2 +:+ " copied")
       (Some 85%Q)
       {[ "enhanced_count" := VInt counts.1; "copied_count" := VInt counts.2 ]};;
     ret counts)
    (stage_failed task "Frame processing").

(** Step 4: reconstruct the video, keeping the audio. *)
Definition step_reconstruct (E : env) (task : bool) (cb : option progress_callback_t)
    (video_path : string) : M string :=
  update_progress task cb "RECONSTRUCT" "Starting video reconstruction" (Some 90%Q) ∅;;
  try_except
    (reconstructed_video <-
       reconstruct_video E enhanced_d reconstructed_mp4 (Some video_path) 24;;
     update_progress task cb "RECONSTRUCT"
       ("Video reconstruction completed: " +:+ reconstructed_video)
       (Some 95%Q) {[ "output_path" := VStr reconstructed_video ]};;
     ret reconstructed_video)
    (stage_failed task "Video reconstruction").

Definition run_pipeline (E : env) (video_path : string) (task : bool)
    (cb : option progress_callback_t) : M (list quality_score) :=
  update_progress task cb "INIT" "Pipeline started" (Some 0%Q)
    {[ "video_path" := VStr video_path ]};;
  update_progress task cb "SETUP" "Creating output directories" (Some 5%Q) ∅;;
  makedirs frames_d;;
  makedirs enhanced_d;;
  update_progress task cb "SETUP" "Output directories created successfully" (Some 10%Q) ∅;;
  total_frames <- step_extract E task cb video_path;;
  results <- step_analyze E task cb;;
  counts <- step_enhance E task cb results;;
  reconstructed_video <- step_reconstruct E task cb video_path;;
  update_progress task cb "COMPLETE" "Pipeline completed successfully" (Some 100%Q)
    {[ "final_output" := VStr reconstructed_mp4;
       "total_frames" := VInt (Z.of_nat (length results));
       "enhanced_count" := VInt counts.1;
       "copied_count" := VInt counts.2 ]};;
  ret results.

(** ** tasks.py *)

Record task_return := TaskReturn {
  tr_status : string;
  tr_video_path : string;
  tr_total_frames : Z;
  tr_enhanced_frames : Z;
  tr_output_path : string;
  tr_results : list quality_score
}.

Definition publish_progress_to_redis (task_id : string) : progress_callback_t :=
  fun progress_data => emit (Publish ("task_updates:" +:+ task_id) progress_data).

Definition run_pipeline_task (E : env) (task_id video_path : string) : M task_return :=
  try_except
    (lift (get_minio_client E);;
     match split_slash video_path with
     | None => raise (ValueError "not enough values to unpack (expected 2, got 1)")
     | Some (bucket, key) =>
         lift (minio_download E bucket key);;
         let local_video_path := temp_name E in
         emit (UpdateState "STARTED"
                 {[ "status" := VStr "Pipeline started";
                    "video_path" := VStr video_path ]});;
         results <- run_pipeline E local_video_path true
                      (Some (publish_progress_to_redis task_id));;
         let enhanced_local_path := os_path_join "ml_output" "reconstructed.mp4" in
         let enhanced_key := "enhanced/reconstructed.mp4" in
         fs <- get_fs;;
         match videos fs !! enhanced_local_path with
         | None => raise (FileNotFoundError enhanced_local_path)
         | Some _ => lift (minio_upload E bucket enhanced_key)
         end;;
         let enhanced_minio_path := bucket +:+ "/" +:+ enhanced_key in
         let enhanced_frames := count_if (fun r => blurry r || dark r) results in
         emit (UpdateState "SUCCESS"
                 {[ "status" := VStr "Pipeline completed successfully";
                    "video_path" := VStr video_path;
                    "total_frames" := VInt (Z.of_nat (length results));
                    "enhanced_frames" := VInt enhanced_frames;
                    "output_path" := VStr enhanced_minio_path ]});;
         publish_progress_to_redis task_id
           {[ "state" := VStr "SUCCESS";
              "status" := VStr "Pipeline completed successfully";
              "output_path" := VStr enhanced_minio_path ]};;
         ret (TaskReturn "success" video_path (Z.of_nat (length results))
                enhanced_frames enhanced_minio_path results)
     end)
    (fun e =>
       emit (UpdateState "FAILURE"
               {[ "status" := VStr "Pipeline failed";
                  "error" := VStr (str_exn e);
                  "video_path" := VStr video_path ]});;
       emit (Publish ("task_updates:" +:+ task_id)
               {[ "state" := VStr "FAILURE";
                  "status" := VStr "Pipeline failed";
                  "error" := VStr (str_exn e) ]});;
       emit (Log ERROR "Pipeline task failed: " (str_exn e));;
       raise e).

(** ** video_frame_extraction.py: the audio track *)

(** [p[:p.rfind('/') + 1]]: the text up to the last slash, slash
    included; empty when [p] holds no slash. *)
Fixpoint up_to_last_slash (p : string) : string :=
  match p with
  | EmptyString => EmptyString
  | String c rest =>
      match up_to_last_slash rest with
      | EmptyString => if Ascii.eqb c "/" then String c EmptyString else EmptyString
      | head => String c head
      end
  end.

(** [head.rstrip('/')] *)
Fixpoint rstrip_slash (head : string) : string :=
  match head with
  | EmptyString => EmptyString
  | String c rest =>
      match rstrip_slash rest with
      | EmptyString => if Ascii.eqb c "/" then EmptyString else String c EmptyString
      | rest' => String c rest'
      end
  end.

(** [os.path.dirname(p)] (posixpath): the head up to the last slash,
    without its trailing slashes unless it is made of slashes only. *)
Definition os_path_dirname (p : string) : string :=
  let head := up_to_last_slash p in
  match rstrip_slash head with
  | EmptyString => head
  | stripped => stripped
  end.

(** [os.makedirs(d, exist_ok=True)] for a path that may be empty: the
    empty path names no directory. *)
Definition os_makedirs (d : string) : M unit :=
  if String.eqb d "" then raise (FileNotFoundError "") else makedirs d.

Definition audio_cmd (video_path output_audio_path : string) : list string :=
  ["ffmpeg"; "-i"; video_path; "-vn"; "-acodec"; "copy"; output_audio_path; "-y"].

(** [' '.join(words)] *)
Fixpoint join_space (words : list string) : string :=
  match words with
  | [] => ""
  | [w] => w
  | w :: rest => w +:+ " " +:+ join_space rest
  end.

Definition extract_audio (E : env) (video_path output_audio_path : string) : M string :=
  emit (Log INFO "Extracting audio from: " video_path);;
  emit (Log INFO "Output audio path: " output_audio_path);;
  try_except
    (os_makedirs (os_path_dirname output_audio_path);;
     let cmd := audio_cmd video_path output_audio_path in
     emit (Log INFO "Running command: " (join_space cmd));;
     emit (Call "subprocess.run" cmd);;
     result <- lift (subprocess_run E cmd);;
     if result.1 =? 0 then
       emit (Log INFO "Audio extraction completed successfully!" "");;
       ret output_audio_path
     else
       let error_msg := "Audio extraction failed: " +:+ result.2 in
       emit (Log ERROR error_msg "");;
       raise (RuntimeError error_msg))
    (fun e => emit (Log ERROR "Audio extraction failed: " (str_exn e));; raise e).

Example dirname_samples :
  os_path_dirname "audio.aac" = "" /\ os_path_dirname "a/b/c.aac" = "a/b" /\
  os_path_dirname "/c.aac" = "/" /\ os_path_dirname "a//c" = "a" /\
  os_path_dirname "//c" = "//".
Proof. by repeat split. Qed.

(** ** tasks.py: the status of a task *)

(** What the result backend holds for a task besides its state
    ([task.info]): nothing, a dictionary (the [meta] of an update, or
    the value returned), or the exception raised. *)
Inductive task_info :=
| InfoNone
| InfoDict (d : gmap string value)
| InfoExc (e : exn).

Record status_response := StatusResponse {
  sr_state : string;
  sr_status : value;
  sr_meta : option (gmap string value)
}.

(** The world of the API process. *)
Record api_env := ApiEnv {
  (** [datetime.now().strftime("%Y%m%d_%H%M%S")] *)
  now_stamp : string;
  (** [str(uuid.uuid4())[:8]] *)
  uuid8 : string;
  (** [str(e)] for an [HTTPException] with the given status and detail *)
  str_http : Z -> string -> string;
  (** [str(d)] for a dictionary *)
  str_dict : gmap string value -> string;
  (** [minio_client.upload_fileobj(file, bucket, key, ExtraArgs=...)] *)
  api_upload : string -> string -> string -> result unit;
  (** [celery_app.send_task(name, args=[arg]).id] *)
  send_task : string -> string -> result string;
  (** [os.path.exists(v)] in the API process *)
  os_path_exists : value -> result bool
}.

(** [str(task.info)] *)
Definition str_info (A : api_env) (info : task_info) : string :=
  match info with
  | InfoNone => "None"
  | InfoDict d => str_dict A d
  | InfoExc e => str_exn e
  end.

Definition get_task_status (A : api_env) (state : string) (info : task_info)
  : result status_response :=
  if String.eqb state "PENDING" then
    Ok (StatusResponse state (VStr "Task is pending...") None)
  else if negb (String.eqb state "FAILURE") then
    match info with
    | InfoDict d => Ok (StatusResponse state (default (VStr "") (d !! "status")) (Some d))
    | _ => Raise (ExternalError "object has no attribute 'get'")
    end
  else Ok (StatusResponse state (VStr (str_info A info)) None).

(** ** api/routes.py

    The routes are modelled by what they answer; their log records
    are left out. *)

(** An exception in a route: an [HTTPException], or any other. *)
Inductive api_exn :=
| HTTPException (status_code : Z) (detail : string)
| PyError (e : exn).

Inductive api_result (A : Type) :=
| Returned (a : A)
| Raised (e : api_exn).
Arguments Returned {A} a.
Arguments Raised {A} e.

(** [str(e)] *)
Definition str_api (A : api_env) (e : api_exn) : string :=
  match e with
  | HTTPException status_code detail => str_http A status_code detail
  | PyError e => str_exn e
  end.

(** [except Exception as e: raise HTTPException(status_code=500,
    detail=f"<what>: {str(e)}")] around the body of a route. *)
Definition or_500 {B} (A : api_env) (what : string) (body : api_result B) : api_result B :=
  match body with
  | Returned b => Returned b
  | Raised e => Raised (HTTPException 500 (what +:+ ": " +:+ str_api A e))
  end.

(** A result of the pipeline's world inside a route. *)
Definition py {B} (r : result B) : api_result B :=
  match r with
  | Ok b => Returned b
  | Raise e => Raised (PyError e)
  end.

Definition api_bind {B C} (m : api_result B) (k : B -> api_result C) : api_result C :=
  match m with
  | Returned b => k b
  | Raised e => Raised e
  end.

(** [s.startswith(prefix)] *)
Definition startswith (s prefix : string) : bool := String.prefix prefix s.

Record upload_file := UploadFile {
  uf_filename : string;
  uf_content_type : option string
}.

Record enhance_response := EnhanceResponse {
  er_status : string;
  er_message : string;
  er_task_id : string;
  er_minio_object_path : string;
  er_original_filename : string;
  er_task_status_url : string
}.

Definition enhance_video (A : api_env) (E : env) (file : upload_file)
  : api_result enhance_response :=
  or_500 A "Failed to submit task"
    (api_bind
       (match uf_content_type file with
        | None => Raised (PyError (ExternalError "object has no attribute 'startswith'"))
        | Some content_type =>
            if negb (startswith content_type "video/")
            then Raised (HTTPException 400 "File must be a video")
            else Returned content_type
        end)
       (fun content_type =>
          let minio_filename :=
            now_stamp A +:+ "_" +:+ uuid8 A +:+ "_" +:+ uf_filename file in
          let minio_bucket := "videos" in
          api_bind (py (get_minio_client E)) (fun minio_client =>
          api_bind (py (api_upload A minio_bucket minio_filename content_type)) (fun uploaded =>
          let minio_object_path := minio_bucket +:+ "/" +:+ minio_filename in
          api_bind (py (send_task A "ml.tasks.run_pipeline_task" minio_object_path))
            (fun task_id =>
               Returned
                 (EnhanceResponse "success" "Video enhancement task submitted" task_id
                    minio_object_path (uf_filename file)
                    ("/api/v1/task-status/" +:+ task_id))))))).

Record status_view := StatusView {
  sv_task_id : string;
  sv_status : status_response;
  sv_progress : value;
  sv_step : value;
  sv_enhanced_video_path : option value;
  sv_enhanced_video_url : option string
}.

(** [status.get('meta')] taken as a condition: the dictionary is there
    and is not empty. *)
Definition meta_truthy (status : status_response) : bool :=
  match sr_meta status with
  | Some d => negb (bool_decide (dom d = ∅))
  | None => false
  end.

(** [status.get('meta', {}).get(key, fallback)] *)
Definition meta_get (status : status_response) (key : string) (fallback : value) : value :=
  match sr_meta status with
  | Some d => default fallback (d !! key)
  | None => fallback
  end.

(** [get_task_status_endpoint]; [fetched_status] is what
    [celery_app.send_task('ml.tasks.get_task_status', ...).get()] gave. *)
Definition get_task_status_endpoint (A : api_env) (task_id : string)
    (fetched_status : result status_response) : api_result status_view :=
  or_500 A "Failed to get task status"
    (api_bind (py fetched_status) (fun status =>
       let progress :=
         if meta_truthy status then meta_get status "progress_percent" (VInt 0)
         else VInt 0 in
       let step :=
         if meta_truthy status then meta_get status "step" (VStr "UNKNOWN")
         else VStr "UNKNOWN" in
       if String.eqb (sr_state status) "SUCCESS" then
         let output_path :=
           meta_get status "output_path" (VStr "ml_output/reconstructed.mp4") in
         api_bind (py (os_path_exists A output_path)) (fun found =>
           if found
           then Returned (StatusView task_id status progress step (Some output_path)
                            (Some ("/api/v1/video/" +:+ task_id)))
           else Returned (StatusView task_id status progress step None None))
       else Returned (StatusView task_id status progress step None None))).

Record file_response := FileResponse {
  fr_path : value;
  fr_media_type : string;
  fr_filename : string
}.

Definition get_enhanced_video (A : api_env) (task_id : string)
    (fetched_status : result status_response) : api_result file_response :=
  or_500 A "Failed to get enhanced video"
    (api_bind (py fetched_status) (fun status =>
       if negb (String.eqb (sr_state status) "SUCCESS")
       then Raised (HTTPException 404 "Task not completed or failed")
       else
         let output_path :=
           meta_get status "output_path" (VStr "ml_output/reconstructed.mp4") in
         api_bind (py (os_path_exists A output_path)) (fun found =>
           if negb found
           then Raised (HTTPException 404 "Enhanced video not found")
           else Returned (FileResponse output_path "video/mp4"
                            ("enhanced_video_" +:+ task_id +:+ ".mp4"))))).

(** ** shared/redis_client.py *)

(** A value handed to the client: a Python value, or a dictionary. *)
Inductive redis_value :=
| RVal (v : value)
| RDict (d : gmap string value).

Record redis_env := RedisEnv {
  (** [_get_connection_params()], [redis.ConnectionPool(...)] and
      [redis.Redis(...)], up to the assignment of [self._client] *)
  redis_connect : result unit;
  (** [self._client.ping()] *)
  redis_ping : result bool;
  (** sending the named command: raises when the server is out of reach *)
  redis_command : string -> result unit;
  (** the number of subscribers a channel has *)
  receivers : string -> Z;
  (** [json.dumps(v)] and [json.loads(s)] ([None] when it raises
      [JSONDecodeError] or [TypeError]) *)
  json_dumps : redis_value -> result string;
  json_loads : string -> option redis_value
}.

(** The client object ([self._client] is set or not) and the keys of
    the server, each with its text and the time to live it was given;
    the commands of one theorem run at one instant, before any key
    expires. *)
Record redis := Redis {
  client_set : bool;
  store : gmap string (string * option Z)
}.

Definition redis_run (B : Type) : Type := result B * redis * list effect.

(** The property [client]: the connection is made on first use; the
    client object stays once assigned, also when the ping then fails. *)
Definition client (R : redis_env) (c : redis) : redis_run unit :=
  if client_set c then (Ok tt, c, [])
  else
    match redis_connect R with
    | Raise e => (Raise e, c, [Log ERROR "Failed to connect to Redis: " (str_exn e)])
    | Ok _ =>
        let c1 := Redis true (store c) in
        match redis_ping R with
        | Raise e => (Raise e, c1, [Log ERROR "Failed to connect to Redis: " (str_exn e)])
        | Ok _ => (Ok tt, c1, [Log INFO "Redis connection established" ""])
        end
    end.

(** [value if isinstance(value, str) else json.dumps(value)] *)
Definition serialize (R : redis_env) (v : redis_value) : result string :=
  match v with
  | RVal (VStr s) => Ok s
  | _ => json_dumps R v
  end.

(** [try: json.loads(raw)  except (JSONDecodeError, TypeError): raw] *)
Definition deserialize (R : redis_env) (raw : string) : redis_value :=
  match json_loads R raw with
  | Some v => v
  | None => RVal (VStr raw)
  end.

(** [except Exception as e: logger.error(...); return fallback] *)
Definition or_default {B} (what : string) (fallback : B) (attempt : redis_run B)
  : redis_run B :=
  match attempt with
  | (Raise e, c, t) => (Ok fallback, c, t ++ [Log ERROR what (str_exn e)])
  | done => done
  end.

(** The client, then the command, then [k] on the server's keys. *)
Definition on_server {B} (R : redis_env) (command : string) (c : redis)
    (k : gmap string (string * option Z) -> B * gmap string (string * option Z))
  : redis_run B :=
  match client R c with
  | (Raise e, c1, t) => (Raise e, c1, t)
  | (Ok _, c1, t) =>
      match redis_command R command with
      | Raise e => (Raise e, c1, t)
      | Ok _ =>
          let (b, keys) := k (store c1) in
          (Ok b, Redis (client_set c1) keys, t)
      end
  end.

Definition redis_set (R : redis_env) (key : string) (v : redis_value)
    (ex : option Z) (c : redis) : redis_run bool :=
  or_default ("Redis SET failed for key " +:+ key +:+ ": ") false
    (match serialize R v with
     | Raise e => (Raise e, c, [])
     | Ok payload => on_server R "SET" c (fun keys => (true, <[key := (payload, ex)]> keys))
     end).

Definition redis_get (R : redis_env) (key : string) (fallback : option redis_value)
    (c : redis) : redis_run (option redis_value) :=
  or_default ("Redis GET failed for key " +:+ key +:+ ": ") fallback
    (on_server R "GET" c
       (fun keys =>
          (match keys !! key with
           | None => fallback
           | Some raw => Some (deserialize R raw.1)
           end, keys))).

Definition redis_delete (R : redis_env) (key : string) (c : redis) : redis_run Z :=
  or_default ("Redis DELETE failed for keys " +:+ key +:+ ": ") 0
    (on_server R "DEL" c
       (fun keys => (if bool_decide (is_Some (keys !! key)) then 1 else 0,
                     delete key keys))).

Definition redis_publish (R : redis_env) (channel : string) (message : redis_value)
    (c : redis) : redis_run Z :=
  or_default ("Redis PUBLISH failed for channel " +:+ channel +:+ ": ") 0
    (match serialize R message with
     | Raise e => (Raise e, c, [])
     | Ok payload => on_server R "PUBLISH" c (fun keys => (receivers R channel, keys))
     end).

(** [RedisSessionManager], with its prefix. *)
Definition session_key (prefix session_id : string) : string :=
  prefix +:+ ":" +:+ session_id.

Definition create_session (R : redis_env) (prefix session_id : string)
    (data : gmap string value) (ttl : Z) (c : redis) : redis_run bool :=
  redis_set R (session_key prefix session_id) (RDict data) (Some ttl) c.

Definition get_session (R : redis_env) (prefix session_id : string) (c : redis)
  : redis_run (option redis_value) :=
  redis_get R (session_key prefix session_id) None c.

Definition delete_session (R : redis_env) (prefix session_id : string) (c : redis)
  : redis_run bool :=
  match redis_delete R (session_key prefix session_id) c with
  | (Ok n, c1, t) => (Ok (negb (n =? 0)), c1, t)
  | (Raise e, c1, t) => (Raise e, c1, t)
  end.

(** ** A sample world, to run the model *)

Definition empty_fs : fsys := Fsys ∅ ∅.

Definition img_small : image := Image [100; 100; 3] [0; 300; -5].
Definition img_hd : image := Image [720; 1280; 3] [10; 20; 30].

(** An environment in which everything works, up to the four answers
    given: what the capture yields, what the model returns, what ffmpeg
    returns and what the upload returns. Every frame is found dark. *)
Definition sample_env (cap : option video_capture) (up : image -> result image)
    (mux : result (Z * string)) (upload : result unit) : env := {|
  blur_body := fun _ => Ok false;
  dark_body := fun _ => Ok true;
  pixelated_body := fun _ => Ok false;
  imwrite_ok := fun _ _ => true;
  model_init := Ok tt;
  upsample := up;
  capture := fun _ => cap;
  writer_opens := fun _ => true;
  path_exists := fun _ => true;
  subprocess_run := fun _ => mux;
  get_minio_client := Ok tt;
  minio_download := fun _ _ => Ok tt;
  minio_upload := fun _ _ => upload;
  temp_name := "/tmp/tmpabc.mp4"
|}.

(** A model that doubles the height and the width. *)
Definition upscale_x2 (img : image) : result image :=
  Ok (Image (map (Z.mul 2) (take 2 (shape img)) ++ drop 2 (shape img)) (pixels img)).

Definition two_frames : video_capture := Capture 24 2 [Some img_small; Some img_hd].

Definition env0 : env := sample_env (Some two_frames) upscale_x2 (Ok (1, "no audio stream")) (Ok tt).

(** The source video cannot be opened. *)
Definition env_unreadable : env := sample_env None upscale_x2 (Ok (0, "")) (Ok tt).

(** The model runs out of memory. *)
Definition env_oom : env :=
  sample_env (Some two_frames) (fun _ => Raise (RuntimeError "out of memory"))
    (Ok (0, "")) (Ok tt).

(** The capture opens and yields no frame. *)
Definition env_no_frames : env :=
  sample_env (Some (Capture 24 0 [])) upscale_x2 (Ok (0, "")) (Ok tt).


(** A file system with the two directories of the pipeline, the frame
    directory holding the given files. *)
Definition fs_with (frames : list (string * jpg_file)) : fsys :=
  Fsys {[ frames_d := list_to_map frames; enhanced_d := ∅ ]} ∅.

(** * Reasoning about runs *)

(** ** Stepping through a computation *)

Lemma bind_run {A B} (m : M A) (k : A -> M B) s r s' T :
  bind m k s = (r, s', T) ->
  (exists a s1 t1 t2,
      m s = (Ok a, s1, t1) /\ k a s1 = (r, s', t2) /\ T = t1 ++ t2)
  \/ (exists e, m s = (Raise e, s', T) /\ r = Raise e).
Proof.
  unfold bind. destruct (m s) as [[[a|e] s1] t1].
  - destruct (k a s1) as [[r2 s2] t2] eqn:Hk. intros [= <- <- <-].
    left. by exists a, s1, t1, t2.
  - intros [= <- <- <-]. right. by exists e.
Qed.

Lemma try_except_run {A} (m : M A) (h : exn -> M A) s r s' T :
  try_except m h s = (r, s', T) ->
  (exists a, m s = (Ok a, s', T) /\ r = Ok a)
  \/ (exists e s1 t1 t2,
         m s = (Raise e, s1, t1) /\ h e s1 = (r, s', t2) /\ T = t1 ++ t2).
Proof.
  unfold try_except. destruct (m s) as [[[a|e] s1] t1].
  - intros [= <- <- <-]. left. by exists a.
  - destruct (h e s1) as [[r2 s2] t2] eqn:Hh. intros [= <- <- <-].
    right. by exists e, s1, t1, t2.
Qed.

(** [step H] opens the outermost [bind] or [try_except] of the run [H]. *)
Ltac step H :=
  let a := fresh "a" in let s1 := fresh "s" in
  let t1 := fresh "t" in let t2 := fresh "t" in
  let e := fresh "e" in
  let H1 := fresh "Hrun" in let H2 := fresh "Hrun" in
  first
    [ apply bind_run in H;
      destruct H as [(a & s1 & t1 & t2 & H1 & H2 & ->) | (e & H1 & ->)]
    | apply try_except_run in H;
      destruct H as [(a & H1 & ->) | (e & s1 & t1 & t2 & H1 & H2 & ->)] ].

(** Runs of the primitive computations. *)
Ltac prim H :=
  first
    [ unfold ret in H | unfold raise in H | unfold emit in H
    | unfold get_fs in H | unfold put_fs in H | unfold lift in H ];
  simplify_eq H; intros; subst.

(** ** What a computation may emit *)

(** Every effect of every run of [m] satisfies [P]. *)
Definition emits_only {A} (P : effect -> Prop) (m : M A) : Prop :=
  forall s, Forall P (emitted (m s)).

Lemma emits_only_ret {A} P (a : A) : emits_only P (ret a).
Proof. intros s. constructor. Qed.

Lemma emits_only_raise {A} P e : emits_only P (@raise A e).
Proof. intros s. constructor. Qed.

Lemma emits_only_lift {A} P (r : result A) : emits_only P (lift r).
Proof. intros s. constructor. Qed.

Lemma emits_only_get P : emits_only P get_fs.
Proof. intros s. constructor. Qed.

Lemma emits_only_put P s' : emits_only P (put_fs s').
Proof. intros s. constructor. Qed.

Lemma emits_only_emit P ev : P ev -> emits_only P (emit ev).
Proof. intros H s. by repeat constructor. Qed.

Lemma emits_only_bind {A B} P (m : M A) (k : A -> M B) :
  emits_only P m -> (forall a, emits_only P (k a)) -> emits_only P (bind m k).
Proof.
  intros Hm Hk s. specialize (Hm s). unfold emitted, bind in *.
  destruct (m s) as [[[a|e] s1] t1]; simpl in *; [|done].
  specialize (Hk a s1). unfold emitted in Hk.
  destruct (k a s1) as [[r2 s2] t2]; simpl in *. by apply Forall_app.
Qed.

Lemma emits_only_try {A} P (m : M A) (h : exn -> M A) :
  emits_only P m -> (forall e, emits_only P (h e)) -> emits_only P (try_except m h).
Proof.
  intros Hm Hh s. specialize (Hm s). unfold emitted, try_except in *.
  destruct (m s) as [[[a|e] s1] t1]; simpl in *; [done|].
  specialize (Hh e s1). unfold emitted in Hh.
  destruct (h e s1) as [[r2 s2] t2]; simpl in *. by apply Forall_app.
Qed.

Lemma emits_only_when P b m : emits_only P m -> emits_only P (when b m).
Proof. destruct b; [done|]. intros _. apply emits_only_ret. Qed.

Lemma emits_only_run {A} P (m : M A) s r s' T :
  emits_only P m -> m s = (r, s', T) -> Forall P T.
Proof. intros H Hr. specialize (H s). by rewrite Hr in H. Qed.

Lemma emits_only_weaken {A} (P Q : effect -> Prop) (m : M A) :
  (forall ev, P ev -> Q ev) -> emits_only P m -> emits_only Q m.
Proof. intros HPQ H s. eapply Forall_impl; [apply H | done]. Qed.

Create HintDb emits discriminated.
#[export] Hint Resolve emits_only_ret emits_only_raise emits_only_lift
  emits_only_get emits_only_put emits_only_when : emits.
#[export] Hint Extern 2 (emits_only _ (bind _ _)) =>
  apply emits_only_bind; [|intros ?] : emits.
#[export] Hint Extern 2 (emits_only _ (try_except _ _)) =>
  apply emits_only_try; [|intros ?] : emits.
#[export] Hint Extern 3 (emits_only _ (emit _)) =>
  apply emits_only_emit; simpl : emits.
#[export] Hint Extern 4 (emits_only _ (match ?x with _ => _ end)) =>
  destruct x : emits.

(** Closes [Forall P (t1 ++ ... ++ tn)] from the hypotheses on the parts. *)
Ltac all_of :=
  repeat match goal with
         | |- Forall _ _ =>
             first [ assumption
                   | by apply Forall_nil
                   | apply Forall_app; split
                   | apply Forall_cons; split ]
         end;
  try done; simpl; auto.

(** The log records that mark a point of the control flow: the start
    and the failure of [enhance_image], the start of
    [reconstruct_video] and its two fall-backs to a video without
    audio. *)
Definition marker_texts : list string :=
  [ "Starting image enhancement: ";
    "Image enhancement failed: ";
    "Starting video reconstruction from: ";
    "Failed to add audio: ";
    "Error adding audio: " ].

(** A log record that is not a marker. *)
Definition is_note (ev : effect) : Prop :=
  match ev with
  | Log _ text _ => text ∉ marker_texts
  | _ => False
  end.

(** A note, or the call of the super-resolution model. *)
Definition is_inner (ev : effect) : Prop :=
  match ev with
  | Log _ text _ => text ∉ marker_texts
  | Call fn _ => fn = "upsampler.enhance"
  | _ => False
  end.

Lemma is_note_inner T : Forall is_note T -> Forall is_inner T.
Proof. intros H. eapply Forall_impl; [done|]. by intros []. Qed.

Lemma not_marker text :
  Forall (fun m => text <> m) marker_texts -> text ∉ marker_texts.
Proof.
  intros H Hin. rewrite Forall_forall in H. by apply (H text Hin).
Qed.

(** Closes the side conditions on single effects and on parts of a trace. *)
Ltac calm :=
  all_of;
  try (by apply is_note_inner);
  try (apply not_marker; repeat (apply Forall_cons; split);
       [simpl; discriminate .. | by apply Forall_nil]).

(** ** Computations that only read and log *)

(** [m] always returns [v], leaves the file system alone and emits
    log records only. *)
Definition reads_as {A} (m : M A) (v : A) : Prop :=
  forall s, exists T, m s = (Ok v, s, T) /\ Forall is_note T.

Lemma reads_as_ret {A} (v : A) : reads_as (ret v) v.
Proof. intros s. by exists []. Qed.

Lemma reads_as_bind {A B} (m : M A) (k : A -> M B) a b :
  reads_as m a -> reads_as (k a) b -> reads_as (bind m k) b.
Proof.
  intros Hm Hk s. destruct (Hm s) as (t1 & E1 & F1).
  destruct (Hk s) as (t2 & E2 & F2). exists (t1 ++ t2).
  unfold bind. rewrite E1, E2. split; [done|]. by apply Forall_app.
Qed.

(** The value of a heuristic: [False] when its body raises. *)
Definition verdict_of (r : result bool) : bool :=
  match r with
  | Ok b => b
  | Raise _ => false
  end.

Lemma guarded_reads_as (r : result bool) text :
  text ∉ marker_texts ->
  reads_as
    (try_except (lift r) (fun e => bind (emit (Log ERROR text (str_exn e))) (fun _ => ret false)))
    (verdict_of r).
Proof.
  intros Ht s. unfold try_except, lift, bind, emit, ret. destruct r as [b|e]; simpl.
  - by exists [].
  - eexists. split; [done|]. calm.
Qed.

Lemma is_blurry_reads E img : reads_as (is_blurry E img) (verdict_of (blur_body E img)).
Proof. apply guarded_reads_as. calm. Qed.

Lemma is_dark_reads E img : reads_as (is_dark E img) (verdict_of (dark_body E img)).
Proof. apply guarded_reads_as. calm. Qed.

Lemma is_pixelated_reads E img :
  reads_as (is_pixelated E img) (verdict_of (pixelated_body E img)).
Proof. apply guarded_reads_as. calm. Qed.

(** What [is_low_resolution] answers. *)
Definition low_res_of (img : image) (min_width min_height : Z) : bool :=
  match dims img with
  | Some (height, width) => (width <? min_width) || (height <? min_height)
  | None => false
  end.

Lemma is_low_resolution_reads img mw mh :
  reads_as (is_low_resolution img mw mh) (low_res_of img mw mh).
Proof.
  intros s. unfold is_low_resolution, low_res_of, try_except, bind, emit, ret, raise.
  destruct (dims img) as [[h w]|]; simpl.
  - by exists [].
  - eexists. split; [done|]. calm.
Qed.

(** What [get_quality_score] answers, the file name left empty. *)
Definition score_of (E : env) (img : image) : quality_score :=
  match shape img with
  | [_; _; _] =>
      QualityScore (verdict_of (blur_body E img)) (verdict_of (dark_body E img))
        (low_res_of img 1280 720) (verdict_of (pixelated_body E img)) ""
  | _ => default_score
  end.

Lemma get_quality_score_reads E img :
  reads_as (get_quality_score E img) (score_of E img).
Proof.
  intros s. unfold get_quality_score, score_of.
  destruct (shape img) as [|h [|w [|c [|x l]]]];
    try (unfold try_except, raise, bind, emit, ret; simpl; eexists; split;
         [done | calm]).
  destruct (is_blurry_reads E img s) as (t1 & E1 & F1).
  destruct (is_dark_reads E img s) as (t2 & E2 & F2).
  destruct (is_low_resolution_reads img 1280 720 s) as (t3 & E3 & F3).
  destruct (is_pixelated_reads E img s) as (t4 & E4 & F4).
  unfold try_except, bind, ret. rewrite E1, E2, E3, E4.
  eexists. split; [done|]. rewrite !Forall_app. by repeat split.
Qed.

(** What [cv2.imread] answers for a file of a directory. *)
Definition decoded (fs : fsys) (d name : string) : option image :=
  match dirs fs !! d with
  | Some files =>
      match files !! name with
      | Some (Decodes img) => Some img
      | _ => None
      end
  | None => None
  end.

Lemma imread_run d name s : imread d name s = (Ok (decoded s d name), s, []).
Proof. reflexivity. Qed.

(** The verdicts of the files that can be read, in the order of the names. *)
Definition analysis_of (E : env) (fs : fsys) (d : string) (names : list string)
  : list quality_score :=
  omap (fun name => (fun img => set_filename (score_of E img) name) <$> decoded fs d name)
       names.

Arguments analysis_of : simpl never.

Lemma analyze_frame_run E d file results s :
  exists T,
    analyze_frame E d file results s
    = (Ok (results ++ analysis_of E s d [file]), s, T) /\ Forall is_note T.
Proof.
  unfold analyze_frame, analysis_of, try_except, bind. rewrite imread_run. simpl.
  unfold ret. destruct (decoded s d file) as [img|]; simpl.
  - destruct (get_quality_score_reads E img s) as (t & Et & Ft). rewrite Et; simpl.
    eexists. split; [done|]. by rewrite app_nil_r.
  - rewrite app_nil_r. eexists. split; [done|]. calm.
Qed.

Lemma analyze_frames_run E d names : forall results s,
  exists T,
    analyze_frames E d names results s
    = (Ok (results ++ analysis_of E s d names), s, T) /\ Forall is_note T.
Proof.
  induction names as [|file rest IH]; intros results s; simpl.
  - exists []. by rewrite app_nil_r.
  - destruct (analyze_frame_run E d file results s) as (t1 & E1 & F1).
    destruct (IH (results ++ analysis_of E s d [file]) s) as (t2 & E2 & F2).
    exists (t1 ++ t2). unfold bind. rewrite E1, E2. split; [|by apply Forall_app].
    f_equal. f_equal. f_equal. rewrite <- app_assoc. f_equal.
    unfold analysis_of. simpl. by destruct (decoded s d file).
Qed.

(** The frame files [analyze_video] goes through. *)
Definition frame_files_of (files : gmap string jpg_file) : list string :=
  filter (fun f => endswith f ".jpg" = true) (sorted (listdir files)).

(** What [analyze_video] returns. *)
Definition analyze_outcome (E : env) (s : fsys) (frame_dir : string)
  : result (list quality_score) :=
  match dirs s !! frame_dir with
  | None => Raise (ValueError ("Frame directory does not exist: " +:+ frame_dir))
  | Some files =>
      match frame_files_of files with
      | [] => Raise (ValueError ("No frame files found in directory: " +:+ frame_dir))
      | names => Ok (analysis_of E s frame_dir names)
      end
  end.

Lemma log_summary_run results s :
  exists T, log_summary results s = (Ok tt, s, T) /\ Forall is_note T.
Proof.
  destruct results as [|q l]; [by exists []|].
  eexists. split; [reflexivity|]. calm.
Qed.

Lemma analyze_video_run E d s :
  exists T,
    analyze_video E d s = (analyze_outcome E s d, s, T) /\ Forall is_note T.
Proof.
  unfold analyze_video, analyze_outcome, frame_files_of, try_except, bind, get_fs.
  destruct (dirs s !! d) as [files|];
    [|eexists; split; [reflexivity | calm]].
  destruct (filter _ _) as [|n names] eqn:Hn;
    [eexists; split; [reflexivity | calm]|].
  destruct (analyze_frames_run E d (n :: names) [] s) as (t1 & E1 & F1).
  rewrite app_nil_l in E1.
  destruct (log_summary_run (analysis_of E s d (n :: names)) s) as (t2 & E2 & F2).
  cbv beta iota. rewrite E1. cbv beta iota. rewrite E2. cbv beta iota.
  eexists. split; [reflexivity|]. all_of.
Qed.

(** ** Writing and enhancing an image *)

(** The file system once [file] is stored as [d/name]. *)
Definition stored (s : fsys) (d name : string) (file : jpg_file) : fsys :=
  match dirs s !! d with
  | Some files => Fsys (<[d := <[name := file]> files]> (dirs s)) (videos s)
  | None => s
  end.

(** Whether [cv2.imwrite] succeeds. *)
Definition can_write (E : env) (s : fsys) (d name : string) (img : image) : bool :=
  match dirs s !! d with
  | Some _ => imwrite_ok E (os_path_join d name) img
  | None => false
  end.

Lemma imwrite_run E d name img s :
  imwrite E d name img s
  = (Ok (can_write E s d name img),
     if can_write E s d name img then stored s d name (Decodes img) else s, []).
Proof.
  unfold imwrite, can_write, stored, bind, get_fs, put_fs, ret.
  destruct (dirs s !! d) as [files|]; [|done].
  by destruct (imwrite_ok E _ img).
Qed.

Definition start_enhancement (image_path output_path : string * string) : effect :=
  Log INFO "Starting image enhancement: "
    (path_str image_path +:+ " -> " +:+ path_str output_path).

(** Whether [enhance_image] runs the model on [img]. *)
Definition needs_model (E : env) (img : image) : bool :=
  low_res_of img 1280 720 || verdict_of (pixelated_body E img).

Arguments is_low_resolution : simpl never.
Arguments is_pixelated : simpl never.
Arguments imwrite : simpl never.
Arguments imread : simpl never.

Lemma enhance_image_run E ip op s r s' T :
  enhance_image E ip op s = (r, s', T) ->
  exists T0,
    match r with
    | Ok b =>
        T = start_enhancement ip op :: T0 /\
        exists img, decoded s ip.1 ip.2 = Some img /\ b = needs_model E img /\
          if b then
            exists output, upsample E img = Ok output /\
              s' = stored s op.1 op.2 (Decodes (clip_uint8 output)) /\
              can_write E s op.1 op.2 (clip_uint8 output) = true /\
              Forall is_inner T0
          else
            s' = stored s op.1 op.2 (Decodes img) /\
            can_write E s op.1 op.2 img = true /\
            Forall is_note T0
    | Raise e =>
        T = start_enhancement ip op :: T0
              ++ [Log ERROR "Image enhancement failed: " (str_exn e)] /\
        s' = s /\ Forall is_inner T0
    end.
Proof.
  unfold enhance_image, bind, try_except, emit. rewrite imread_run.
  destruct (decoded s ip.1 ip.2) as [img|] eqn:Himg.
  2:{ unfold raise. intros [= <- <- <-]. exists []. simpl. by repeat split. }
  destruct (is_low_resolution_reads img 1280 720 s) as (t1 & E1 & F1).
  destruct (is_pixelated_reads E img s) as (t2 & E2 & F2).
  rewrite E1. cbv beta iota. rewrite E2. cbv beta iota.
  destruct (low_res_of img 1280 720 || verdict_of (pixelated_body E img)) eqn:Hneed;
    cbn [negb]; cbv beta iota.
  - unfold lift, raise, ret. destruct (model_init E) as [[]|e].
    2:{ intros [= <- <- <-]. eexists. split; [simpl; reflexivity|]. split; [done|].
        calm. }
    destruct (upsample E img) as [output|e] eqn:Hup.
    2:{ intros [= <- <- <-]. eexists. split; [simpl; reflexivity|]. split; [done|].
        calm. }
    rewrite imwrite_run. destruct (can_write E s op.1 op.2 (clip_uint8 output)) eqn:Hw.
    + intros [= <- <- <-]. eexists. split; [simpl; reflexivity|].
      exists img. split; [done|]. unfold needs_model. rewrite Hneed. split; [done|].
      exists output. repeat split; try done. calm.
    + intros [= <- <- <-]. eexists. split; [simpl; reflexivity|]. split; [done|].
      calm.
  - rewrite imwrite_run. unfold raise, ret.
    destruct (can_write E s op.1 op.2 img) eqn:Hw; cbn [negb]; cbv beta iota.
    + intros [= <- <- <-]. eexists. split; [simpl; reflexivity|].
      exists img. split; [done|]. unfold needs_model. rewrite Hneed. split; [done|].
      repeat split; try done. calm.
    + intros [= <- <- <-]. eexists. split; [simpl; reflexivity|]. split; [done|].
      calm.
Qed.

(** ** Reporting progress *)

(** The callback [run_pipeline_task] passes, when a channel is given. *)
Definition cb_of (ch : option string) : option progress_callback_t :=
  publish_progress_to_redis <$> ch.

(** The dictionary [update_progress] builds. *)
Definition update_data_of (step message : string) (progress_percent : option Q)
    (meta : gmap string value) : gmap string value :=
  meta ∪ {[ "step" := VStr step;
            "message" := VStr message;
            "progress_percent" := match progress_percent with
                                  | Some q => VNum q
                                  | None => VNone
                                  end ]}.

(** The effects of one progress report. *)
Definition reports (task : bool) (ch : option string) (d : gmap string value)
  : list effect :=
  (if task then [UpdateState "PROGRESS" d] else [])
  ++ match ch with
     | Some c => [Publish ("task_updates:" +:+ c) d]
     | None => []
     end.

Lemma update_progress_run task ch step message pp meta s :
  update_progress task (cb_of ch) step message pp meta s
  = (Ok tt, s, reports task ch (update_data_of step message pp meta)).
Proof.
  unfold update_progress, reports, update_data_of, bind, when, emit, ret.
  by destruct task, ch.
Qed.

Arguments update_progress : simpl never.

(** ** Copying a frame *)

Definition copy_call (name : string) : effect :=
  Call "shutil.copy" [os_path_join frames_d name; os_path_join enhanced_d name].

(** The file [shutil.copy] finds, when both directories exist. *)
Definition copy_source (s : fsys) (name : string) : option jpg_file :=
  match dirs s !! frames_d, dirs s !! enhanced_d with
  | Some src, Some _ => src !! name
  | _, _ => None
  end.

Lemma shutil_copy_run s name :
  shutil_copy frames_d enhanced_d name s
  = match copy_source s name with
    | Some f => (Ok tt, stored s enhanced_d name f, [copy_call name])
    | None => (Raise (FileNotFoundError (os_path_join frames_d name)), s, [copy_call name])
    end.
Proof.
  unfold shutil_copy, copy_source, stored, copy_call, bind, emit, get_fs, put_fs, raise.
  destruct (dirs s !! frames_d) as [src|]; [|done].
  destruct (dirs s !! enhanced_d) as [dst|]; [|done].
  by destruct (src !! name).
Qed.

Arguments shutil_copy : simpl never.

(** ** One frame of the enhancement loop *)

(** The routing test of the loop. *)
Definition routed (result : quality_score) : bool := blurry result || dark result.

(** The per-frame report of the loop. *)
Definition frame_report (total i : Z) (result : quality_score)
    (enhanced_count copied_count : Z) : gmap string value :=
  update_data_of "ENHANCE"
    ("Enhancing frame " +:+ str_int (i + 1) +:+ "/" +:+ str_int total +:+ ": "
       +:+ filename result)
    (Some (frame_progress i total))
    {[ "current_frame" := VInt (i + 1);
       "total_frames" := VInt total;
       "enhanced_count" := VInt enhanced_count;
       "copied_count" := VInt copied_count ]}.

Definition frame_in (result : quality_score) : string * string :=
  (frames_d, filename result).
Definition frame_out (result : quality_score) : string * string :=
  (enhanced_d, filename result).

Lemma process_frame_run E task ch total i result e c s r s' T :
  process_frame E task (cb_of ch) total i result e c s = (r, s', T) ->
  if routed result then
    exists T0 T1,
      T = reports task ch (frame_report total i result e c)
            ++ start_enhancement (frame_in result) (frame_out result) :: T0 ++ T1 /\
      Forall is_inner T0 /\
      match r with
      | Ok counts =>
          counts = (e + 1, c) /\ T1 = [] /\
          exists b,
            enhance_image E (frame_in result) (frame_out result) s
            = (Ok b, s', start_enhancement (frame_in result) (frame_out result) :: T0)
      | Raise ex =>
          T1 = [Log ERROR "Image enhancement failed: " (str_exn ex)] /\ s' = s
      end
  else
    T = [copy_call (filename result)] /\
    match r with
    | Ok counts =>
        counts = (e, c + 1) /\
        exists f, copy_source s (filename result) = Some f /\
                  s' = stored s enhanced_d (filename result) f
    | Raise ex => copy_source s (filename result) = None /\ s' = s
    end.
Proof.
  unfold process_frame. fold (routed result). fold (frame_in result) (frame_out result).
  destruct (routed result).
  - unfold bind. rewrite update_progress_run. fold (frame_report total i result e c).
    destruct (enhance_image E (frame_in result) (frame_out result) s)
      as [[[b|ex] s1] t1] eqn:He; intros [= <- <- <-];
      destruct (enhance_image_run _ _ _ _ _ _ _ He) as (T0 & HT0).
    + destruct HT0 as (-> & img & Himg & Hb & Hrest).
      exists T0, []. rewrite !app_nil_r. split; [done|]. split.
      * destruct b; [by destruct Hrest as (? & ? & ? & ? & ?)|].
        apply is_note_inner. by destruct Hrest as (? & ? & ?).
      * repeat split. by exists b.
    + destruct HT0 as (-> & -> & HF).
      exists T0, [Log ERROR "Image enhancement failed: " (str_exn ex)].
      by repeat split.
  - unfold bind. rewrite shutil_copy_run.
    destruct (copy_source s (filename result)) as [f|] eqn:Hf; intros [= <- <- <-].
    + split; [done|]. split; [done|]. by exists f.
    + by repeat split.
Qed.

(** ** Views of a trace *)

(** The dictionaries sent to the broadcast channel. *)
Definition published_of (ev : effect) : option (gmap string value) :=
  match ev with
  | Publish _ d => Some d
  | _ => None
  end.
Definition published (T : list effect) : list (gmap string value) :=
  omap published_of T.

(** The states recorded on the task, with their dictionaries. *)
Definition update_of (ev : effect) : option (string * gmap string value) :=
  match ev with
  | UpdateState st d => Some (st, d)
  | _ => None
  end.
Definition updates (T : list effect) : list (string * gmap string value) :=
  omap update_of T.

(** What was done with a frame: [enhance_image] was entered, or the
    file was copied. *)
Inductive action :=
| EnhanceImage (paths : string)
| CopyFile (paths : list string).

Definition action_of (ev : effect) : option action :=
  match ev with
  | Log _ text arg =>
      if decide (text = "Starting image enhancement: ") then Some (EnhanceImage arg)
      else None
  | Call fn args =>
      if decide (fn = "shutil.copy") then Some (CopyFile args) else None
  | _ => None
  end.
Definition actions (T : list effect) : list action := omap action_of T.

Lemma omap_nil_Forall {A B} (f : A -> option B) (l : list A) :
  Forall (fun x => f x = None) l -> omap f l = [].
Proof. induction 1 as [|x l Hx _ IH]; simpl; [done|]. by rewrite Hx. Qed.

Lemma inner_unpublished ev : is_inner ev -> published_of ev = None.
Proof. by destruct ev. Qed.

Lemma inner_no_update ev : is_inner ev -> update_of ev = None.
Proof. by destruct ev. Qed.

Lemma inner_no_action ev : is_inner ev -> action_of ev = None.
Proof.
  destruct ev as [| |lvl text arg|fn args]; try done; simpl; intros H.
  - case_decide; [|done]. subst. exfalso. apply H. set_solver.
  - subst. by case_decide.
Qed.

Lemma inner_view {B} (f : effect -> option B) T :
  (forall ev, is_inner ev -> f ev = None) -> Forall is_inner T -> omap f T = [].
Proof.
  intros Hf HT. apply omap_nil_Forall. eapply Forall_impl; [done|]. apply Hf.
Qed.

(** ** The enhancement loop *)

Lemma count_if_nil {A} (p : A -> bool) : count_if p [] = 0.
Proof. reflexivity. Qed.

Lemma count_if_cons {A} (p : A -> bool) x l :
  count_if p (x :: l) = (if p x then 1 else 0) + count_if p l.
Proof.
  unfold count_if. rewrite filter_cons. destruct (p x).
  - rewrite decide_True by done. simpl length. lia.
  - rewrite decide_False by done. lia.
Qed.

Lemma count_if_nonneg {A} (p : A -> bool) l : 0 <= count_if p l.
Proof. unfold count_if. lia. Qed.

Section loop.
Context (E : env) (task : bool) (ch : option string) (total : Z).

(** Induction on the runs of the loop: it ends, or the body returns
    and the loop goes on, or the body raises. *)
Lemma enhance_frames_runs
    (P : Z -> Z -> Z -> list quality_score -> fsys ->
         result (Z * Z) -> fsys -> list effect -> Prop) :
  (forall i e c s, P i e c [] s (Ok (e, c)) s []) ->
  (forall i e c result rest s counts s1 t1 r s' t2,
      process_frame E task (cb_of ch) total i result e c s = (Ok counts, s1, t1) ->
      enhance_frames E task (cb_of ch) total rest (i + 1) counts.1 counts.2 s1
      = (r, s', t2) ->
      P (i + 1) counts.1 counts.2 rest s1 r s' t2 ->
      P i e c (result :: rest) s r s' (t1 ++ t2)) ->
  (forall i e c result rest s ex s1 t1,
      process_frame E task (cb_of ch) total i result e c s = (Raise ex, s1, t1) ->
      P i e c (result :: rest) s (Raise ex) s1 t1) ->
  forall rest i e c s r s' T,
    enhance_frames E task (cb_of ch) total rest i e c s = (r, s', T) ->
    P i e c rest s r s' T.
Proof.
  intros Hnil Hok Hfail. induction rest as [|result rest IH]; intros i e c s r s' T.
  - intros [= <- <- <-]. apply Hnil.
  - cbn [enhance_frames]. intros H. step H.
    + eapply Hok; eauto.
    + by eapply Hfail.
Qed.

(** On return the counters have grown by the numbers of routed and of
    other frames. *)
Lemma enhance_frames_counts rest i e c s counts s' T :
  enhance_frames E task (cb_of ch) total rest i e c s = (Ok counts, s', T) ->
  counts = (e + count_if routed rest, c + count_if (fun r => negb (routed r)) rest).
Proof.
  remember (Ok counts) as r eqn:Hr. intros H. revert counts Hr.
  eapply (enhance_frames_runs
    (fun i e c rest s r s' T => forall counts, r = Ok counts ->
       counts = (e + count_if routed rest,
                 c + count_if (fun r => negb (routed r)) rest))); [| | |exact H].
  - intros ? e0 c0 ? counts [= <-]. rewrite !count_if_nil. f_equal; lia.
  - intros i0 e0 c0 result rest0 s0 cs s1 t1 r0 s0' t2 Hb _ IH counts ->.
    rewrite (IH counts eq_refl). apply process_frame_run in Hb.
    rewrite !count_if_cons. destruct (routed result).
    + destruct Hb as (T0 & T1 & _ & _ & -> & _). simpl. f_equal; lia.
    + destruct Hb as (_ & -> & _). simpl. f_equal; lia.
  - intros; done.
Qed.

(** What the loop does with a frame. *)
Definition frame_action (result : quality_score) : action :=
  if routed result
  then EnhanceImage (path_str (frame_in result) +:+ " -> " +:+ path_str (frame_out result))
  else CopyFile [os_path_join frames_d (filename result);
                 os_path_join enhanced_d (filename result)].

Lemma reports_no_action d : actions (reports task ch d) = [].
Proof. unfold reports. by destruct task, ch. Qed.

Lemma process_frame_actions i result e c s r s' T :
  process_frame E task (cb_of ch) total i result e c s = (r, s', T) ->
  actions T = [frame_action result].
Proof.
  intros H. apply process_frame_run in H. unfold frame_action.
  destruct (routed result).
  - destruct H as (T0 & T1 & -> & HT0 & H). unfold actions.
    rewrite omap_app. fold (actions (reports task ch (frame_report total i result e c))).
    rewrite reports_no_action. simpl. rewrite omap_app.
    rewrite (inner_view action_of T0 inner_no_action HT0).
    destruct r as [counts|ex].
    + by destruct H as (_ & -> & _).
    + by destruct H as (-> & _).
  - by destruct H as (-> & _).
Qed.

(** The loop goes through the frames in order; each frame it reaches
    is enhanced or copied according to the routing test. *)
Lemma enhance_frames_actions rest i e c s r s' T :
  enhance_frames E task (cb_of ch) total rest i e c s = (r, s', T) ->
  exists k : nat,
    (k <= length rest)%nat /\
    (forall counts, r = Ok counts -> k = length rest) /\
    actions T = frame_action <$> take k rest.
Proof.
  apply (enhance_frames_runs
    (fun i e c rest s r s' T => exists k : nat,
       (k <= length rest)%nat /\
       (forall counts, r = Ok counts -> k = length rest) /\
       actions T = frame_action <$> take k rest)).
  - intros. exists 0%nat. by repeat split.
  - intros i0 e0 c0 result rest0 s0 cs s1 t1 r0 s0' t2 Hb _ (k & Hk & Hok & Ha).
    exists (S k). split; [simpl; lia|]. split.
    + intros counts Hc. simpl. f_equal. by eapply Hok.
    + unfold actions in *. rewrite omap_app, Ha.
      fold (actions t1). by rewrite (process_frame_actions _ _ _ _ _ _ _ _ Hb).
  - intros i0 e0 c0 result rest0 s0 ex s1 t1 Hb.
    exists 1%nat. split; [simpl; lia|]. split; [done|].
    by rewrite (process_frame_actions _ _ _ _ _ _ _ _ Hb), firstn_cons, take_0.
Qed.

(** [enumerate(results)], counting from [i]. *)
Definition enumerate_from (i : Z) (l : list quality_score) : list (Z * quality_score) :=
  imap (fun j result => (i + Z.of_nat j, result)) l.

Lemma enumerate_from_cons i result l :
  enumerate_from i (result :: l) = (i, result) :: enumerate_from (i + 1) l.
Proof.
  unfold enumerate_from. rewrite imap_cons. f_equal; [f_equal; lia|].
  apply imap_ext. intros j x _. simpl. f_equal. lia.
Qed.

(** The part of a progress report that tells the frame and the percent. *)
Definition tick (d : gmap string value) : option value * option value :=
  (d !! "current_frame", d !! "progress_percent").

(** The tick of the frame of index [j], if the frame is routed to
    enhancement. *)
Definition frame_tick (jr : Z * quality_score) : option (option value * option value) :=
  if routed jr.2
  then Some (Some (VInt (jr.1 + 1)), Some (VNum (frame_progress jr.1 total)))
  else None.

Lemma tick_frame_report i result e c :
  tick (frame_report total i result e c)
  = (Some (VInt (i + 1)), Some (VNum (frame_progress i total))).
Proof. reflexivity. Qed.

Lemma process_frame_published i result e c s r s' T :
  process_frame E task (cb_of ch) total i result e c s = (r, s', T) ->
  tick <$> published T
  = match ch with
    | Some _ => option_list (frame_tick (i, result))
    | None => []
    end.
Proof.
  intros H. apply process_frame_run in H. unfold frame_tick. simpl.
  destruct (routed result).
  - destruct H as (T0 & T1 & -> & HT0 & H). unfold published.
    rewrite omap_app. simpl. rewrite omap_app.
    rewrite (inner_view published_of T0 inner_unpublished HT0).
    assert (omap published_of T1 = []) as ->.
    { destruct r; [by destruct H as (_ & -> & _) | by destruct H as (-> & _)]. }
    unfold reports. destruct task, ch; by rewrite ?app_nil_r.
  - destruct H as (-> & _). by destruct ch.
Qed.

Lemma process_frame_updates i result e c s r s' T :
  process_frame E task (cb_of ch) total i result e c s = (r, s', T) ->
  (fun u => (u.1, tick u.2)) <$> updates T
  = if task then (fun t => ("PROGRESS", t)) <$> option_list (frame_tick (i, result))
    else [].
Proof.
  intros H. apply process_frame_run in H. unfold frame_tick. simpl.
  destruct (routed result).
  - destruct H as (T0 & T1 & -> & HT0 & H). unfold updates.
    rewrite omap_app. simpl. rewrite omap_app.
    rewrite (inner_view update_of T0 inner_no_update HT0).
    assert (omap update_of T1 = []) as ->.
    { destruct r; [by destruct H as (_ & -> & _) | by destruct H as (-> & _)]. }
    unfold reports. destruct task, ch; by rewrite ?app_nil_r.
  - destruct H as (-> & _). by destruct task.
Qed.

(** The progress reports of the loop: one for each routed frame it
    reaches, none for the others. *)
Lemma enhance_frames_reports rest i e c s r s' T :
  enhance_frames E task (cb_of ch) total rest i e c s = (r, s', T) ->
  exists k : nat,
    (k <= length rest)%nat /\
    (forall counts, r = Ok counts -> k = length rest) /\
    tick <$> published T
    = match ch with
      | Some _ => omap frame_tick (enumerate_from i (take k rest))
      | None => []
      end /\
    (fun u => (u.1, tick u.2)) <$> updates T
    = if task
      then (fun t => ("PROGRESS", t)) <$> omap frame_tick (enumerate_from i (take k rest))
      else [].
Proof.
  apply (enhance_frames_runs
    (fun i e c rest s r s' T => exists k : nat,
       (k <= length rest)%nat /\
       (forall counts, r = Ok counts -> k = length rest) /\
       tick <$> published T
       = match ch with
         | Some _ => omap frame_tick (enumerate_from i (take k rest))
         | None => []
         end /\
       (fun u => (u.1, tick u.2)) <$> updates T
       = if task
         then (fun t => ("PROGRESS", t)) <$> omap frame_tick (enumerate_from i (take k rest))
         else [])).
  - intros. exists 0%nat. split; [done|]. split; [done|].
    split; [by destruct ch | by destruct task].
  - intros i0 e0 c0 result rest0 s0 cs s1 t1 r0 s0' t2 Hb _ (k & Hk & Hok & Hp & Hu).
    exists (S k). split; [simpl; lia|]. split.
    { intros counts Hc. simpl. f_equal. by eapply Hok. }
    rewrite firstn_cons, enumerate_from_cons. unfold published, updates in *.
    rewrite !omap_app, !fmap_app, Hp, Hu.
    fold (published t1) (updates t1).
    rewrite (process_frame_published _ _ _ _ _ _ _ _ Hb).
    rewrite (process_frame_updates _ _ _ _ _ _ _ _ Hb).
    split; [destruct ch | destruct task]; try done;
      simpl; by destruct (frame_tick (i0, result)).
  - intros i0 e0 c0 result rest0 s0 ex s1 t1 Hb.
    exists 1%nat. split; [simpl; lia|]. split; [done|].
    rewrite firstn_cons, take_0, enumerate_from_cons.
    rewrite (process_frame_published _ _ _ _ _ _ _ _ Hb).
    rewrite (process_frame_updates _ _ _ _ _ _ _ _ Hb).
    split; [destruct ch | destruct task]; try done;
      simpl; by destruct (frame_tick (i0, result)).
Qed.

End loop.

(** ** Extraction *)

Lemma imwrite_emits P E d name img : emits_only P (imwrite E d name img).
Proof. intros s. rewrite imwrite_run. constructor. Qed.

Lemma imread_emits P d name : emits_only P (imread d name).
Proof. intros s. rewrite imread_run. constructor. Qed.

Lemma makedirs_emits P d : emits_only P (makedirs d).
Proof.
  intros s. unfold makedirs, bind, get_fs, put_fs, ret, emitted.
  destruct (dirs s !! d); simpl; constructor.
Qed.

#[export] Hint Resolve imwrite_emits imread_emits makedirs_emits : emits.

Ltac note := simpl; apply not_marker; repeat (apply Forall_cons; split);
             [simpl; discriminate .. | by apply Forall_nil].

Lemma extract_loop_notes E d all fps reads :
  forall saved, emits_only is_note (extract_loop E d all fps reads saved).
Proof.
  induction reads as [|[frame|] rest IH]; intros saved; cbn [extract_loop];
    [auto with emits | | auto with emits].
  destruct all.
  - apply emits_only_bind; [auto with emits|]. intros [].
    + apply IH.
    + apply emits_only_bind; [|intros; apply IH]. apply emits_only_emit. note.
  - destruct (_ =? 0); [auto with emits|].
    destruct (_ =? 0); [|apply IH].
    apply emits_only_bind; [auto with emits|]. intros [].
    + apply IH.
    + apply emits_only_bind; [|intros; apply IH]. apply emits_only_emit. note.
Qed.

Lemma extract_frames_notes E video_path d all :
  emits_only is_note (extract_frames E video_path d all).
Proof.
  unfold extract_frames.
  apply emits_only_bind; [apply emits_only_emit; note|]. intros _.
  apply emits_only_bind; [auto with emits|]. intros _.
  destruct (capture E video_path).
  - apply emits_only_try; [apply extract_loop_notes|]. intros e.
    apply emits_only_bind; [apply emits_only_emit; note | auto with emits].
  - apply emits_only_bind; [apply emits_only_emit; note | auto with emits].
Qed.

(** The frames the capture hands out before its first failed read. *)
Fixpoint readable (reads : list (option image)) : list image :=
  match reads with
  | Some frame :: rest => frame :: readable rest
  | _ => []
  end.

Lemma stored_dir s d name file d' :
  is_Some (dirs s !! d') -> is_Some (dirs (stored s d name file) !! d').
Proof.
  unfold stored. destruct (dirs s !! d) as [files|] eqn:Hd; [|done]. simpl.
  intros H. destruct (decide (d = d')) as [->|Hne].
  - rewrite lookup_insert_eq. by eexists.
  - by rewrite lookup_insert_ne.
Qed.

(** With [extract_all_frames] the loop never raises: it returns the
    number of frames it could save, among those read before the first
    failed read. *)
Lemma extract_loop_all_run E d fps reads : forall saved s,
  is_Some (dirs s !! d) ->
  exists n s' T,
    extract_loop E d true fps reads saved s = (Ok n, s', T) /\
    saved <= n <= saved + Z.of_nat (length (readable reads)) /\
    ((forall p img, imwrite_ok E p img = true) ->
     n = saved + Z.of_nat (length (readable reads))).
Proof.
  induction reads as [|[frame|] rest IH]; intros saved s Hd; cbn [extract_loop readable].
  - exists saved, s, []. simpl. repeat split; lia.
  - unfold bind. rewrite imwrite_run. unfold can_write.
    destruct Hd as [files Hd]. rewrite Hd.
    destruct (imwrite_ok E (os_path_join d (frame_name saved)) frame) eqn:Hw.
    + destruct (IH (saved + 1) (stored s d (frame_name saved) (Decodes frame)))
        as (n & s' & T & Hrun & Hn & Hall).
      { apply stored_dir. by rewrite Hd. }
      rewrite Hrun. exists n, s', ([] ++ T). split; [done|].
      simpl length. split; [lia|]. intros Hok. specialize (Hall Hok). lia.
    + destruct (IH saved s) as (n & s' & T & Hrun & Hn & Hall); [by rewrite Hd|].
      unfold emit. rewrite Hrun. eexists n, s', _. split; [done|].
      simpl length. split; [lia|]. intros Hok. by rewrite Hok in Hw.
  - exists saved, s, []. simpl. repeat split; lia.
Qed.

Lemma makedirs_run d s :
  exists s', makedirs d s = (Ok tt, s', []) /\ is_Some (dirs s' !! d) /\
             videos s' = videos s /\
             (forall d', is_Some (dirs s !! d') -> dirs s' !! d' = dirs s !! d').
Proof.
  unfold makedirs, bind, get_fs, put_fs, ret.
  destruct (dirs s !! d) as [files|] eqn:Hd.
  - exists s. rewrite Hd. by repeat split.
  - eexists. split; [done|]. simpl. rewrite lookup_insert_eq.
    repeat split; [by eexists|]. intros d' [f Hf].
    rewrite lookup_insert_ne; [done|]. intros ->. by rewrite Hd in Hf.
Qed.

Lemma extract_frames_unopened E video_path d all s :
  capture E video_path = None ->
  outcome (extract_frames E video_path d all s)
  = Raise (ValueError ("Failed to open video file: " +:+ video_path)).
Proof.
  intros Hc. unfold extract_frames, bind, emit. rewrite Hc.
  destruct (makedirs_run d s) as (s1 & -> & _). reflexivity.
Qed.

Lemma extract_frames_opened E video_path d s cap :
  capture E video_path = Some cap ->
  exists n,
    outcome (extract_frames E video_path d true s) = Ok n /\
    0 <= n <= Z.of_nat (length (readable (cap_reads cap))) /\
    ((forall p img, imwrite_ok E p img = true) ->
     n = Z.of_nat (length (readable (cap_reads cap)))).
Proof.
  intros Hc. unfold extract_frames, bind, emit, try_except. rewrite Hc.
  destruct (makedirs_run d s) as (s1 & -> & Hd & _).
  destruct (extract_loop_all_run E d (cap_fps cap) (cap_reads cap) 0 s1 Hd)
    as (n & s' & T & -> & Hn & Hall).
  exists n. split; [done|]. split; [lia|]. intros Hok. rewrite (Hall Hok). lia.
Qed.

(** ** Reconstruction *)

Arguments decoded : simpl never.

Lemma write_frames_run d frames : forall written s,
  exists T,
    write_frames d frames written s
    = (Ok (written ++ omap (decoded s d) frames), s, T) /\ Forall is_note T.
Proof.
  induction frames as [|f rest IH]; intros written s;
    cbn [write_frames omap list_omap].
  - exists []. by rewrite app_nil_r.
  - unfold bind. rewrite imread_run. destruct (decoded s d f) as [img|].
    + destruct (IH (written ++ [img]) s) as (T & -> & HT). exists ([] ++ T).
      split; [|done]. by rewrite <- app_assoc.
    + unfold emit. destruct (IH written s) as (T & -> & HT).
      eexists. split; [done|]. calm.
Qed.

(** How the audio step ended. *)
Inductive audio_outcome :=
| NoOriginal
| Muxed
| MuxFailed (stderr : string)
| MuxRaised (ex : exn).

Definition audio_of (E : env) (temp_video_path : string)
    (original_video_path : option string) (output_path : string) : audio_outcome :=
  if has_original E original_video_path then
    match subprocess_run E (ffmpeg_cmd temp_video_path (default "" original_video_path)
                              output_path) with
    | Ok result => if result.1 =? 0 then Muxed else MuxFailed result.2
    | Raise ex => MuxRaised ex
    end
  else NoOriginal.

Definition audio_trace (cmd : list string) (o : audio_outcome) : list effect :=
  match o with
  | NoOriginal => []
  | Muxed => [Call "subprocess.run" cmd]
  | MuxFailed stderr =>
      [Call "subprocess.run" cmd; Log WARNING "Failed to add audio: " stderr]
  | MuxRaised ex =>
      [Call "subprocess.run" cmd; Log WARNING "Error adding audio: " (str_exn ex)]
  end.

(** The video files once the frames are written and the audio step is over. *)
Definition videos_after (vs : gmap string video_file) (temp output : string)
    (written : list image) (o : audio_outcome) : gmap string video_file :=
  let vs1 := <[temp := Video written false]> vs in
  match o with
  | Muxed => delete temp (<[output := Video written true]> vs1)
  | _ => <[output := Video written false]> (delete temp vs1)
  end.

Lemma os_rename_run s src dst v :
  videos s !! src = Some v ->
  os_rename src dst s = (Ok tt, Fsys (dirs s) (<[dst := v]> (delete src (videos s))), []).
Proof. intros H. unfold os_rename, bind, get_fs, put_fs. by rewrite H. Qed.

Lemma add_audio_run E temp original output written s :
  has_original E original = true ->
  videos s !! temp = Some (Video written false) ->
  add_audio E temp (default "" original) output written s
  = (Ok tt,
     Fsys (dirs s)
       (match audio_of E temp original output with
        | Muxed => delete temp (<[output := Video written true]> (videos s))
        | _ => <[output := Video written false]> (delete temp (videos s))
        end),
     audio_trace (ffmpeg_cmd temp (default "" original) output)
       (audio_of E temp original output)).
Proof.
  intros Hex Ht. unfold add_audio, audio_of, try_except, bind, emit, lift. rewrite Hex.
  destruct (subprocess_run E _) as [[rc err]|ex]; simpl.
  - destruct (rc =? 0).
    + unfold get_fs, put_fs, os_remove, bind, get_fs, put_fs. simpl.
      destruct (decide (output = temp)) as [->|Hne].
      * by rewrite lookup_insert_eq.
      * by rewrite lookup_insert_ne, Ht.
    + unfold emit. by rewrite (os_rename_run _ _ _ _ Ht).
  - by rewrite (os_rename_run _ _ _ _ Ht).
Qed.

(** The frame files [reconstruct_video] goes through. *)
Definition rec_frames (files : gmap string jpg_file) : list string :=
  sorted (filter (fun f => endswith f ".jpg" = true) (listdir files)).

(** What frame writing needs: frame files, a first frame that can be
    read, a writer that opens. *)
Definition can_reconstruct (E : env) (s : fsys) (frame_dir output_path : string) : Prop :=
  exists files first rest first_frame height width channels,
    dirs s !! frame_dir = Some files /\
    rec_frames files = first :: rest /\
    decoded s frame_dir first = Some first_frame /\
    shape first_frame = [height; width; channels] /\
    writer_opens E (replace_mp4 output_path) = true.

Definition rec_start (frame_dir : string) : effect :=
  Log INFO "Starting video reconstruction from: " frame_dir.

Lemma reconstruct_video_run E frame_dir output_path original fps s r s' T :
  reconstruct_video E frame_dir output_path original fps s = (r, s', T) ->
  exists T0, Forall is_note T0 /\
    match r with
    | Raise ex =>
        T = rec_start frame_dir :: T0
              ++ [Log ERROR "Video reconstruction failed: " (str_exn ex)] /\
        s' = s /\ ~ can_reconstruct E s frame_dir output_path
    | Ok p =>
        p = output_path /\ can_reconstruct E s frame_dir output_path /\
        exists files,
          dirs s !! frame_dir = Some files /\
          let temp := replace_mp4 output_path in
          let o := audio_of E temp original output_path in
          let written := omap (decoded s frame_dir) (rec_frames files) in
          T = rec_start frame_dir :: T0
                ++ audio_trace (ffmpeg_cmd temp (default "" original) output_path) o /\
          s' = Fsys (dirs s) (videos_after (videos s) temp output_path written o)
    end.
Proof.
  unfold reconstruct_video, bind, try_except, emit, get_fs, raise, ret.
  fold (rec_start frame_dir).
  destruct (dirs s !! frame_dir) as [files|] eqn:Hd.
  2:{ simpl. intros [= <- <- <-]. exists []. split; [done|]. simpl. split; [done|].
      split; [done|]. intros (? & ? & ? & ? & ? & ? & ? & ? & _). congruence. }
  fold (rec_frames files). destruct (rec_frames files) as [|first rest] eqn:Hfr.
  { simpl. intros [= <- <- <-]. eexists [_]. split; last first.
    { split; [reflexivity|]. split; [done|].
      intros (? & ? & ? & ? & ? & ? & ? & ? & ? & _). congruence. }
    calm. }
  rewrite imread_run. destruct (decoded s frame_dir first) as [ff|] eqn:Hff.
  2:{ simpl. intros [= <- <- <-]. eexists [_]. split; last first.
      { split; [reflexivity|]. split; [done|].
        intros (? & ? & ? & ? & ? & ? & ? & ? & ? & ? & _). congruence. }
      calm. }
  assert (forall ex, ~ (exists h w c, shape ff = [h; w; c]) ->
    exists T0, Forall is_note T0 /\
      rec_start frame_dir :: [] ++ [] ++ []
        ++ [Log ERROR "Video reconstruction failed: " (str_exn ex)]
      = rec_start frame_dir :: T0
          ++ [Log ERROR "Video reconstruction failed: " (str_exn ex)] /\
      s = s /\ ~ can_reconstruct E s frame_dir output_path) as Hshape.
  { intros ex Hno. exists []. split; [done|]. split; [done|]. split; [done|].
    intros (? & ? & ? & ? & h & w & c & ? & ? & ? & ? & _).
    apply Hno. exists h, w, c. congruence. }
  destruct (shape ff) as [|h [|w [|c [|x l]]]] eqn:Hsh;
    try (simpl; intros [= <- <- <-];
         apply (Hshape (ValueError "wrong number of values to unpack (expected 3)"));
         intros (? & ? & ? & [=])).
  clear Hshape.
  destruct (writer_opens E (replace_mp4 output_path)) eqn:Hw; cbn [negb]; cbv beta iota.
  2:{ simpl. intros [= <- <- <-]. eexists [_]. split; last first.
      { split; [reflexivity|]. split; [done|].
        intros (? & ? & ? & ? & ? & ? & ? & ? & ? & ? & ? & ?). congruence. }
      calm. }
  destruct (write_frames_run frame_dir (first :: rest) [] s) as (Tw & Ew & Fw).
  rewrite Ew. cbv beta iota. unfold put_fs. rewrite app_nil_l.
  set (written := omap (decoded s frame_dir) (first :: rest)).
  set (temp := replace_mp4 output_path).
  set (s1 := Fsys (dirs s) (<[temp := Video written false]> (videos s))).
  assert (videos s1 !! temp = Some (Video written false)) as Htemp
    by apply lookup_insert_eq.
  assert (can_reconstruct E s frame_dir output_path) as Hcan.
  { exists files, first, rest, ff, h, w, c. by repeat split. }
  assert (exists s2 Ta,
    (if has_original E original
     then add_audio E temp (default "" original) output_path written
     else os_rename temp output_path) s1 = (Ok tt, s2, Ta) /\
    Ta = audio_trace (ffmpeg_cmd temp (default "" original) output_path)
           (audio_of E temp original output_path) /\
    s2 = Fsys (dirs s)
           (videos_after (videos s) temp output_path written
              (audio_of E temp original output_path))) as (s2 & Ta & Ea & -> & ->).
  { unfold videos_after. destruct (has_original E original) eqn:Hex.
    - rewrite (add_audio_run _ _ _ _ _ _ Hex Htemp). eexists _, _.
      split; [done|]. split; [done|].
      by destruct (audio_of E temp original output_path).
    - rewrite (os_rename_run _ _ _ _ Htemp). unfold audio_of. rewrite Hex.
      by eexists _, _. }
  rewrite Ea. intros [= <- <- <-]. exists Tw. split; [done|]. split; [done|].
  split; [done|]. exists files. split; [done|]. cbv zeta. rewrite Hfr.
  split; [|done]. by rewrite !app_nil_r.
Qed.

(** ** The steps of the pipeline *)

(** What the handler of a step emits. *)
Definition failure (task : bool) (what : string) (e : exn) : list effect :=
  Log ERROR (what +:+ " failed: ") (str_exn e)
  :: (if task
      then [UpdateState "FAILURE"
              {[ "error" := VStr (what +:+ " failed: " +:+ str_exn e) ]}]
      else []).

Lemma stage_failed_run {A} task what e s :
  @stage_failed A task what e s = (Raise e, s, failure task what e).
Proof. unfold stage_failed, failure, bind, when, emit, raise, ret. by destruct task. Qed.

Section steps.
Context (E : env) (task : bool) (ch : option string).

(** The progress report with the given step, message, percent and
    further entries. *)
Definition rep (step message : string) (pct : Q) (meta : gmap string value)
  : list effect :=
  reports task ch (update_data_of step message (Some pct) meta).

Definition rep_extracted (total_frames : Z) : list effect :=
  rep "EXTRACT"
    ("Frame extraction completed successfully. Extracted "
       +:+ str_int total_frames +:+ " frames")
    30 {[ "total_frames" := VInt total_frames ]}.

Lemma step_extract_run video_path s r s' T :
  step_extract E task (cb_of ch) video_path s = (r, s', T) ->
  exists t,
    Forall is_note t /\
    extract_frames E video_path frames_d true s
    = (r, s', t) /\
    T = rep "EXTRACT" "Starting frame extraction" 15 ∅ ++ t
          ++ match r with
             | Ok total_frames => rep_extracted total_frames
             | Raise ex => failure task "Frame extraction" ex
             end.
Proof.
  unfold step_extract, bind, try_except. rewrite update_progress_run.
  destruct (extract_frames E video_path frames_d true s) as [[[n|ex] s1] t] eqn:Hx.
  - rewrite update_progress_run. intros [= <- <- <-]. exists t.
    split; [by eapply emits_only_run; [apply extract_frames_notes|]|].
    split; [done|]. by rewrite !app_nil_r.
  - rewrite stage_failed_run. intros [= <- <- <-]. exists t.
    split; [by eapply emits_only_run; [apply extract_frames_notes|]|]. done.
Qed.

Definition rep_analyzed (results : list quality_score) : list effect :=
  let n := Z.of_nat (length results) in
  rep "ANALYZE" ("Quality analysis completed. Analyzed " +:+ str_int n +:+ " frames")
    50 {[ "analyzed_frames" := VInt n ]}
  ++ rep "ANALYZE"
       ("Analysis summary: " +:+ str_int (count_if blurry results) +:+ " blurry frames, "
          +:+ str_int (count_if dark results) +:+ " dark frames, "
          +:+ str_int (pipeline_good_count results) +:+ " good frames")
       50
       {[ "blurry_count" := VInt (count_if blurry results);
          "dark_count" := VInt (count_if dark results);
          "good_count" := VInt (pipeline_good_count results) ]}.

Lemma step_analyze_run s r s' T :
  step_analyze E task (cb_of ch) s = (r, s', T) ->
  s' = s /\ r = analyze_outcome E s frames_d /\
  exists t,
    Forall is_note t /\
    T = rep "ANALYZE" "Starting video quality analysis" 35 ∅ ++ t
          ++ match r with
             | Ok results => rep_analyzed results
             | Raise ex => failure task "Video analysis" ex
             end.
Proof.
  unfold step_analyze, bind, try_except. rewrite update_progress_run.
  destruct (analyze_video_run E frames_d s) as (t & -> & Ht).
  destruct (analyze_outcome E s frames_d) as [results|ex].
  - rewrite !update_progress_run. intros [= <- <- <-].
    split; [done|]. split; [done|]. exists t. split; [done|].
    unfold rep_analyzed, rep. by rewrite !app_nil_r.
  - rewrite stage_failed_run. intros [= <- <- <-].
    split; [done|]. split; [done|]. by exists t.
Qed.

Definition rep_processed (counts : Z * Z) : list effect :=
  rep "ENHANCE"
    ("Frame processing completed: " +:+ str_int counts.1 +:+ " enhanced, "
       +:+ str_int counts.2 +:+ " copied")
    85 {[ "enhanced_count" := VInt counts.1; "copied_count" := VInt counts.2 ]}.

Lemma step_enhance_run results s r s' T :
  step_enhance E task (cb_of ch) results s = (r, s', T) ->
  exists t,
    enhance_frames E task (cb_of ch) (Z.of_nat (length results)) results 0 0 0 s
    = (r, s', t) /\
    T = rep "ENHANCE" "Starting frame enhancement" 55 ∅ ++ t
          ++ match r with
             | Ok counts => rep_processed counts
             | Raise ex => failure task "Frame processing" ex
             end.
Proof.
  unfold step_enhance, bind, try_except. rewrite update_progress_run.
  destruct (enhance_frames _ _ _ _ _ _ _ _ s) as [[[counts|ex] s1] t] eqn:Hl.
  - rewrite update_progress_run. intros [= <- <- <-]. exists t.
    split; [done|]. by rewrite !app_nil_r.
  - rewrite stage_failed_run. intros [= <- <- <-]. by exists t.
Qed.

Definition rep_reconstructed (reconstructed_video : string) : list effect :=
  rep "RECONSTRUCT" ("Video reconstruction completed: " +:+ reconstructed_video)
    95 {[ "output_path" := VStr reconstructed_video ]}.

Lemma step_reconstruct_run video_path s r s' T :
  step_reconstruct E task (cb_of ch) video_path s = (r, s', T) ->
  exists t,
    reconstruct_video E enhanced_d reconstructed_mp4 (Some video_path) 24 s
    = (r, s', t) /\
    T = rep "RECONSTRUCT" "Starting video reconstruction" 90 ∅ ++ t
          ++ match r with
             | Ok p => rep_reconstructed p
             | Raise ex => failure task "Video reconstruction" ex
             end.
Proof.
  unfold step_reconstruct, bind, try_except. rewrite update_progress_run.
  destruct (reconstruct_video _ _ _ _ _ s) as [[[p|ex] s1] t] eqn:Hl.
  - rewrite update_progress_run. intros [= <- <- <-]. exists t.
    split; [done|]. by rewrite !app_nil_r.
  - rewrite stage_failed_run. intros [= <- <- <-]. by exists t.
Qed.

(** The file system once the two output directories exist. *)
Definition prepared (s : fsys) : fsys :=
  final_fs (makedirs enhanced_d (final_fs (makedirs frames_d s))).

Definition opening (video_path : string) : list effect :=
  rep "INIT" "Pipeline started" 0 {[ "video_path" := VStr video_path ]}
  ++ rep "SETUP" "Creating output directories" 5 ∅
  ++ rep "SETUP" "Output directories created successfully" 10 ∅
  ++ rep "EXTRACT" "Starting frame extraction" 15 ∅.

Definition rep_complete (results : list quality_score) (counts : Z * Z) : list effect :=
  rep "COMPLETE" "Pipeline completed successfully" 100
    {[ "final_output" := VStr reconstructed_mp4;
       "total_frames" := VInt (Z.of_nat (length results));
       "enhanced_count" := VInt counts.1;
       "copied_count" := VInt counts.2 ]}.

(** The five ways a run of the pipeline can go: one per failing step,
    and the run that completes. Each gives the result, the final file
    system and the trace. *)
Inductive pipeline_run (video_path : string) (s : fsys)
  : result (list quality_score) -> fsys -> list effect -> Prop :=
| run_extract_failed ex s1 t1 :
    extract_frames E video_path frames_d true (prepared s) = (Raise ex, s1, t1) ->
    pipeline_run video_path s (Raise ex) s1
      (opening video_path ++ t1 ++ failure task "Frame extraction" ex)
| run_analyze_failed n s1 t1 ex t2 :
    extract_frames E video_path frames_d true (prepared s) = (Ok n, s1, t1) ->
    analyze_outcome E s1 frames_d = Raise ex ->
    Forall is_note t2 ->
    pipeline_run video_path s (Raise ex) s1
      (opening video_path ++ t1 ++ rep_extracted n
         ++ rep "ANALYZE" "Starting video quality analysis" 35 ∅ ++ t2
         ++ failure task "Video analysis" ex)
| run_enhance_failed n s1 t1 results t2 ex s3 t3 :
    extract_frames E video_path frames_d true (prepared s) = (Ok n, s1, t1) ->
    analyze_outcome E s1 frames_d = Ok results ->
    Forall is_note t2 ->
    enhance_frames E task (cb_of ch) (Z.of_nat (length results)) results 0 0 0 s1
    = (Raise ex, s3, t3) ->
    pipeline_run video_path s (Raise ex) s3
      (opening video_path ++ t1 ++ rep_extracted n
         ++ rep "ANALYZE" "Starting video quality analysis" 35 ∅ ++ t2
         ++ rep_analyzed results
         ++ rep "ENHANCE" "Starting frame enhancement" 55 ∅ ++ t3
         ++ failure task "Frame processing" ex)
| run_reconstruct_failed n s1 t1 results t2 counts s3 t3 ex s4 t4 :
    extract_frames E video_path frames_d true (prepared s) = (Ok n, s1, t1) ->
    analyze_outcome E s1 frames_d = Ok results ->
    Forall is_note t2 ->
    enhance_frames E task (cb_of ch) (Z.of_nat (length results)) results 0 0 0 s1
    = (Ok counts, s3, t3) ->
    reconstruct_video E enhanced_d reconstructed_mp4 (Some video_path) 24 s3
    = (Raise ex, s4, t4) ->
    pipeline_run video_path s (Raise ex) s4
      (opening video_path ++ t1 ++ rep_extracted n
         ++ rep "ANALYZE" "Starting video quality analysis" 35 ∅ ++ t2
         ++ rep_analyzed results
         ++ rep "ENHANCE" "Starting frame enhancement" 55 ∅ ++ t3
         ++ rep_processed counts
         ++ rep "RECONSTRUCT" "Starting video reconstruction" 90 ∅ ++ t4
         ++ failure task "Video reconstruction" ex)
| run_completed n s1 t1 results t2 counts s3 t3 p s4 t4 :
    extract_frames E video_path frames_d true (prepared s) = (Ok n, s1, t1) ->
    analyze_outcome E s1 frames_d = Ok results ->
    Forall is_note t2 ->
    enhance_frames E task (cb_of ch) (Z.of_nat (length results)) results 0 0 0 s1
    = (Ok counts, s3, t3) ->
    reconstruct_video E enhanced_d reconstructed_mp4 (Some video_path) 24 s3
    = (Ok p, s4, t4) ->
    pipeline_run video_path s (Ok results) s4
      (opening video_path ++ t1 ++ rep_extracted n
         ++ rep "ANALYZE" "Starting video quality analysis" 35 ∅ ++ t2
         ++ rep_analyzed results
         ++ rep "ENHANCE" "Starting frame enhancement" 55 ∅ ++ t3
         ++ rep_processed counts
         ++ rep "RECONSTRUCT" "Starting video reconstruction" 90 ∅ ++ t4
         ++ rep_reconstructed p
         ++ rep_complete results counts).

Lemma pipeline_run_eq' {A} (P : A -> Prop) x y : P x -> x = y -> P y.
Proof. by intros H <-. Qed.

Lemma pipeline_run_eq video_path s r s' T T' :
  pipeline_run video_path s r s' T -> T = T' -> pipeline_run video_path s r s' T'.
Proof. by intros H <-. Qed.

Lemma run_pipeline_run video_path s r s' T :
  run_pipeline E video_path task (cb_of ch) s = (r, s', T) ->
  pipeline_run video_path s r s' T.
Proof.
  unfold run_pipeline. intros H.
  unfold bind at 1 in H. rewrite update_progress_run in H.
  unfold bind at 1 in H. rewrite update_progress_run in H.
  unfold bind at 1 in H.
  destruct (makedirs_run frames_d s) as (sa & Ea & _). rewrite Ea in H.
  unfold bind at 1 in H.
  destruct (makedirs_run enhanced_d sa) as (sb & Eb & _). rewrite Eb in H.
  assert (sb = prepared s) as ->.
  { unfold prepared, final_fs. by rewrite Ea; simpl; rewrite Eb. }
  unfold bind at 1 in H. rewrite update_progress_run in H.
  unfold bind at 1 in H.
  destruct (step_extract E task (cb_of ch) video_path (prepared s))
    as [[[n|ex] s1] T1] eqn:H1;
    destruct (step_extract_run _ _ _ _ _ H1) as (t1 & Ht1 & Hx & ->).
  2:{ injection H as <- <- <-.
      eapply pipeline_run_eq; [by eapply run_extract_failed|].
      unfold opening, rep. by rewrite ?app_nil_l, <- ?app_assoc. }
  unfold bind at 1 in H.
  destruct (step_analyze E task (cb_of ch) s1) as [[r2 s2] T2] eqn:H2.
  destruct (step_analyze_run _ _ _ _ H2) as (-> & Hr2 & t2 & Ht2 & ->).
  destruct r2 as [results|ex].
  2:{ injection H as <- <- <-.
      eapply pipeline_run_eq; [by eapply run_analyze_failed|].
      unfold opening, rep. by rewrite ?app_nil_l, <- ?app_assoc. }
  unfold bind at 1 in H.
  destruct (step_enhance E task (cb_of ch) results s1) as [[r3 s3] T3] eqn:H3.
  destruct (step_enhance_run _ _ _ _ _ H3) as (t3 & Hl & ->).
  destruct r3 as [counts|ex].
  2:{ injection H as <- <- <-.
      eapply pipeline_run_eq; [by eapply run_enhance_failed|].
      unfold opening, rep. by rewrite ?app_nil_l, <- ?app_assoc. }
  unfold bind at 1 in H.
  destruct (step_reconstruct E task (cb_of ch) video_path s3) as [[r4 s4] T4] eqn:H4.
  destruct (step_reconstruct_run _ _ _ _ _ H4) as (t4 & Hrec & ->).
  destruct r4 as [p|ex].
  2:{ injection H as <- <- <-.
      eapply pipeline_run_eq; [by eapply run_reconstruct_failed|].
      unfold opening, rep. by rewrite ?app_nil_l, <- ?app_assoc. }
  unfold bind at 1 in H. rewrite update_progress_run in H.
  unfold ret in H. injection H as <- <- <-.
  eapply pipeline_run_eq; [by eapply run_completed|].
  unfold opening, rep, rep_complete. by rewrite ?app_nil_l, ?app_nil_r, <- ?app_assoc.
Qed.

End steps.

(** ** The task *)

Section task.
Context (E : env) (task_id video_path : string).

Definition started : effect :=
  UpdateState "STARTED"
    {[ "status" := VStr "Pipeline started"; "video_path" := VStr video_path ]}.

(** What the handler of the task emits. *)
Definition task_failure (e : exn) : list effect :=
  [ UpdateState "FAILURE"
      {[ "status" := VStr "Pipeline failed";
         "error" := VStr (str_exn e);
         "video_path" := VStr video_path ]};
    Publish ("task_updates:" +:+ task_id)
      {[ "state" := VStr "FAILURE";
         "status" := VStr "Pipeline failed";
         "error" := VStr (str_exn e) ]};
    Log ERROR "Pipeline task failed: " (str_exn e) ].

(** What the task emits once the output is uploaded. *)
Definition task_success (bucket : string) (results : list quality_score) : list effect :=
  [ UpdateState "SUCCESS"
      {[ "status" := VStr "Pipeline completed successfully";
         "video_path" := VStr video_path;
         "total_frames" := VInt (Z.of_nat (length results));
         "enhanced_frames" := VInt (count_if (fun r => blurry r || dark r) results);
         "output_path" := VStr (bucket +:+ "/" +:+ "enhanced/reconstructed.mp4") ]};
    Publish ("task_updates:" +:+ task_id)
      {[ "state" := VStr "SUCCESS";
         "status" := VStr "Pipeline completed successfully";
         "output_path" := VStr (bucket +:+ "/" +:+ "enhanced/reconstructed.mp4") ]} ].

(** Fetching the input: the bucket, or the exception raised. *)
Definition fetched : result string :=
  match get_minio_client E with
  | Raise e => Raise e
  | Ok _ =>
      match split_slash video_path with
      | None => Raise (ValueError "not enough values to unpack (expected 2, got 1)")
      | Some (bucket, key) =>
          match minio_download E bucket key with
          | Ok _ => Ok bucket
          | Raise e => Raise e
          end
      end
  end.

(** Opening the reconstructed video and uploading it. *)
Definition uploaded (s : fsys) (bucket : string) : result unit :=
  match videos s !! reconstructed_mp4 with
  | None => Raise (FileNotFoundError reconstructed_mp4)
  | Some _ => minio_upload E bucket "enhanced/reconstructed.mp4"
  end.

(** The ways a run of the task can go. *)
Inductive task_run (s : fsys) : result task_return -> fsys -> list effect -> Prop :=
| task_not_started ex :
    fetched = Raise ex ->
    task_run s (Raise ex) s (task_failure ex)
| task_pipeline_failed bucket ex s' Tp :
    fetched = Ok bucket ->
    pipeline_run E true (Some task_id) (temp_name E) s (Raise ex) s' Tp ->
    task_run s (Raise ex) s' (started :: Tp ++ task_failure ex)
| task_upload_failed bucket results s' Tp ex :
    fetched = Ok bucket ->
    pipeline_run E true (Some task_id) (temp_name E) s (Ok results) s' Tp ->
    uploaded s' bucket = Raise ex ->
    task_run s (Raise ex) s' (started :: Tp ++ task_failure ex)
| task_succeeded bucket results s' Tp :
    fetched = Ok bucket ->
    pipeline_run E true (Some task_id) (temp_name E) s (Ok results) s' Tp ->
    uploaded s' bucket = Ok tt ->
    task_run s
      (Ok (TaskReturn "success" video_path (Z.of_nat (length results))
             (count_if (fun r => blurry r || dark r) results)
             (bucket +:+ "/" +:+ "enhanced/reconstructed.mp4") results))
      s' (started :: Tp ++ task_success bucket results).

Lemma run_pipeline_task_run s r s' T :
  run_pipeline_task E task_id video_path s = (r, s', T) ->
  task_run s r s' T.
Proof.
  unfold run_pipeline_task, try_except.
  unfold bind at 1. unfold lift at 1.
  destruct (get_minio_client E) as [[]|ex] eqn:Hcl.
  2:{ simpl. intros [= <- <- <-]. apply task_not_started.
      unfold fetched. by rewrite Hcl. }
  destruct (split_slash video_path) as [[bucket key]|] eqn:Hsplit.
  2:{ simpl. intros [= <- <- <-]. apply task_not_started.
      unfold fetched. by rewrite Hcl, Hsplit. }
  unfold bind at 1. unfold lift at 1.
  destruct (minio_download E bucket key) as [[]|ex] eqn:Hdl.
  2:{ simpl. intros [= <- <- <-]. apply task_not_started.
      unfold fetched. by rewrite Hcl, Hsplit, Hdl. }
  assert (fetched = Ok bucket) as Hf by (unfold fetched; by rewrite Hcl, Hsplit, Hdl).
  unfold bind at 1. unfold emit at 1. unfold bind at 1.
  change (Some (publish_progress_to_redis task_id)) with (cb_of (Some task_id)).
  destruct (run_pipeline E (temp_name E) true (cb_of (Some task_id)) s)
    as [[[results|ex] s1] Tp] eqn:Hp; apply run_pipeline_run in Hp.
  2:{ simpl. intros [= <- <- <-]. fold started.
      eapply task_pipeline_failed; eauto. }
  unfold bind at 1. unfold get_fs at 1. unfold bind at 1.
  change (os_path_join "ml_output" "reconstructed.mp4") with reconstructed_mp4.
  pose proof (eq_refl (uploaded s1 bucket)) as Hu. unfold uploaded at 1 in Hu.
  destruct (videos s1 !! reconstructed_mp4) as [v|].
  - unfold lift at 1. destruct (minio_upload E bucket _) as [[]|ex].
    + simpl. intros [= <- <- <-]. fold started.
      eapply pipeline_run_eq' ; [by eapply task_succeeded|].
      unfold task_success. by rewrite ?app_nil_l, ?app_nil_r.
    + simpl. intros [= <- <- <-]. fold started.
      eapply pipeline_run_eq'; [by eapply task_upload_failed|].
      unfold task_failure. by rewrite ?app_nil_l, ?app_nil_r.
  - simpl. intros [= <- <- <-]. fold started.
    eapply pipeline_run_eq'; [by eapply task_upload_failed|].
    unfold task_failure. by rewrite ?app_nil_l, ?app_nil_r.
Qed.

End task.

(** ** The percent of a frame *)

Lemma frame_progress_frac i total :
  0 < total ->
  (frame_progress i total == 55 + (i * 30 # Z.to_pos total))%Q.
Proof.
  intros Ht. unfold frame_progress.
  destruct total as [|p|p]; try lia. simpl Z.to_pos.
  rewrite <- (Qmake_Qdiv i p). unfold Qeq, Qplus, Qmult. simpl. lia.
Qed.

Lemma frame_progress_le i j total :
  0 < total -> i <= j -> (frame_progress i total <= frame_progress j total)%Q.
Proof.
  intros Ht Hij. rewrite !frame_progress_frac by done.
  apply Qplus_le_r. unfold Qle. simpl. nia.
Qed.

Lemma frame_progress_lo i total :
  0 < total -> 0 <= i -> (55 <= frame_progress i total)%Q.
Proof.
  intros Ht Hi. rewrite frame_progress_frac by done.
  rewrite <- (Qplus_0_r 55) at 1. apply Qplus_le_r. unfold Qle. simpl. nia.
Qed.

Lemma frame_progress_hi i total :
  0 < total -> i <= total -> (frame_progress i total <= 85)%Q.
Proof.
  intros Ht Hi. rewrite frame_progress_frac by done.
  change 85%Q with (55 + 30)%Q.
  apply Qplus_le_r. unfold Qle. simpl. rewrite Z2Pos.id by done. nia.
Qed.

(** ** The percents of a trace *)

(** The [progress_percent] a dictionary carries. *)
Definition percent (d : gmap string value) : option Q :=
  match d !! "progress_percent" with
  | Some (VNum q) => Some q
  | _ => None
  end.

Definition percent_of (ev : effect) : option Q :=
  match ev with
  | UpdateState _ d | Publish _ d => percent d
  | _ => None
  end.

(** The percents reported in a trace, in the order of emission. *)
Definition percents (T : list effect) : list Q := omap percent_of T.

(** The percents of [T] do not decrease and lie between [lo] and [hi]. *)
Definition mono (lo hi : Q) (T : list effect) : Prop :=
  StronglySorted Qle (percents T) /\
  Forall (fun q => (lo <= q)%Q /\ (q <= hi)%Q) (percents T).

Lemma percents_app T1 T2 : percents (T1 ++ T2) = percents T1 ++ percents T2.
Proof. apply omap_app. Qed.

Lemma mono_silent lo hi T : percents T = [] -> mono lo hi T.
Proof. intros H. unfold mono. rewrite H. split; constructor. Qed.

Lemma mono_weaken lo hi lo' hi' T :
  (lo' <= lo)%Q -> (hi <= hi')%Q -> mono lo hi T -> mono lo' hi' T.
Proof.
  intros Hlo Hhi [Hs Hb]. split; [done|].
  eapply Forall_impl; [done|]. intros q [H1 H2]. split.
  - by eapply Qle_trans.
  - by eapply Qle_trans.
Qed.

Lemma mono_app a b c T1 T2 :
  (a <= b)%Q -> (b <= c)%Q -> mono a b T1 -> mono b c T2 -> mono a c (T1 ++ T2).
Proof.
  intros Hab Hbc [Hs1 Hb1] [Hs2 Hb2]. unfold mono. rewrite percents_app. split.
  - induction Hs1 as [|q l Hl IH Hq]; simpl; [done|].
    apply Forall_cons in Hb1 as [[_ Hqb] Hb1].
    constructor; [by apply IH|]. apply Forall_app. split; [done|].
    eapply Forall_impl; [done|]. intros q' [H1 _]. simpl.
    eapply Qle_trans; [done|]. done.
  - apply Forall_app. split.
    + eapply Forall_impl; [done|]. intros q [H1 H2]. split; [done|].
      by eapply Qle_trans.
    + eapply Forall_impl; [done|]. intros q [H1 H2]. split; [|done].
      by eapply Qle_trans.
Qed.

Lemma notes_silent T : Forall is_note T -> percents T = [].
Proof.
  intros H. apply omap_nil_Forall. eapply Forall_impl; [done|]. by intros [].
Qed.

Lemma inner_silent T : Forall is_inner T -> percents T = [].
Proof.
  intros H. apply omap_nil_Forall. eapply Forall_impl; [done|]. by intros [].
Qed.

(** A report whose [meta] gives no percent of its own carries the
    percent it was called with. *)
Lemma percent_update_data step message q meta :
  meta !! "progress_percent" = None ->
  percent (update_data_of step message (Some q) meta) = Some q.
Proof.
  intros Hm. unfold percent, update_data_of.
  rewrite lookup_union_r by done. reflexivity.
Qed.

Lemma mono_reports task ch step message q meta :
  meta !! "progress_percent" = None ->
  mono q q (reports task ch (update_data_of step message (Some q) meta)).
Proof.
  intros Hm. unfold mono, reports, percents.
  pose proof (percent_update_data step message q meta Hm) as Hp.
  destruct task, ch; simpl; rewrite ?Hp;
    repeat constructor; try apply Qle_refl; auto using Qle_refl.
  all: repeat constructor; apply Qle_refl.
Qed.

(** ** The events of the enhancement loop *)

(** The dictionary is the per-frame report of a frame of the loop. *)
Definition frame_data (total : Z) (d : gmap string value) : Prop :=
  exists i result e c, 0 <= i < total /\ d = frame_report total i result e c.

(** What the loop emits, the failure record of [enhance_image] apart. *)
Definition loop_event (total : Z) (ev : effect) : Prop :=
  match ev with
  | Log _ text _ => text ∉ marker_texts \/ text = "Starting image enhancement: "
  | Call fn _ => fn = "upsampler.enhance" \/ fn = "shutil.copy"
  | UpdateState st d => st = "PROGRESS" /\ frame_data total d
  | Publish _ d => frame_data total d
  end.

Lemma inner_loop_event total T : Forall is_inner T -> Forall (loop_event total) T.
Proof.
  intros H. eapply Forall_impl; [done|]. intros [] Hev; try done; simpl in *; auto.
Qed.

Section loop_events.
Context (E : env) (task : bool) (ch : option string) (total : Z).

Lemma reports_loop_event i result e c :
  0 <= i < total ->
  Forall (loop_event total) (reports task ch (frame_report total i result e c)).
Proof.
  intros Hi. assert (frame_data total (frame_report total i result e c))
    by (by exists i, result, e, c).
  unfold reports. destruct task, ch; repeat constructor; done.
Qed.

(** The trace of the loop: its events, closed by the failure record
    when [enhance_image] raised. *)
Definition loop_trace (r : result (Z * Z)) (T : list effect) : Prop :=
  exists T0,
    Forall (loop_event total) T0 /\
    (T = T0 \/
     exists ex, r = Raise ex /\
       T = T0 ++ [Log ERROR "Image enhancement failed: " (str_exn ex)]).

Lemma process_frame_trace i result e c s r s' T :
  0 <= i < total ->
  process_frame E task (cb_of ch) total i result e c s = (r, s', T) ->
  (forall counts, r = Ok counts -> Forall (loop_event total) T) /\
  loop_trace (match r with Ok _ => Ok (0, 0) | Raise ex => Raise ex end) T.
Proof.
  intros Hi H. apply process_frame_run in H. destruct (routed result).
  - destruct H as (T0 & T1 & -> & HT0 & H).
    pose proof (reports_loop_event i result e c Hi) as Hr.
    pose proof (inner_loop_event total T0 HT0) as HT0'.
    assert (loop_event total (start_enhancement (frame_in result) (frame_out result)))
      by (simpl; by right).
    destruct r as [counts|ex].
    + destruct H as (_ & -> & _). rewrite app_nil_r.
      split; [intros; all_of|]. exists (reports task ch (frame_report total i result e c)
        ++ start_enhancement (frame_in result) (frame_out result) :: T0).
      split; [all_of | by left].
    + destruct H as (-> & _). split; [done|].
      exists (reports task ch (frame_report total i result e c)
        ++ start_enhancement (frame_in result) (frame_out result) :: T0).
      split; [all_of|]. right. exists ex. split; [done|].
      by rewrite <- app_assoc.
  - destruct H as (-> & _).
    assert (Forall (loop_event total) [copy_call (filename result)])
      by (repeat constructor; simpl; by right).
    split; [done|]. exists [copy_call (filename result)]. split; [done | by left].
Qed.

Lemma enhance_frames_trace rest i e c s r s' T :
  0 <= i -> i + Z.of_nat (length rest) <= total ->
  enhance_frames E task (cb_of ch) total rest i e c s = (r, s', T) ->
  loop_trace r T.
Proof.
  intros Hi Hn H. revert Hi Hn.
  eapply (enhance_frames_runs E task ch total
    (fun i e c rest s r s' T =>
       0 <= i -> i + Z.of_nat (length rest) <= total -> loop_trace r T));
    [| | |exact H].
  - intros. exists []. split; [done | by left].
  - intros i0 e0 c0 result rest0 s0 cs s1 t1 r0 s0' t2 Hb _ IH Hi Hn.
    simpl length in Hn.
    destruct (process_frame_trace i0 _ _ _ _ _ _ _ ltac:(lia) Hb) as [Hok _].
    specialize (Hok cs eq_refl).
    destruct IH as (T0 & HT0 & HT); [lia | lia |].
    exists (t1 ++ T0). split; [all_of|]. destruct HT as [->|(ex & -> & ->)].
    + by left.
    + right. exists ex. split; [done|]. by rewrite <- app_assoc.
  - intros i0 e0 c0 result rest0 s0 ex s1 t1 Hb Hi Hn. simpl length in Hn.
    by destruct (process_frame_trace i0 _ _ _ _ _ _ _ ltac:(lia) Hb) as [_ Hl].
Qed.

Lemma process_frame_mono i result e c s r s' T :
  process_frame E task (cb_of ch) total i result e c s = (r, s', T) ->
  mono (frame_progress i total) (frame_progress i total) T.
Proof.
  intros H. apply process_frame_run in H. destruct (routed result).
  - destruct H as (T0 & T1 & -> & HT0 & H).
    eapply mono_app; [apply Qle_refl | apply Qle_refl | |].
    + by apply mono_reports.
    + apply mono_silent. change (?x :: ?l ++ ?l') with ([x] ++ l ++ l').
      rewrite !percents_app, (inner_silent T0 HT0). simpl.
      destruct r; [by destruct H as (_ & -> & _) | by destruct H as (-> & _)].
  - destruct H as (-> & _). by apply mono_silent.
Qed.

Lemma enhance_frames_mono rest i e c s r s' T :
  0 <= i -> i + Z.of_nat (length rest) <= total ->
  enhance_frames E task (cb_of ch) total rest i e c s = (r, s', T) ->
  mono (frame_progress i total) 85 T.
Proof.
  intros Hi Hn H. revert Hi Hn.
  eapply (enhance_frames_runs E task ch total
    (fun i e c rest s r s' T =>
       0 <= i -> i + Z.of_nat (length rest) <= total ->
       mono (frame_progress i total) 85 T));
    [| | |exact H].
  - intros. by apply mono_silent.
  - intros i0 e0 c0 result rest0 s0 cs s1 t1 r0 s0' t2 Hb _ IH Hi Hn.
    simpl length in Hn.
    eapply (mono_app _ (frame_progress (i0 + 1) total)).
    + apply frame_progress_le; lia.
    + apply frame_progress_hi; lia.
    + eapply mono_weaken; [apply Qle_refl | | by eapply process_frame_mono].
      apply frame_progress_le; lia.
    + apply IH; lia.
  - intros i0 e0 c0 result rest0 s0 ex s1 t1 Hb Hi Hn. simpl length in Hn.
    eapply mono_weaken; [apply Qle_refl | | by eapply process_frame_mono].
    apply frame_progress_hi; lia.
Qed.

End loop_events.

(** ** Where the markers can be *)

(** The effect is not a log record with one of the [texts]. *)
Definition avoids (texts : list string) (ev : effect) : Prop :=
  match ev with
  | Log _ text _ => text ∉ texts
  | _ => True
  end.

(** The effect, if it carries a dictionary, carries one that satisfies [P]. *)
Definition on_data (P : gmap string value -> Prop) (ev : effect) : Prop :=
  match ev with
  | UpdateState _ d | Publish _ d => P d
  | _ => True
  end.

Lemma notes_avoid texts T :
  texts ⊆ marker_texts -> Forall is_note T -> Forall (avoids texts) T.
Proof.
  intros Hsub H. eapply Forall_impl; [done|]. intros [] Hev; try done.
  simpl in *. intros Hin. apply Hev. by apply Hsub.
Qed.

Lemma notes_on_data P T : Forall is_note T -> Forall (on_data P) T.
Proof. intros H. eapply Forall_impl; [done|]. by intros []. Qed.

Lemma reports_avoid texts task ch d : Forall (avoids texts) (reports task ch d).
Proof. unfold reports. destruct task, ch; by repeat constructor. Qed.

Lemma reports_on_data (P : gmap string value -> Prop) task ch d :
  P d -> Forall (on_data P) (reports task ch d).
Proof. intros H. unfold reports. destruct task, ch; by repeat constructor. Qed.

Lemma loop_events_avoid texts total T :
  texts ⊆ marker_texts -> "Starting image enhancement: " ∉ texts ->
  Forall (loop_event total) T -> Forall (avoids texts) T.
Proof.
  intros Hsub Hst H. eapply Forall_impl; [done|]. intros [] Hev; try done.
  simpl in *. destruct Hev as [Hev| ->]; [|done]. intros Hin. apply Hev. by apply Hsub.
Qed.

Lemma loop_events_on_data (P : gmap string value -> Prop) total T :
  (forall i result e c, 0 <= i < total -> P (frame_report total i result e c)) ->
  Forall (loop_event total) T -> Forall (on_data P) T.
Proof.
  intros HP H. eapply Forall_impl; [done|].
  intros [st d|c d| |] Hev; try done; simpl in *.
  - destruct Hev as (_ & i & result & e & c & Hi & ->). by apply HP.
  - destruct Hev as (i & result & e & c0 & Hi & ->). by apply HP.
Qed.

Lemma avoids_weaken texts texts' T :
  texts' ⊆ texts -> Forall (avoids texts) T -> Forall (avoids texts') T.
Proof.
  intros Hsub H. eapply Forall_impl; [done|]. intros [] Hev; try done.
  simpl in *. intros Hin. apply Hev. by apply Hsub.
Qed.

Lemma avoids_In texts lvl text arg T :
  Forall (avoids texts) T -> text ∈ texts -> Log lvl text arg ∉ T.
Proof.
  intros H Ht Hin. rewrite Forall_forall in H. by apply (H _ Hin).
Qed.

(** Closes [x ∈ l], [x ∉ l] and [l ⊆ l'] on lists of string literals. *)
Ltac in_list := repeat first [ by apply list_elem_of_here | apply list_elem_of_further ].
Ltac not_in :=
  let H := fresh in
  intros H; simpl in H;
  repeat (apply elem_of_cons in H as [H|H]; [discriminate H|]);
  by apply elem_of_nil in H.
Ltac sub_list :=
  let x := fresh in let H := fresh in
  intros x H;
  repeat (apply elem_of_cons in H as [->|H]; [in_list|]);
  by apply elem_of_nil in H.

Lemma loop_trace_avoid texts total r T :
  texts ⊆ marker_texts ->
  "Starting image enhancement: " ∉ texts ->
  "Image enhancement failed: " ∉ texts ->
  loop_trace total r T -> Forall (avoids texts) T.
Proof.
  intros Hsub Hst Hf (T0 & HT0 & HT).
  pose proof (loop_events_avoid texts total T0 Hsub Hst HT0).
  destruct HT as [->|(ex & _ & ->)]; [done|]. all_of.
Qed.

Lemma loop_trace_on_data (P : gmap string value -> Prop) total r T :
  (forall i result e c, 0 <= i < total -> P (frame_report total i result e c)) ->
  loop_trace total r T -> Forall (on_data P) T.
Proof.
  intros HP (T0 & HT0 & HT).
  pose proof (loop_events_on_data P total T0 HP HT0).
  destruct HT as [->|(ex & _ & ->)]; [done|]. all_of.
Qed.

Lemma audio_trace_avoid texts cmd o :
  "Failed to add audio: " ∉ texts -> "Error adding audio: " ∉ texts ->
  Forall (avoids texts) (audio_trace cmd o).
Proof. intros H1 H2. destruct o; by repeat constructor. Qed.

Lemma reconstruct_video_avoid texts E frame_dir output_path original fps s r s' T :
  texts ⊆ marker_texts ->
  "Starting video reconstruction from: " ∉ texts ->
  "Failed to add audio: " ∉ texts -> "Error adding audio: " ∉ texts ->
  reconstruct_video E frame_dir output_path original fps s = (r, s', T) ->
  Forall (avoids texts) T.
Proof.
  intros Hsub Hst H1 H2 H. apply reconstruct_video_run in H as (T0 & HT0 & H).
  pose proof (notes_avoid texts T0 Hsub HT0).
  destruct r as [p|ex].
  - destruct H as (_ & _ & files & _ & -> & _).
    pose proof (audio_trace_avoid texts
      (ffmpeg_cmd (replace_mp4 output_path) (default "" original) output_path)
      (audio_of E (replace_mp4 output_path) original output_path) H1 H2).
    all_of.
  - destruct H as (-> & _). all_of. intros Hin. apply Hsub in Hin. revert Hin. not_in.
Qed.

Lemma reconstruct_video_on_data P E frame_dir output_path original fps s r s' T :
  reconstruct_video E frame_dir output_path original fps s = (r, s', T) ->
  Forall (on_data P) T.
Proof.
  intros H. apply reconstruct_video_run in H as (T0 & HT0 & H).
  pose proof (notes_on_data P T0 HT0).
  destruct r as [p|ex].
  - destruct H as (_ & _ & files & _ & -> & _).
    assert (Forall (on_data P) (audio_trace
      (ffmpeg_cmd (replace_mp4 output_path) (default "" original) output_path)
      (audio_of E (replace_mp4 output_path) original output_path)))
      by (destruct (audio_of _ _ _ _); by repeat constructor).
    all_of.
  - destruct H as (-> & _). all_of.
Qed.

Lemma failure_avoid texts task what e :
  (what +:+ " failed: ") ∉ texts -> Forall (avoids texts) (failure task what e).
Proof. intros H. unfold failure. destruct task; by repeat constructor. Qed.

(** The dictionary names no output. *)
Definition no_output (d : gmap string value) : Prop :=
  d !! "output_path" = None /\ d !! "final_output" = None.

Lemma failure_no_output task what e : Forall (on_data no_output) (failure task what e).
Proof. unfold failure. destruct task; by repeat constructor. Qed.

(** ** Where the pipeline stops *)

(** Splits a property of the trace of the pipeline over its segments. *)
Ltac segs :=
  unfold opening, rep_extracted, rep_analyzed, rep_processed, rep_reconstructed,
    rep_complete, rep;
  repeat match goal with
         | |- Forall _ (_ ++ _) => apply Forall_app; split
         end.

Ltac avoid_leaf :=
  first [ assumption
        | apply reports_avoid
        | apply failure_avoid; not_in
        | apply notes_avoid; [sub_list | assumption] ].

Ltac no_output_leaf :=
  first [ assumption
        | apply reports_on_data; by split
        | apply failure_no_output
        | apply notes_on_data; assumption ].

Section halting.
Context (E : env) (task : bool) (ch : option string).

Lemma frame_report_no_output total i result e c :
  no_output (frame_report total i result e c).
Proof. by split. Qed.

(** Either [enhance_image] never failed in the run, or the run ends
    with its failure record and the records of the handler of step 3;
    nothing before named an output or started the reconstruction. *)
Lemma pipeline_run_halts video_path s r s' T :
  pipeline_run E task ch video_path s r s' T ->
  Forall (avoids ["Image enhancement failed: "]) T \/
  exists T0 ex,
    r = Raise ex /\
    T = T0 ++ Log ERROR "Image enhancement failed: " (str_exn ex)
             :: failure task "Frame processing" ex /\
    Forall (avoids ["Image enhancement failed: ";
                    "Starting video reconstruction from: "]) T0 /\
    Forall (on_data no_output) T0.
Proof.
  intros H. destruct H as
    [ ex s1 t1 Hx
    | n s1 t1 ex t2 Hx Ha Ht2
    | n s1 t1 results t2 ex s3 t3 Hx Ha Ht2 Hl
    | n s1 t1 results t2 counts s3 t3 ex s4 t4 Hx Ha Ht2 Hl Hr
    | n s1 t1 results t2 counts s3 t3 p s4 t4 Hx Ha Ht2 Hl Hr ];
    pose proof (emits_only_run _ _ _ _ _ _ (extract_frames_notes _ _ _ _) Hx) as Ht1.
  - left. segs; avoid_leaf.
  - left. segs; avoid_leaf.
  - apply enhance_frames_trace in Hl as (T0 & HT0 & HT); [|lia..].
    destruct HT as [->|(ex' & [= <-] & ->)].
    + left. pose proof (loop_events_avoid ["Image enhancement failed: "] _ T0
        ltac:(sub_list) ltac:(not_in) HT0). segs; avoid_leaf.
    + right.
      exists (opening task ch video_path ++ t1 ++ rep_extracted task ch n
                ++ rep task ch "ANALYZE" "Starting video quality analysis" 35 ∅ ++ t2
                ++ rep_analyzed task ch results
                ++ rep task ch "ENHANCE" "Starting frame enhancement" 55 ∅ ++ T0), ex.
      split; [done|]. split; [by rewrite <- !app_assoc|]. split.
      * pose proof (loop_events_avoid
          ["Image enhancement failed: "; "Starting video reconstruction from: "]
          _ T0 ltac:(sub_list) ltac:(not_in) HT0). segs; avoid_leaf.
      * pose proof (loop_events_on_data no_output _ T0
          (fun i result e c _ => frame_report_no_output _ i result e c) HT0).
        segs; no_output_leaf.
  - left. apply enhance_frames_trace in Hl as (T0 & HT0 & HT); [|lia..].
    destruct HT as [->|(ex' & [=] & _)].
    pose proof (loop_events_avoid ["Image enhancement failed: "] _ T0
      ltac:(sub_list) ltac:(not_in) HT0).
    pose proof (reconstruct_video_avoid ["Image enhancement failed: "] _ _ _ _ _ _ _ _ _
      ltac:(sub_list) ltac:(not_in) ltac:(not_in) ltac:(not_in) Hr).
    segs; avoid_leaf.
  - left. apply enhance_frames_trace in Hl as (T0 & HT0 & HT); [|lia..].
    destruct HT as [->|(ex' & [=] & _)].
    pose proof (loop_events_avoid ["Image enhancement failed: "] _ T0
      ltac:(sub_list) ltac:(not_in) HT0).
    pose proof (reconstruct_video_avoid ["Image enhancement failed: "] _ _ _ _ _ _ _ _ _
      ltac:(sub_list) ltac:(not_in) ltac:(not_in) ltac:(not_in) Hr).
    segs; avoid_leaf.
Qed.

(** The two warnings of the audio step. *)
Definition audio_warnings : list string :=
  ["Failed to add audio: "; "Error adding audio: "].

Lemma audio_trace_silent cmd o :
  (forall stderr, o <> MuxFailed stderr) -> (forall ex, o <> MuxRaised ex) ->
  Forall (avoids audio_warnings) (audio_trace cmd o).
Proof.
  intros H1 H2. destruct o as [| |stderr|ex]; try by repeat constructor.
  - by destruct (H1 stderr).
  - by destruct (H2 ex).
Qed.

(** Either no audio warning was logged in the run, or the run completed
    and left a video without audio at the output path, the temporary
    file being gone. *)
Lemma pipeline_run_audio video_path s r s' T :
  pipeline_run E task ch video_path s r s' T ->
  Forall (avoids audio_warnings) T \/
  exists results counts written Tpre,
    r = Ok results /\
    videos s' !! reconstructed_mp4 = Some (Video written false) /\
    videos s' !! replace_mp4 reconstructed_mp4 = None /\
    T = Tpre ++ rep_complete task ch results counts.
Proof.
  intros H. destruct H as
    [ ex s1 t1 Hx
    | n s1 t1 ex t2 Hx Ha Ht2
    | n s1 t1 results t2 ex s3 t3 Hx Ha Ht2 Hl
    | n s1 t1 results t2 counts s3 t3 ex s4 t4 Hx Ha Ht2 Hl Hr
    | n s1 t1 results t2 counts s3 t3 p s4 t4 Hx Ha Ht2 Hl Hr ];
    pose proof (emits_only_run _ _ _ _ _ _ (extract_frames_notes _ _ _ _) Hx) as Ht1.
  - left. unfold audio_warnings. segs; avoid_leaf.
  - left. unfold audio_warnings. segs; avoid_leaf.
  - left. apply enhance_frames_trace in Hl; [|lia..].
    apply (loop_trace_avoid audio_warnings) in Hl; [|sub_list|not_in|not_in].
    unfold audio_warnings in *. segs; avoid_leaf.
  - left. apply enhance_frames_trace in Hl; [|lia..].
    apply (loop_trace_avoid audio_warnings) in Hl; [|sub_list|not_in|not_in].
    apply reconstruct_video_run in Hr as (T0 & HT0 & -> & _).
    unfold audio_warnings in *. segs; try avoid_leaf.
    apply Forall_cons. split; [simpl; not_in|]. apply Forall_app.
    split; [avoid_leaf | by repeat constructor; simpl; try not_in].
  - apply enhance_frames_trace in Hl; [|lia..].
    apply (loop_trace_avoid audio_warnings) in Hl; [|sub_list|not_in|not_in].
    apply reconstruct_video_run in Hr as (T0 & HT0 & -> & _ & files & Hd & -> & ->).
    cbv zeta.
    set (o := audio_of E (replace_mp4 reconstructed_mp4) (Some video_path)
                reconstructed_mp4).
    set (written := omap (decoded s3 enhanced_d) (rec_frames files)).
    assert ((forall stderr, o <> MuxFailed stderr) /\ (forall ex, o <> MuxRaised ex)
            \/ (videos_after (videos s3) (replace_mp4 reconstructed_mp4)
                  reconstructed_mp4 written o
                = <[reconstructed_mp4 := Video written false]>
                    (delete (replace_mp4 reconstructed_mp4)
                       (<[replace_mp4 reconstructed_mp4 := Video written false]>
                          (videos s3))))) as [[H1 H2]|Hv].
    { destruct o; [left|left|right|right]; try done; by split. }
    + left. pose proof (audio_trace_silent
        (ffmpeg_cmd (replace_mp4 reconstructed_mp4) (default "" (Some video_path))
           reconstructed_mp4) o H1 H2).
      unfold audio_warnings in *. segs; try avoid_leaf.
      apply Forall_cons. split; [simpl; not_in|]. apply Forall_app.
      split; [avoid_leaf | done].
    + right. exists results, counts, written. eexists. split; [done|].
      simpl videos. rewrite Hv. split; [apply lookup_insert_eq|]. split.
      * rewrite lookup_insert_ne by done. apply lookup_delete_eq.
      * by rewrite !app_assoc.
Qed.

End halting.

(** ** The shape of a run *)

(** A failure event: the state FAILURE set on the task, or a message
    with the state FAILURE on the channel. *)
Definition is_failure (ev : effect) : Prop :=
  match ev with
  | UpdateState st _ => st = "FAILURE"
  | Publish _ d => d !! "state" = Some (VStr "FAILURE")
  | _ => False
  end.

(** A completion event: a report of 100 percent. *)
Definition is_completion (ev : effect) : Prop :=
  exists q, percent_of ev = Some q /\ (q == 100)%Q.

Definition terminal (ev : effect) : Prop := is_failure ev \/ is_completion ev.

(** A report of less than 100 percent (or an effect that is no report). *)
Definition running (ev : effect) : Prop :=
  match ev with
  | UpdateState st d =>
      st = "PROGRESS" /\ exists q, percent d = Some q /\ (q < 100)%Q
  | Publish _ d =>
      d !! "state" = None /\ exists q, percent d = Some q /\ (q < 100)%Q
  | _ => True
  end.

Lemma running_not_terminal ev : running ev -> ~ terminal ev.
Proof.
  destruct ev as [st d|c d| |]; simpl; intros Hr [Hf|(q & Hq & H100)]; try done.
  - destruct Hr as [-> _]. done.
  - destruct Hr as (_ & q' & Hq' & Hlt). simpl in Hq. rewrite Hq' in Hq.
    injection Hq as ->. rewrite H100 in Hlt. by apply Qlt_irrefl in Hlt.
  - destruct Hr as [Hs _]. simpl in Hf. by rewrite Hs in Hf.
  - destruct Hr as (_ & q' & Hq' & Hlt). simpl in Hq. rewrite Hq' in Hq.
    injection Hq as ->. rewrite H100 in Hlt. by apply Qlt_irrefl in Hlt.
Qed.

Ltac qle := unfold Qle, Qlt; simpl; lia.

Lemma reports_running task ch step message q meta :
  meta !! "progress_percent" = None -> meta !! "state" = None -> (q < 100)%Q ->
  Forall running (reports task ch (update_data_of step message (Some q) meta)).
Proof.
  intros Hm Hs Hq.
  pose proof (percent_update_data step message q meta Hm) as Hp.
  assert (update_data_of step message (Some q) meta !! "state" = None) as Hst.
  { unfold update_data_of. rewrite lookup_union_r by done. reflexivity. }
  unfold reports. destruct task, ch; repeat constructor; eauto.
Qed.

Lemma notes_running T : Forall is_note T -> Forall running T.
Proof. intros H. eapply Forall_impl; [done|]. by intros []. Qed.

Lemma frame_report_running total i result e c :
  0 <= i < total ->
  frame_report total i result e c !! "state" = None /\
  exists q, percent (frame_report total i result e c) = Some q /\ (q < 100)%Q.
Proof.
  intros Hi. split; [done|]. exists (frame_progress i total). split; [done|].
  eapply Qle_lt_trans; [apply frame_progress_hi; lia|]. qle.
Qed.

Lemma loop_events_running total T : Forall (loop_event total) T -> Forall running T.
Proof.
  intros H. eapply Forall_impl; [done|]. intros [st d|c d| |] Hev; try done; simpl in *.
  - destruct Hev as (-> & i & result & e & c & Hi & ->). split; [done|].
    by apply frame_report_running.
  - destruct Hev as (i & result & e & c0 & Hi & ->). by apply frame_report_running.
Qed.

Lemma mono_cons_rep task ch step message q meta lo hi T :
  meta !! "progress_percent" = None ->
  (lo <= q)%Q -> (q <= hi)%Q -> mono q hi T ->
  mono lo hi (reports task ch (update_data_of step message (Some q) meta) ++ T).
Proof.
  intros Hm Hlo Hhi HT. eapply mono_app; [exact Hlo | exact Hhi | | exact HT].
  eapply mono_weaken; [exact Hlo | apply Qle_refl | by apply mono_reports].
Qed.

Lemma mono_cons_silent t lo hi T :
  percents t = [] -> mono lo hi T -> mono lo hi (t ++ T).
Proof. intros Ht [Hs Hb]. unfold mono. by rewrite percents_app, Ht. Qed.

Lemma mono_nil lo hi : mono lo hi [].
Proof. by apply mono_silent. Qed.

Lemma failure_silent task what e : percents (failure task what e) = [].
Proof. unfold failure. by destruct task. Qed.

(** An effect that is no report. *)
Definition quiet (ev : effect) : Prop := on_data (fun _ => False) ev.

Lemma quiet_running T : Forall quiet T -> Forall running T.
Proof. intros H. eapply Forall_impl; [done|]. by intros []. Qed.

Lemma quiet_silent T : Forall quiet T -> percents T = [].
Proof.
  intros H. apply omap_nil_Forall. eapply Forall_impl; [done|]. by intros [].
Qed.

Lemma loop_trace_running total r T : loop_trace total r T -> Forall running T.
Proof.
  intros (T0 & HT0 & HT). apply loop_events_running in HT0.
  destruct HT as [->|(ex & _ & ->)]; [done|]. all_of.
Qed.

Ltac running_leaf :=
  first [ assumption | apply reports_running; [done | done | qle] ].

Ltac mono_chain :=
  unfold opening, rep_extracted, rep_analyzed, rep_processed, rep_reconstructed, rep;
  rewrite <- ?app_assoc;
  repeat first
    [ apply mono_cons_rep; [done | qle | qle |]
    | apply mono_cons_silent; [assumption|]
    | match goal with
      | H : mono 55 85 ?t |- mono _ _ (?t ++ _) =>
          apply (mono_app 55 85 95); [qle | qle | exact H |]
      end ];
  first
    [ apply mono_nil
    | apply mono_silent; assumption
    | match goal with
      | H : mono 55 85 ?t |- mono _ _ ?t =>
          eapply mono_weaken; [| | exact H]; qle
      end
    | eapply mono_weaken; [| | by apply mono_reports]; qle ].

Section shape.
Context (E : env) (task : bool) (ch : option string).

Lemma enhance_frames_mono_55 results s r s' T :
  enhance_frames E task (cb_of ch) (Z.of_nat (length results)) results 0 0 0 s
  = (r, s', T) ->
  mono 55 85 T.
Proof.
  intros H. destruct results as [|result rest].
  - injection H as <- <- <-. apply mono_nil.
  - eapply mono_weaken; [| apply Qle_refl | eapply enhance_frames_mono; [| |exact H]].
    + apply frame_progress_lo; simpl length; lia.
    + lia.
    + lia.
Qed.

(** A run of the pipeline is a sequence of reports below 100 percent,
    with non-decreasing percents, closed by the completion report or by
    the records of the handler of the step that failed. *)
Lemma pipeline_run_shape video_path s r s' T :
  pipeline_run E task ch video_path s r s' T ->
  exists Tpre,
    Forall running Tpre /\ mono 0 95 Tpre /\
    match r with
    | Ok results => exists counts, T = Tpre ++ rep_complete task ch results counts
    | Raise ex => exists what, T = Tpre ++ failure task what ex
    end.
Proof.
  intros H. destruct H as
    [ ex s1 t1 Hx
    | n s1 t1 ex t2 Hx Ha Ht2
    | n s1 t1 results t2 ex s3 t3 Hx Ha Ht2 Hl
    | n s1 t1 results t2 counts s3 t3 ex s4 t4 Hx Ha Ht2 Hl Hr
    | n s1 t1 results t2 counts s3 t3 p s4 t4 Hx Ha Ht2 Hl Hr ];
    pose proof (emits_only_run _ _ _ _ _ _ (extract_frames_notes _ _ _ _) Hx) as Ht1;
    pose proof (notes_running _ Ht1) as Hr1; pose proof (notes_silent _ Ht1) as Hs1;
    try (pose proof (notes_running _ Ht2) as Hr2; pose proof (notes_silent _ Ht2) as Hs2);
    try (pose proof (enhance_frames_mono_55 _ _ _ _ _ Hl) as Hm3;
         apply enhance_frames_trace in Hl; [|lia..];
         apply loop_trace_running in Hl);
    try (pose proof (reconstruct_video_on_data (fun _ => False) _ _ _ _ _ _ _ _ _ Hr)
           as Hq4;
         pose proof (quiet_running _ Hq4) as Hr4; pose proof (quiet_silent _ Hq4) as Hs4).
  - exists (opening task ch video_path ++ t1). split; [|split].
    + segs; running_leaf.
    + mono_chain.
    + exists "Frame extraction". by rewrite <- !app_assoc.
  - exists (opening task ch video_path ++ t1 ++ rep_extracted task ch n
              ++ rep task ch "ANALYZE" "Starting video quality analysis" 35 ∅ ++ t2).
    split; [|split].
    + segs; running_leaf.
    + mono_chain.
    + exists "Video analysis". by rewrite <- !app_assoc.
  - exists (opening task ch video_path ++ t1 ++ rep_extracted task ch n
              ++ rep task ch "ANALYZE" "Starting video quality analysis" 35 ∅ ++ t2
              ++ rep_analyzed task ch results
              ++ rep task ch "ENHANCE" "Starting frame enhancement" 55 ∅ ++ t3).
    split; [|split].
    + segs; running_leaf.
    + mono_chain.
    + exists "Frame processing". by rewrite <- !app_assoc.
  - exists (opening task ch video_path ++ t1 ++ rep_extracted task ch n
              ++ rep task ch "ANALYZE" "Starting video quality analysis" 35 ∅ ++ t2
              ++ rep_analyzed task ch results
              ++ rep task ch "ENHANCE" "Starting frame enhancement" 55 ∅ ++ t3
              ++ rep_processed task ch counts
              ++ rep task ch "RECONSTRUCT" "Starting video reconstruction" 90 ∅ ++ t4).
    split; [|split].
    + segs; running_leaf.
    + mono_chain.
    + exists "Video reconstruction". by rewrite <- !app_assoc.
  - exists (opening task ch video_path ++ t1 ++ rep_extracted task ch n
              ++ rep task ch "ANALYZE" "Starting video quality analysis" 35 ∅ ++ t2
              ++ rep_analyzed task ch results
              ++ rep task ch "ENHANCE" "Starting frame enhancement" 55 ∅ ++ t3
              ++ rep_processed task ch counts
              ++ rep task ch "RECONSTRUCT" "Starting video reconstruction" 90 ∅ ++ t4
              ++ rep_reconstructed task ch p).
    split; [|split].
    + segs; running_leaf.
    + mono_chain.
    + exists counts. by rewrite <- !app_assoc.
Qed.

End shape.

Lemma run_eta {A} (x : result A * fsys * list effect) :
  x = (outcome x, final_fs x, emitted x).
Proof. by destruct x as [[? ?] ?]. Qed.

Lemma task_failure_avoid texts task_id video_path e :
  "Pipeline task failed: " ∉ texts ->
  Forall (avoids texts) (task_failure task_id video_path e).
Proof. intros H. by repeat constructor. Qed.

Lemma task_failure_no_output task_id video_path e :
  Forall (on_data no_output) (task_failure task_id video_path e).
Proof. by repeat constructor. Qed.

(** ** The state record and the channel *)

(** The state updates of a trace, in order. *)
Definition status (T : list effect) : list effect :=
  omap (fun ev => match ev with UpdateState _ _ => Some ev | _ => None end) T.

(** The messages of a trace sent to the channel, in order. *)
Definition broadcast (T : list effect) : list effect :=
  omap (fun ev => match ev with Publish _ _ => Some ev | _ => None end) T.

(** The sequence ends with a terminal event and holds no other. *)
Definition one_terminal_last (l : list effect) : Prop :=
  exists pre last,
    l = pre ++ [last] /\ terminal last /\ Forall (fun ev => ~ terminal ev) pre.

Lemma status_app T1 T2 : status (T1 ++ T2) = status T1 ++ status T2.
Proof. apply omap_app. Qed.

Lemma status_Forall (P : effect -> Prop) T : Forall P T -> Forall P (status T).
Proof.
  induction 1 as [|ev T Hev _ IH]; [constructor|].
  destruct ev; simpl; try done. by constructor.
Qed.

Lemma status_reports ch d :
  status (reports true ch d) = [UpdateState "PROGRESS" d].
Proof. unfold reports. by destruct ch. Qed.

Lemma status_failure what e :
  status (failure true what e)
  = [UpdateState "FAILURE" {[ "error" := VStr (what +:+ " failed: " +:+ str_exn e) ]}].
Proof. reflexivity. Qed.

Lemma not_one_terminal_last pre a b :
  terminal a -> ~ one_terminal_last (pre ++ [a; b]).
Proof.
  intros Ha (pre' & last & Heq & _ & Hpre).
  change (pre ++ [a; b]) with (pre ++ [a] ++ [b]) in Heq. rewrite app_assoc in Heq.
  apply app_inj_tail in Heq as [<- _].
  apply Forall_app in Hpre as [_ Hpre]. apply Forall_cons in Hpre as [Hna _]. done.
Qed.

(** * The claims *)

(** C2. When [enhance_image] raises on a routed frame (it then leaves
    its failure record in the log), the run of the task ends right
    there: after that record come only the records of the two
    handlers, which set the state of the task to FAILURE with the error
    of the enhancement; no further frame is processed, the
    reconstruction is never started, and no dictionary sent before or
    after names an output. *)
Theorem enhancement_failure_halts_job (E : env) (task_id video_path : string)
    (s : fsys) (m : string) :
  let run := run_pipeline_task E task_id video_path s in
  Log ERROR "Image enhancement failed: " m ∈ emitted run ->
  exists T0 ex,
    outcome run = Raise ex /\ str_exn ex = m /\
    emitted run
    = T0 ++ [ Log ERROR "Image enhancement failed: " m;
              Log ERROR "Frame processing failed: " m;
              UpdateState "FAILURE"
                {[ "error" := VStr ("Frame processing failed: " +:+ m) ]};
              UpdateState "FAILURE"
                {[ "status" := VStr "Pipeline failed";
                   "error" := VStr m;
                   "video_path" := VStr video_path ]};
              Publish ("task_updates:" +:+ task_id)
                {[ "state" := VStr "FAILURE";
                   "status" := VStr "Pipeline failed";
                   "error" := VStr m ]};
              Log ERROR "Pipeline task failed: " m ] /\
    Forall (avoids ["Image enhancement failed: "]) T0 /\
    Forall (avoids ["Starting video reconstruction from: "]) (emitted run) /\
    Forall (on_data no_output) (emitted run).
Proof.
  intros run Hin.
  pose proof (run_pipeline_task_run E task_id video_path s _ _ _ (run_eta run)) as H.
  fold run in H. revert Hin.
  destruct H as
    [ ex Hf | bucket ex s' Tp Hf Hp | bucket results s' Tp ex Hf Hp Hu
    | bucket results s' Tp Hf Hp Hu ].
  - intros Hin. exfalso. revert Hin.
    apply (avoids_In ["Image enhancement failed: "]); [|in_list].
    apply task_failure_avoid. not_in.
  - apply pipeline_run_halts in Hp as [Hav|(T0 & ex' & [= <-] & -> & Hav & Hno)].
    + intros Hin. exfalso. revert Hin.
      apply (avoids_In ["Image enhancement failed: "]); [|in_list].
      apply Forall_cons. split; [done|]. apply Forall_app. split; [done|].
      apply task_failure_avoid. not_in.
    + assert (started video_path
                :: (T0 ++ Log ERROR "Image enhancement failed: " (str_exn ex)
                            :: failure true "Frame processing" ex)
                   ++ task_failure task_id video_path ex
              = (started video_path :: T0)
                  ++ Log ERROR "Image enhancement failed: " (str_exn ex)
                     :: failure true "Frame processing" ex
                        ++ task_failure task_id video_path ex) as ->
        by (by rewrite <- app_assoc).
      intros Hin.
      assert (Forall (avoids ["Image enhancement failed: "]) (started video_path :: T0))
        as Hav1.
      { apply Forall_cons. split; [done|].
        eapply avoids_weaken; [|exact Hav]. sub_list. }
      assert (m = str_exn ex) as ->.
      { apply elem_of_app in Hin as [Hin|Hin].
        { exfalso. revert Hin. by apply (avoids_In _ _ _ _ _ Hav1); in_list. }
        apply elem_of_cons in Hin as [[= ->]|Hin]; [done|].
        exfalso. revert Hin.
        apply (avoids_In ["Image enhancement failed: "]); [|in_list].
        apply Forall_app. split; [apply failure_avoid | apply task_failure_avoid]; not_in. }
      exists (started video_path :: T0), ex.
      split; [done|]. split; [done|]. split; [done|].
      split; [done|]. split.
      * apply Forall_app. split.
        { apply Forall_cons. split; [done|].
          eapply avoids_weaken; [|exact Hav]. sub_list. }
        by repeat constructor; simpl; try not_in.
      * apply Forall_app. split; [by apply Forall_cons|]. by repeat constructor.
  - apply pipeline_run_halts in Hp as [Hav|(T0 & ex' & [=] & _)].
    intros Hin. exfalso. revert Hin.
    apply (avoids_In ["Image enhancement failed: "]); [|in_list].
    apply Forall_cons. split; [done|]. apply Forall_app. split; [done|].
    apply task_failure_avoid. not_in.
  - apply pipeline_run_halts in Hp as [Hav|(T0 & ex' & [=] & _)].
    intros Hin. exfalso. revert Hin.
    apply (avoids_In ["Image enhancement failed: "]); [|in_list].
    apply Forall_cons. split; [done|]. apply Forall_app. split; [done|].
    by repeat constructor; simpl; try not_in.
Qed.

Lemma mono_sorted lo hi T : mono lo hi T -> StronglySorted Qle (percents T).
Proof. by intros [H _]. Qed.

Lemma rep_complete_mono task ch results counts :
  mono 100 100 (rep_complete task ch results counts).
Proof. unfold rep_complete, rep. by apply mono_reports. Qed.

Lemma pipeline_run_mono E task ch video_path s r s' T :
  pipeline_run E task ch video_path s r s' T -> mono 0 100 T.
Proof.
  intros H. apply pipeline_run_shape in H as (Tpre & _ & Hm & H).
  destruct r as [results|ex].
  - destruct H as (counts & ->).
    apply (mono_app 0 95 100); [qle | qle | done |].
    eapply mono_weaken; [| | apply rep_complete_mono]; qle.
  - destruct H as (what & ->).
    apply (mono_app 0 95 100); [qle | qle | done |].
    apply mono_silent, failure_silent.
Qed.

(** C1. The loop of step 3 goes through the analyzed frames in order
    and, for each frame it reaches, enters [enhance_image] if and only
    if the verdict has [blurry] or [dark]; otherwise it copies the
    file. The flags [low_resolution] and [pixelated] play no part: a
    frame that is neither blurry nor dark is copied as it is, whatever
    these two flags say, and [enhance_image] is not entered for it. *)
Theorem routing_by_blurry_or_dark (E : env) (task : bool) (ch : option string)
    (total : Z) (results : list quality_score) (i e c : Z) (s : fsys) :
  (let run := enhance_frames E task (cb_of ch) total results i e c s in
   exists k : nat,
     (k <= length results)%nat /\
     (forall counts, outcome run = Ok counts -> k = length results) /\
     actions (emitted run)
     = (fun result =>
          if blurry result || dark result
          then EnhanceImage (os_path_join frames_d (filename result) +:+ " -> "
                               +:+ os_path_join enhanced_d (filename result))
          else CopyFile [os_path_join frames_d (filename result);
                         os_path_join enhanced_d (filename result)])
       <$> take k results) /\
  (forall low_res pix name file,
     copy_source s name = Some file ->
     process_frame E task (cb_of ch) total i
       (QualityScore false false low_res pix name) e c s
     = (Ok (e, c + 1), stored s enhanced_d name file,
        [Call "shutil.copy" [os_path_join frames_d name; os_path_join enhanced_d name]])).
Proof.
  split.
  - intros run.
    destruct (enhance_frames_actions E task ch total results i e c s _ _ _ (run_eta run))
      as (k & Hk & Hok & Ha).
    exists k. split; [done|]. split; [done|]. exact Ha.
  - intros low_res pix name file Hsrc.
    unfold process_frame. simpl. unfold bind. rewrite shutil_copy_run, Hsrc.
    reflexivity.
Qed.

(** C6. During step 3 the loop reports once for each frame it routes to
    enhancement, and not at all for a frame it copies. The report for
    the frame of index [j] (counted from 0 over all analyzed frames)
    carries [current_frame = j + 1] and the percent
    [55 + (j / total) * 30]; this holds for the reports sent to the
    channel and for those recorded on the task. *)
Theorem one_report_per_enhanced_frame (E : env) (task : bool) (ch : option string)
    (results : list quality_score) (s : fsys) :
  let total := Z.of_nat (length results) in
  let run := enhance_frames E task (cb_of ch) total results 0 0 0 s in
  let expected (k : nat) :=
    omap (fun jr : Z * quality_score =>
            if blurry jr.2 || dark jr.2
            then Some (Some (VInt (jr.1 + 1)),
                       Some (VNum (55 + (inject_Z jr.1 / inject_Z total) * 30)%Q))
            else None)
         (imap (fun j result => (0 + Z.of_nat j, result)) (take k results)) in
  exists k : nat,
    (k <= length results)%nat /\
    (forall counts, outcome run = Ok counts -> k = length results) /\
    (fun d => (d !! "current_frame", d !! "progress_percent")) <$> published (emitted run)
    = match ch with
      | Some _ => expected k
      | None => []
      end /\
    (fun u => (u.1, (u.2 !! "current_frame", u.2 !! "progress_percent")))
      <$> updates (emitted run)
    = if task then (fun t => ("PROGRESS", t)) <$> expected k else [].
Proof.
  intros total run expected.
  destruct (enhance_frames_reports E task ch total results 0 0 0 s _ _ _ (run_eta run))
    as (k & Hk & Hok & Hp & Hu).
  exists k. split; [done|]. split; [done|]. split; [exact Hp | exact Hu].
Qed.

(** No effect of the trace is a call of an outside program. *)
Definition no_call (T : list effect) : Prop :=
  Forall (fun ev => match ev with Call _ _ => False | _ => True end) T.

Lemma notes_no_call T : Forall is_note T -> no_call T.
Proof. intros H. eapply Forall_impl; [done|]. by intros []. Qed.

(** C10. For a frame routed to enhancement whose image is neither
    low-resolution nor pixelated (read and write succeeding),
    [enhance_image] writes the image it read to the output, calls
    nothing outside, and returns [False]; the loop adds one to
    [enhanced_count] all the same. When the loop returns,
    [enhanced_count] has grown by the number of frames with [blurry] or
    [dark], whatever [enhance_image] did with them. *)
Theorem copy_mode_counts_as_enhanced (E : env) (task : bool) (ch : option string)
    (total i e c : Z) (result : quality_score) (s : fsys) (img : image) :
  blurry result || dark result = true ->
  outcome (imread frames_d (filename result) s) = Ok (Some img) ->
  outcome (is_low_resolution img 1280 720 s) = Ok false ->
  outcome (is_pixelated E img s) = Ok false ->
  outcome (imwrite E enhanced_d (filename result) img s) = Ok true ->
  let written := stored s enhanced_d (filename result) (Decodes img) in
  (exists T,
     enhance_image E (frames_d, filename result) (enhanced_d, filename result) s
     = (Ok false, written, T) /\ no_call T) /\
  (exists T,
     process_frame E task (cb_of ch) total i result e c s
     = (Ok (e + 1, c), written, T)) /\
  (forall rest counts s0,
     outcome (enhance_frames E task (cb_of ch) total rest i e c s0) = Ok counts ->
     counts.1 = e + count_if (fun r => blurry r || dark r) rest).
Proof.
  intros Hrouted Hread Hlow Hpix Hwrite written.
  rewrite imread_run in Hread. injection Hread as Hread.
  destruct (is_low_resolution_reads img 1280 720 s) as (t1 & E1 & F1).
  destruct (is_pixelated_reads E img s) as (t2 & E2 & F2).
  rewrite E1 in Hlow. injection Hlow as Hlow.
  rewrite E2 in Hpix. injection Hpix as Hpix.
  rewrite imwrite_run in Hwrite. injection Hwrite as Hwrite.
  assert (enhance_image E (frames_d, filename result) (enhanced_d, filename result) s
          = (Ok false, written,
             start_enhancement (frames_d, filename result) (enhanced_d, filename result)
             :: t1 ++ t2)) as Hrun.
  { unfold enhance_image, bind, try_except, emit. rewrite imread_run. cbn [fst snd].
    rewrite Hread, E1. cbv beta iota. rewrite E2. cbv beta iota.
    rewrite Hlow, Hpix. cbn [orb negb]. cbv beta iota.
    rewrite imwrite_run, Hwrite. cbn [negb]. cbv beta iota. unfold ret.
    by rewrite !app_nil_r. }
  split; [|split].
  - eexists. split; [exact Hrun|]. apply Forall_cons. split; [done|].
    apply Forall_app. split; by apply notes_no_call.
  - unfold process_frame. rewrite Hrouted. unfold bind.
    rewrite update_progress_run. fold frames_d. rewrite Hrun. by eexists.
  - intros rest counts s0 Hok.
    pose proof (run_eta (enhance_frames E task (cb_of ch) total rest i e c s0)) as Hr.
    rewrite Hok in Hr. apply enhance_frames_counts in Hr. by rewrite Hr.
Qed.

Lemma decoded_stored s d name img :
  is_Some (dirs s !! d) -> decoded (stored s d name (Decodes img)) d name = Some img.
Proof.
  intros [files Hd]. unfold decoded, stored. rewrite Hd. simpl.
  by rewrite !lookup_insert_eq.
Qed.



(** C5 (the code departs from it). For one analyzed frame that is both
    blurry and dark, no frame has its four flags false, yet both
    computations of the good count, the one of [analyze_video] and the
    one [run_pipeline] reports, subtract the frame twice and give -1. *)
Theorem good_count_subtracts_overlaps :
  let results := [QualityScore true true false false "frame_000000.jpg"] in
  good_frames results = 0 /\
  analyzer_good_count results = -1 /\
  pipeline_good_count results = -1.
Proof. by repeat split. Qed.

Lemma pipeline_run_no_failure E task ch video_path s results s' T :
  pipeline_run E task ch video_path s (Ok results) s' T ->
  Forall (fun ev => ~ is_failure ev) T.
Proof.
  intros H. apply pipeline_run_shape in H as (Tpre & Hrun & _ & counts & ->).
  apply Forall_app. split.
  - eapply Forall_impl; [exact Hrun|]. intros ev Hev Hf.
    apply (running_not_terminal ev Hev). by left.
  - unfold rep_complete, rep, reports. destruct task, ch; repeat constructor; by simpl.
Qed.

(** C9. When the frames are written and the audio step fails (ffmpeg
    returns a non-zero code, or running it raises), [reconstruct_video]
    still returns the output path, where it has moved the temporary
    video, which carries no audio. In a run of the task where this
    happened (one of the two warnings is in the log) the pipeline
    completes: it leaves that video at the output path, and once the
    upload succeeds the task returns and closes with SUCCESS, without
    any failure event. *)
Theorem audio_failure_is_not_fatal (E : env) :
  (forall frame_dir output_path original fps s,
     can_reconstruct E s frame_dir output_path ->
     original <> "" -> path_exists E original = true ->
     match subprocess_run E (ffmpeg_cmd (replace_mp4 output_path) original output_path) with
     | Ok result => result.1 <> 0
     | Raise _ => True
     end ->
     let run := reconstruct_video E frame_dir output_path (Some original) fps s in
     outcome run = Ok output_path /\
     (exists written,
        videos (final_fs run) !! output_path = Some (Video written false)) /\
     (replace_mp4 output_path <> output_path ->
      videos (final_fs run) !! replace_mp4 output_path = None) /\
     (exists text arg, text ∈ audio_warnings /\ Log WARNING text arg ∈ emitted run)) /\
  (forall task_id video_path s text arg,
     let run := run_pipeline_task E task_id video_path s in
     text ∈ audio_warnings ->
     Log WARNING text arg ∈ emitted run ->
     exists bucket results written,
       fetched E video_path = Ok bucket /\
       videos (final_fs run) !! reconstructed_mp4 = Some (Video written false) /\
       videos (final_fs run) !! replace_mp4 reconstructed_mp4 = None /\
       (minio_upload E bucket "enhanced/reconstructed.mp4" = Ok tt ->
        (exists ret, outcome run = Ok ret /\ tr_results ret = results) /\
        (exists Tp,
           emitted run
           = started video_path :: Tp ++ task_success task_id video_path bucket results) /\
        Forall (fun ev => ~ is_failure ev) (emitted run))).
Proof.
  split.
  - intros frame_dir output_path original fps s Hcan Horig Hex Hmux run.
    assert (has_original E (Some original) = true) as Hhas.
    { simpl. rewrite Hex. by apply String.eqb_neq in Horig as ->. }
    pose proof (run_eta run) as H.
    apply reconstruct_video_run in H as (T0 & HT0 & H).
    destruct (outcome run) as [p|ex]; [|by destruct H as (_ & _ & Hno)].
    destruct H as (-> & _ & files & Hd & HT & Hs). cbv zeta in HT, Hs.
    rewrite HT, Hs. clear HT Hs. unfold audio_of. rewrite Hhas. simpl default.
    destruct (subprocess_run E _) as [[rc err]|ex].
    + simpl in Hmux. apply Z.eqb_neq in Hmux. simpl fst. rewrite Hmux.
      split; [done|]. simpl. split; [eexists; apply lookup_insert_eq|]. split.
      * intros Hne. rewrite lookup_insert_ne by done. apply lookup_delete_eq.
      * exists "Failed to add audio: ", err. split; [in_list|].
        apply list_elem_of_further. apply elem_of_app. right. in_list.
    + split; [done|]. simpl. split; [eexists; apply lookup_insert_eq|]. split.
      * intros Hne. rewrite lookup_insert_ne by done. apply lookup_delete_eq.
      * exists "Error adding audio: ", (str_exn ex). split; [in_list|].
        apply list_elem_of_further. apply elem_of_app. right. in_list.
  - intros task_id video_path s text arg run Htext Hin.
    pose proof (run_pipeline_task_run E task_id video_path s _ _ _ (run_eta run)) as H.
    revert Hin.
    destruct H as
      [ ex Hf | bucket ex s' Tp Hf Hp | bucket results s' Tp ex Hf Hp Hu
      | bucket results s' Tp Hf Hp Hu ].
    + intros Hin. exfalso. revert Hin. apply (avoids_In audio_warnings); [|done].
      apply task_failure_avoid. not_in.
    + intros Hin. exfalso. revert Hin. apply (avoids_In audio_warnings); [|done].
      apply pipeline_run_audio in Hp as [Hav|(? & ? & ? & ? & [=] & _)].
      apply Forall_cons. split; [done|]. apply Forall_app. split; [done|].
      apply task_failure_avoid. not_in.
    + intros Hin.
      pose proof Hp as Hp'.
      apply pipeline_run_audio in Hp' as [Hav|(res & counts & written & Tpre & [= <-] & Hv & Ht & ->)].
      { exfalso. revert Hin. apply (avoids_In audio_warnings); [|done].
        apply Forall_cons. split; [done|]. apply Forall_app. split; [done|].
        apply task_failure_avoid. not_in. }
      exists bucket, results, written. split; [done|]. split; [done|]. split; [done|].
      intros Hup. unfold uploaded in Hu. rewrite Hv, Hup in Hu. done.
    + intros Hin.
      pose proof Hp as Hp'.
      apply pipeline_run_audio in Hp' as [Hav|(res & counts & written & Tpre & [= <-] & Hv & Ht & HT)].
      { exfalso. revert Hin. apply (avoids_In audio_warnings); [|done].
        apply Forall_cons. split; [done|]. apply Forall_app. split; [done|].
        by repeat constructor; simpl; try not_in. }
      exists bucket, results, written. split; [done|]. split; [done|]. split; [done|].
      intros Hup. split; [by eexists|]. split; [by eexists|].
      apply Forall_cons. split; [simpl; done|]. apply Forall_app. split.
      * by eapply pipeline_run_no_failure.
      * by repeat constructor; simpl; try done.
Qed.

(** ** The files of a directory *)

Lemma elem_of_listdir (files : gmap string jpg_file) name :
  name ∈ listdir files <-> is_Some (files !! name).
Proof.
  unfold listdir. rewrite list_elem_of_fmap. split.
  - intros ([k f] & -> & Hin). apply elem_of_map_to_list in Hin. by exists f.
  - intros [f Hf]. exists (name, f). split; [done|]. by apply elem_of_map_to_list.
Qed.

Lemma elem_of_sorted names name : name ∈ sorted names <-> name ∈ names.
Proof. unfold sorted. by rewrite merge_sort_Permutation. Qed.

Lemma elem_of_rec_frames files name :
  name ∈ rec_frames files <-> endswith name ".jpg" = true /\ is_Some (files !! name).
Proof.
  unfold rec_frames. by rewrite elem_of_sorted, list_elem_of_filter, elem_of_listdir.
Qed.

Lemma elem_of_frame_files files name :
  name ∈ frame_files_of files <-> endswith name ".jpg" = true /\ is_Some (files !! name).
Proof.
  unfold frame_files_of. by rewrite list_elem_of_filter, elem_of_sorted, elem_of_listdir.
Qed.





Lemma analysis_of_names E s d names :
  filename <$> analysis_of E s d names ⊆ names.
Proof.
  intros name Hin. apply list_elem_of_fmap in Hin as (q & -> & Hq).
  unfold analysis_of in Hq. apply list_elem_of_omap in Hq as (n & Hn & Hq).
  destruct (decoded s d n) as [img|]; [|done]. injection Hq as <-. done.
Qed.

(** ** Finding a log record by computation *)

Definition level_eqb (a b : level) : bool :=
  match a, b with
  | INFO, INFO | WARNING, WARNING | ERROR, ERROR => true
  | _, _ => false
  end.

Definition is_log_record (lvl : level) (text arg : string) (ev : effect) : bool :=
  match ev with
  | Log l t a => level_eqb l lvl && String.eqb t text && String.eqb a arg
  | _ => false
  end.

Lemma log_found lvl text arg T :
  existsb (is_log_record lvl text arg) T = true -> Log lvl text arg ∈ T.
Proof.
  induction T as [|ev T IH]; simpl; [done|].
  destruct (is_log_record lvl text arg ev) eqn:Hev; simpl.
  - intros _. destruct ev as [| |l t a|]; try done. simpl in Hev.
    apply andb_prop in Hev as [Hev Ha]. apply andb_prop in Hev as [Hl Ht].
    apply String.eqb_eq in Ha as ->. apply String.eqb_eq in Ht as ->.
    destruct l, lvl; try done; apply list_elem_of_here.
  - intros H. apply list_elem_of_further. by apply IH.
Qed.

(** * Witnesses *)

(** A frame flagged low-resolution only is copied. *)
Lemma routing_by_blurry_or_dark_witness :
  let s := fs_with [("frame_000000.jpg", Decodes img_small)] in
  process_frame env0 true (cb_of (Some "job-1")) 1 0
    (QualityScore false false true false "frame_000000.jpg") 0 0 s
  = (Ok (0, 0 + 1), stored s enhanced_d "frame_000000.jpg" (Decodes img_small),
     [Call "shutil.copy" [os_path_join frames_d "frame_000000.jpg";
                          os_path_join enhanced_d "frame_000000.jpg"]]).
Proof.
  intros s.
  apply (proj2 (routing_by_blurry_or_dark env0 true (Some "job-1") 1 [] 0 0 0 s)).
  vm_compute. reflexivity.
Defined.

(** The model runs out of memory on the first frame of a job. *)
Lemma enhancement_failure_halts_job_witness :
  let run := run_pipeline_task env_oom "job-1" "videos/in.mp4" empty_fs in
  Log ERROR "Image enhancement failed: " "out of memory" ∈ emitted run /\
  exists ex, outcome run = Raise ex /\ str_exn ex = "out of memory".
Proof.
  intros run.
  assert (Log ERROR "Image enhancement failed: " "out of memory" ∈ emitted run) as Hin.
  { apply log_found. vm_compute. reflexivity. }
  split; [exact Hin|].
  destruct (enhancement_failure_halts_job env_oom "job-1" "videos/in.mp4" empty_fs
              "out of memory" Hin) as (T0 & ex & Hout & Hm & _).
  exists ex. split; [exact Hout | exact Hm].
Defined.


(** Two frames, the first one blurry: one report, for frame 1, at 55 percent. *)
Lemma one_report_per_enhanced_frame_witness :
  let results := [QualityScore true false false false "frame_000000.jpg";
                  QualityScore false false true false "frame_000001.jpg"] in
  let s := fs_with [("frame_000000.jpg", Decodes img_hd);
                    ("frame_000001.jpg", Decodes img_small)] in
  (fun d => (d !! "current_frame", d !! "progress_percent"))
    <$> published (emitted (enhance_frames env0 true (cb_of (Some "job-1")) 2 results 0 0 0 s))
  = [(Some (VInt 1), Some (VNum (55 + (inject_Z 0 / inject_Z 2) * 30)%Q))].
Proof.
  intros results s.
  destruct (one_report_per_enhanced_frame env0 true (Some "job-1") results s)
    as (k & _ & Hok & Hp & _).
  rewrite (Hok (1, 1) ltac:(vm_compute; reflexivity)) in Hp. exact Hp.
Defined.

(** ffmpeg returns 1: the stage returns the output path, and the job
    completes on a video without audio. *)
Lemma audio_failure_is_not_fatal_witness :
  (let s := Fsys {[ enhanced_d := {[ "frame_000000.jpg" := Decodes img_hd ]} ]} ∅ in
   outcome (reconstruct_video env0 enhanced_d reconstructed_mp4 (Some "input.mp4") 24 s)
   = Ok reconstructed_mp4) /\
  (let run := run_pipeline_task env0 "job-1" "videos/in.mp4" empty_fs in
   Log WARNING "Failed to add audio: " "no audio stream" ∈ emitted run /\
   Forall (fun ev => ~ is_failure ev) (emitted run) /\
   exists written,
     videos (final_fs run) !! reconstructed_mp4 = Some (Video written false)).
Proof.
  split.
  - intros s.
    apply (proj1 (audio_failure_is_not_fatal env0) enhanced_d reconstructed_mp4
             "input.mp4" 24 s).
    + exists {[ "frame_000000.jpg" := Decodes img_hd ]}, "frame_000000.jpg", [],
        img_hd, 720, 1280, 3.
      repeat split; vm_compute; reflexivity.
    + discriminate.
    + reflexivity.
    + simpl. discriminate.
  - intros run.
    assert (Log WARNING "Failed to add audio: " "no audio stream" ∈ emitted run) as Hin.
    { apply log_found. vm_compute. reflexivity. }
    split; [exact Hin|].
    destruct (proj2 (audio_failure_is_not_fatal env0) "job-1" "videos/in.mp4" empty_fs
                "Failed to add audio: " "no audio stream" ltac:(in_list) Hin)
      as (bucket & results & written & _ & Hv & _ & Hup).
    destruct (Hup eq_refl) as (_ & _ & Hnf).
    split; [exact Hnf|]. exists written. exact Hv.
Defined.

(** A dark frame in full resolution: written as it was read, and counted. *)
Lemma copy_mode_counts_as_enhanced_witness :
  let result := QualityScore false true false false "frame_000001.jpg" in
  let s := fs_with [("frame_000001.jpg", Decodes img_hd)] in
  exists T,
    process_frame env0 true (cb_of (Some "job-1")) 2 1 result 0 1 s
    = (Ok (0 + 1, 1), stored s enhanced_d "frame_000001.jpg" (Decodes img_hd), T).
Proof.
  intros result s.
  apply (copy_mode_counts_as_enhanced env0 true (Some "job-1") 2 1 0 1 result s img_hd);
    vm_compute; reflexivity.
Defined.

(** * Further properties of the code *)

(** * Further properties of the code *)

(** ** Strings *)

Lemma string_app_cons c (a b : string) : String c a +:+ b = String c (a +:+ b).
Proof. reflexivity. Qed.

Lemma string_app_nil_r (s : string) : s +:+ "" = s.
Proof. induction s as [|c s IH]; [done|]. rewrite string_app_cons. by f_equal. Qed.

Lemma string_app_assoc (a b c : string) : (a +:+ b) +:+ c = a +:+ (b +:+ c).
Proof. induction a as [|x a IH]; [done|]. rewrite !string_app_cons. by f_equal. Qed.

Lemma string_app_length (a b : string) :
  String.length (a +:+ b) = (String.length a + String.length b)%nat.
Proof. induction a as [|x a IH]; [done|]. rewrite string_app_cons. simpl. by f_equal. Qed.

Lemma rev_app_spec (s acc : string) : String.rev_app s acc = String.rev s +:+ acc.
Proof.
  unfold String.rev. revert acc. induction s as [|c s IH]; intros acc; [done|].
  simpl String.rev_app. rewrite (IH (String c "")), IH, string_app_assoc. done.
Qed.

Lemma string_rev_cons c (s : string) : String.rev (String c s) = String.rev s +:+ String c "".
Proof. unfold String.rev at 1. simpl. apply rev_app_spec. Qed.

Lemma string_rev_app (a b : string) : String.rev (a +:+ b) = String.rev b +:+ String.rev a.
Proof.
  induction a as [|c a IH].
  - simpl. by rewrite string_app_nil_r.
  - rewrite string_app_cons, !string_rev_cons, IH, string_app_assoc. done.
Qed.

Lemma prefix_app (a b : string) : String.prefix a (a +:+ b) = true.
Proof.
  induction a as [|c a IH]; [by destruct b|].
  rewrite string_app_cons. simpl. by destruct (ascii_dec c c).
Qed.

Lemma endswith_app (a b : string) : endswith (a +:+ b) b = true.
Proof. unfold endswith. rewrite string_rev_app. apply prefix_app. Qed.

Lemma string_app_inv_tail (a b c : string) : a +:+ c = b +:+ c -> a = b.
Proof.
  intros H. apply (f_equal String.rev) in H. rewrite !string_rev_app in H.
  apply String.app_inj in H.
  assert (forall x y, String.rev x = String.rev y -> x = y) as Hinj.
  { intros x y Hxy. apply (f_equal String.rev) in Hxy.
    assert (forall z, String.rev (String.rev z) = z) as Hinv.
    { induction z as [|k z IHz]; [done|].
      rewrite string_rev_cons, string_rev_app, IHz. done. }
    by rewrite !Hinv in Hxy. }
  by apply Hinj.
Qed.

(** ** The names of the frame files *)

(** [int(s)] for a string of decimal digits. *)
Definition int_of_digits (s : string) : option Z :=
  Z.of_int <$> NilZero.int_of_string s.

Lemma zfill_go_reads k : forall s d,
  (forall s', s <> String "-" s') ->
  NilZero.uint_of_string s = Some d ->
  int_of_digits (zfill_go k s) = Some (Z.of_uint d).
Proof.
  induction k as [|k IH]; intros s d Hminus Hs.
  - simpl. unfold int_of_digits, NilZero.int_of_string.
    destruct s as [|a s']; [done|].
    destruct (Ascii.eqb_spec a "-") as [->|_]; [by destruct (Hminus s')|].
    by rewrite Hs.
  - simpl. rewrite (IH ("0" +:+ s) (Decimal.D0 d)); [done|done|].
    destruct s as [|a s']; [done|]. simpl in *. by rewrite Hs.
Qed.

Lemma str_int_reads n :
  0 <= n ->
  exists d, NilZero.uint_of_string (str_int n) = Some d /\ Z.of_uint d = n /\
            forall s', str_int n <> String "-" s'.
Proof.
  intros Hn. unfold str_int. destruct n as [|p|p]; [by eexists| |lia].
  exists (Pos.to_uint p). simpl.
  pose proof (NilZero.usu (Pos.to_uint p) (Unsigned.to_uint_nonnil p)) as Hu.
  split; [done|]. split.
  - unfold Z.of_uint. by rewrite Unsigned.of_to.
  - intros s' Hs. rewrite Hs in Hu. simpl in Hu. by destruct (NilEmpty.uint_of_string s').
Qed.

Lemma fmt_06d_reads n : 0 <= n -> int_of_digits (fmt_06d n) = Some n.
Proof.
  intros Hn. destruct (str_int_reads n Hn) as (d & Hd & <- & Hminus).
  unfold fmt_06d. by apply zfill_go_reads.
Qed.

Lemma zfill_go_length k s :
  String.length (zfill_go k s) = (k + String.length s)%nat.
Proof.
  revert s. induction k as [|k IH]; intros s; [done|].
  cbn [zfill_go]. rewrite IH. change ("0" +:+ s) with (String "0" s). cbn [String.length]. lia.
Qed.

Lemma fmt_06d_length n : (6 <= String.length (fmt_06d n))%nat.
Proof. unfold fmt_06d. rewrite zfill_go_length. lia. Qed.

Lemma frame_name_inj a b : 0 <= a -> 0 <= b -> frame_name a = frame_name b -> a = b.
Proof.
  intros Ha Hb H. unfold frame_name in H. apply String.app_inj in H.
  apply string_app_inv_tail in H.
  apply fmt_06d_reads in Ha, Hb. rewrite H in Ha. congruence.
Qed.

Lemma frame_name_jpg n : endswith (frame_name n) ".jpg" = true.
Proof.
  unfold frame_name. rewrite <- string_app_assoc. apply endswith_app.
Qed.

(** The order of the names, checked frame by frame: [names_in_order n]
    compares the name of frame [n] with the next one. *)
Definition names_in_order (n : Z) : bool :=
  String.leb (frame_name n) (frame_name (n + 1)).

Definition order_step (st : Z * bool) : Z * bool :=
  (st.1 + 1, st.2 && names_in_order st.1).

Lemma order_steps_fst p z b : (Pos.iter order_step (z, b) p).1 = z + Z.pos p.
Proof.
  induction p as [|p IH] using Pos.peano_ind; [done|].
  rewrite Pos.iter_succ. simpl. rewrite IH. lia.
Qed.

Lemma order_steps_snd p z :
  (Pos.iter order_step (z, true) p).2 = true ->
  forall n, z <= n < z + Z.pos p -> names_in_order n = true.
Proof.
  induction p as [|p IH] using Pos.peano_ind.
  - simpl. intros H n Hn. by replace n with z by lia.
  - rewrite Pos.iter_succ. simpl. rewrite order_steps_fst.
    intros [H1 H2]%andb_prop n Hn.
    destruct (decide (n = z + Z.pos p)) as [->|Hne]; [done|].
    apply IH; [done|lia].
Qed.

Lemma frame_names_adjacent n :
  0 <= n < 999999 -> String.le (frame_name n) (frame_name (n + 1)).
Proof.
  intros Hn. apply Is_true_true. fold (names_in_order n).
  apply (order_steps_snd 999999 0); [|lia].
  vm_cast_no_check (eq_refl true).
Qed.

Lemma frame_names_monotone a b :
  0 <= a -> a <= b -> b < 1000000 -> String.le (frame_name a) (frame_name b).
Proof.
  intros Ha Hab Hb. replace b with (a + Z.of_nat (Z.to_nat (b - a))) in * by lia.
  generalize dependent (Z.to_nat (b - a)). clear b. intros k _ Hb.
  induction k as [|k IH].
  - rewrite Z.add_0_r. reflexivity.
  - etransitivity; [apply IH; lia|].
    replace (a + Z.of_nat (S k)) with (a + Z.of_nat k + 1) by lia.
    apply frame_names_adjacent. lia.
Qed.

(** ** Splitting the object path *)

(** Whether [s] holds a slash. *)
Fixpoint has_slash (s : string) : bool :=
  match s with
  | EmptyString => false
  | String c rest => Ascii.eqb c "/" || has_slash rest
  end.

Lemma split_slash_none s : split_slash s = None <-> has_slash s = false.
Proof.
  induction s as [|c s IH]; [done|]. simpl.
  destruct (Ascii.eqb c "/"); [done|]. simpl. rewrite <- IH.
  destruct (split_slash s) as [[a b]|]; done.
Qed.

Lemma split_slash_some s a b :
  split_slash s = Some (a, b) <-> s = a +:+ "/" +:+ b /\ has_slash a = false.
Proof.
  revert a. induction s as [|c s IH]; intros a.
  - split; [done|]. intros [H _]. by destruct a.
  - simpl. destruct (Ascii.eqb_spec c "/") as [->|Hc].
    + split.
      * intros [= <- <-]. done.
      * intros [H Ha]. destruct a as [|x a]; simpl in H, Ha.
        { by injection H as ->. }
        injection H as <- _. done.
    + split.
      * destruct (split_slash s) as [[a' b']|] eqn:Hs in |- *; [|done].
        intros [= <- <-]. apply IH in Hs as [-> Ha]. split; [done|].
        simpl. by destruct (Ascii.eqb_spec c "/").
      * intros [H Ha]. destruct a as [|x a]; simpl in H, Ha.
        { by injection H as ->. }
        injection H as <- ->. apply orb_false_elim in Ha as [_ Ha].
        by rewrite (proj2 (IH a) (conj eq_refl Ha)).
Qed.

(** ** The path of the temporary video *)

(** Whether [".mp4"] occurs in [s]. *)
Fixpoint has_mp4 (s : string) : bool :=
  match s with
  | EmptyString => false
  | String c rest => String.prefix ".mp4" s || has_mp4 rest
  end.

Lemma replace_mp4_none s : has_mp4 s = false -> replace_mp4 s = s.
Proof.
  unfold replace_mp4. induction s as [|c s IH]; [done|].
  intros [Hp Hs]%orb_false_elim. cbn [replace_mp4_go]. rewrite Hp, IH; done.
Qed.

(** An occurrence cannot start in the stem and end in the extension. *)
Lemma prefix_mp4_stem c (rest : string) :
  String.prefix ".mp4" (String c rest) = false ->
  String.prefix ".mp4" (String c (rest +:+ ".mp4")) = false.
Proof.
  cbn [String.prefix]. destruct (ascii_dec "." c) as [_|]; [|done].
  destruct rest as [|c1 rest]; [done|]. rewrite string_app_cons. cbn [String.prefix].
  destruct (ascii_dec "m" c1) as [_|]; [|done].
  destruct rest as [|c2 rest]; [done|]. rewrite string_app_cons. cbn [String.prefix].
  destruct (ascii_dec "p" c2) as [_|]; [|done].
  destruct rest as [|c3 rest]; [done|]. rewrite string_app_cons. cbn [String.prefix].
  destruct (ascii_dec "4" c3) as [_|]; [|done].
  by destruct rest.
Qed.

Lemma replace_mp4_stem stem :
  has_mp4 stem = false -> replace_mp4 (stem +:+ ".mp4") = stem +:+ "_temp.mp4".
Proof.
  unfold replace_mp4. induction stem as [|c stem IH]; [done|].
  intros [Hp Hs]%orb_false_elim. rewrite !string_app_cons. cbn [replace_mp4_go].
  rewrite (prefix_mp4_stem _ _ Hp), IH; done.
Qed.

(** ** Counting the good frames *)

Lemma pipeline_good_count_split results :
  pipeline_good_count results + count_if (fun r => blurry r && dark r) results
  = count_if (fun r => negb (routed r)) results.
Proof.
  unfold pipeline_good_count. induction results as [|r l IH].
  - by rewrite !count_if_nil.
  - rewrite !count_if_cons. cbn [length]. unfold routed in *.
    destruct (blurry r), (dark r); simpl; lia.
Qed.

(** The number of flags a verdict has. *)
Definition flags_set (r : quality_score) : Z :=
  Z.b2z (blurry r) + Z.b2z (dark r) + Z.b2z (low_resolution r) + Z.b2z (pixelated r).

Lemma analyzer_good_count_bound results :
  let unflagged :=
    count_if (fun r => negb (blurry r || dark r || low_resolution r || pixelated r))
      results in
  analyzer_good_count results <= unflagged /\
  (analyzer_good_count results = unflagged <-> Forall (fun r => flags_set r <= 1) results).
Proof.
  unfold analyzer_good_count. induction results as [|r l [IH1 IH2]].
  - rewrite !count_if_nil. simpl. split; [lia|]. split; [constructor | lia].
  - rewrite !count_if_cons in *. cbn [length]. rewrite Forall_cons.
    cbv zeta in *. unfold flags_set.
    destruct (blurry r), (dark r), (low_resolution r), (pixelated r); simpl;
      (split; [lia|]); rewrite <- IH2; lia.
Qed.

(** ** Clipping *)

Lemma clip_uint8_range output :
  Forall (fun v => 0 <= v <= 255) (pixels (clip_uint8 output)).
Proof.
  unfold clip_uint8. simpl. induction (pixels output) as [|v l IH]; simpl; [done|].
  constructor; [lia | done].
Qed.

Lemma clip_uint8_id output :
  Forall (fun v => 0 <= v <= 255) (pixels output) -> clip_uint8 output = output.
Proof.
  destruct output as [sh px]. unfold clip_uint8. simpl. intros H. f_equal.
  induction H as [|v l Hv _ IH]; simpl; [done|]. f_equal; [lia | done].
Qed.

(** ** The files extraction leaves *)

(** The directory once [frames] are saved under the names of the
    counters [saved], [saved + 1], ... *)
Fixpoint with_frames (files : gmap string jpg_file) (saved : Z) (frames : list image)
  : gmap string jpg_file :=
  match frames with
  | [] => files
  | frame :: rest =>
      with_frames (<[frame_name saved := Decodes frame]> files) (saved + 1) rest
  end.

Lemma with_frames_old files frames : forall saved name,
  (forall i, 0 <= i < Z.of_nat (length frames) -> name <> frame_name (saved + i)) ->
  with_frames files saved frames !! name = files !! name.
Proof.
  revert files. induction frames as [|f rest IH]; intros files saved name Hne; [done|].
  cbn [with_frames]. rewrite IH.
  - apply lookup_insert_ne. intros <-. apply (Hne 0); [simpl length; lia|].
    by rewrite Z.add_0_r.
  - intros i Hi. replace (saved + 1 + i) with (saved + (i + 1)) by lia.
    apply Hne. simpl length. lia.
Qed.

Lemma with_frames_new files frames : forall saved (i : nat) frame,
  0 <= saved -> frames !! i = Some frame ->
  with_frames files saved frames !! frame_name (saved + Z.of_nat i) = Some (Decodes frame).
Proof.
  revert files. induction frames as [|f rest IH]; intros files saved i frame Hs Hi; [done|].
  cbn [with_frames]. destruct i as [|i].
  - injection Hi as ->. rewrite Z.add_0_r. rewrite with_frames_old.
    + apply lookup_insert_eq.
    + intros j Hj Heq. apply frame_name_inj in Heq; lia.
  - replace (saved + Z.of_nat (S i)) with (saved + 1 + Z.of_nat i) by lia.
    apply IH; [lia | done].
Qed.

Lemma with_frames_dom files frames : forall saved name,
  is_Some (with_frames files saved frames !! name) <->
  is_Some (files !! name) \/
  exists i, 0 <= i < Z.of_nat (length frames) /\ name = frame_name (saved + i).
Proof.
  revert files. induction frames as [|f rest IH]; intros files saved name.
  - simpl. split; [by left|]. intros [H|(i & Hi & _)]; [done | lia].
  - cbn [with_frames]. rewrite IH. cbn [length]. split.
    + intros [H|(i & Hi & ->)].
      * destruct (decide (name = frame_name saved)) as [->|Hne].
        { right. exists 0. split; [lia|]. by rewrite Z.add_0_r. }
        left. by rewrite lookup_insert_ne in H.
      * right. exists (i + 1). split; [lia|]. f_equal. lia.
    + intros [H|(i & Hi & ->)].
      * left. destruct (decide (name = frame_name saved)) as [->|Hne].
        { rewrite lookup_insert_eq. by eexists. }
        by rewrite lookup_insert_ne.
      * destruct (decide (i = 0)) as [->|Hne].
        { left. rewrite Z.add_0_r, lookup_insert_eq. by eexists. }
        right. exists (i - 1). split; [lia|]. f_equal. lia.
Qed.

(** With every write succeeding, the loop saves the frame read in
    [k]-th place under the name of the counter [saved + k]. *)
Lemma extract_loop_all_files E d fps reads : forall saved s files,
  (forall p img, imwrite_ok E p img = true) ->
  dirs s !! d = Some files ->
  extract_loop E d true fps reads saved s
  = (Ok (saved + Z.of_nat (length (readable reads))),
     Fsys (<[d := with_frames files saved (readable reads)]> (dirs s)) (videos s),
     []).
Proof.
  intros saved s files Hok. revert saved s files.
  induction reads as [|[frame|] rest IH]; intros saved s files Hd;
    cbn [extract_loop readable with_frames length].
  - unfold ret. rewrite Z.add_0_r, insert_id by done. by destruct s.
  - unfold bind. rewrite imwrite_run. unfold can_write, stored. rewrite Hd, Hok.
    rewrite (IH (saved + 1) _ (<[frame_name saved := Decodes frame]> files)).
    + simpl. rewrite insert_insert_eq. do 3 f_equal. lia.
    + simpl. apply lookup_insert_eq.
  - unfold ret. rewrite Z.add_0_r, insert_id by done. by destruct s.
Qed.

(** The directory [extract_frames] works on: the one found, or a new
    empty one. *)
Definition dir_of (s : fsys) (d : string) : gmap string jpg_file :=
  default ∅ (dirs s !! d).

Lemma extract_frames_all_run E video_path d s cap :
  capture E video_path = Some cap ->
  (forall p img, imwrite_ok E p img = true) ->
  extract_frames E video_path d true s
  = (Ok (Z.of_nat (length (readable (cap_reads cap)))),
     Fsys (<[d := with_frames (dir_of s d) 0 (readable (cap_reads cap))]> (dirs s))
       (videos s),
     [Log INFO "Starting frame extraction from: " video_path]).
Proof.
  intros Hc Hok. unfold extract_frames, bind, emit, try_except. rewrite Hc.
  unfold makedirs, bind, get_fs, put_fs, ret, dir_of.
  destruct (dirs s !! d) as [files|] eqn:Hd; simpl.
  - rewrite (extract_loop_all_files _ _ _ _ _ _ files Hok Hd). done.
  - rewrite (extract_loop_all_files _ _ _ _ _ _ ∅ Hok); [|apply lookup_insert_eq].
    simpl. by rewrite insert_insert_eq.
Qed.

(** ** The order in which the frames are listed *)

Lemma StronglySorted_filter {A} (R : relation A) (P : A -> Prop)
    `{!forall x, Decision (P x)} (l : list A) :
  StronglySorted R l -> StronglySorted R (filter P l).
Proof.
  induction 1 as [|x l Hl IH Hx]; [constructor|].
  rewrite filter_cons. destruct (decide (P x)); [|done].
  constructor; [done|]. apply Forall_forall. intros y [_ Hy]%list_elem_of_filter.
  rewrite Forall_forall in Hx. by apply Hx.
Qed.

Lemma sorted_strongly names : StronglySorted String.le (sorted names).
Proof. apply StronglySorted_merge_sort; apply _. Qed.

Lemma frame_names_strongly m : forall k : nat,
  0 <= m -> m + Z.of_nat k <= 1000000 ->
  StronglySorted String.le (frame_name <$> seqZ m (Z.of_nat k)).
Proof.
  intros k. revert m. induction k as [|k IH]; intros m Hm Hk; [constructor|].
  rewrite seqZ_cons by lia. rewrite fmap_cons. constructor.
  - replace (Z.pred (Z.of_nat (S k))) with (Z.of_nat k) by lia. apply IH; lia.
  - apply Forall_fmap, Forall_seqZ. intros j Hj. simpl.
    apply frame_names_monotone; lia.
Qed.

Lemma NoDup_listdir files : NoDup (listdir files).
Proof. apply NoDup_fst_map_to_list. Qed.

Lemma NoDup_frame_names m k : 0 <= m -> NoDup (frame_name <$> seqZ m k).
Proof.
  intros Hm. apply NoDup_fmap_2_strong; [|apply NoDup_seqZ].
  intros a b Ha%elem_of_seqZ Hb%elem_of_seqZ. apply frame_name_inj; lia.
Qed.

(** A directory with no [.jpg] file of its own, once the frames are
    saved in it: listed in sorted order, the frame files come out in
    the order of the counters, as long as six digits suffice. *)
Lemma frame_files_of_with_frames files frames :
  (forall name, is_Some (files !! name) -> endswith name ".jpg" = false) ->
  Z.of_nat (length frames) <= 1000000 ->
  frame_files_of (with_frames files 0 frames)
  = frame_name <$> seqZ 0 (Z.of_nat (length frames)).
Proof.
  intros Hold Hlen. apply (StronglySorted_unique String.le).
  - apply StronglySorted_filter, sorted_strongly.
  - apply frame_names_strongly; lia.
  - apply NoDup_Permutation.
    + apply NoDup_filter. unfold sorted. rewrite merge_sort_Permutation.
      apply NoDup_listdir.
    + by apply NoDup_frame_names.
    + intros name. rewrite elem_of_frame_files, with_frames_dom, list_elem_of_fmap.
      split.
      * intros [Hjpg [Hin|(i & Hi & ->)]].
        { apply Hold in Hin. congruence. }
        exists i. split; [done|]. apply elem_of_seqZ. lia.
      * intros (i & -> & Hi%elem_of_seqZ). split; [apply frame_name_jpg|].
        right. exists i. split; [lia | done].
Qed.

Lemma rec_frames_with_frames files frames :
  (forall name, is_Some (files !! name) -> endswith name ".jpg" = false) ->
  Z.of_nat (length frames) <= 1000000 ->
  rec_frames (with_frames files 0 frames)
  = frame_name <$> seqZ 0 (Z.of_nat (length frames)).
Proof.
  intros Hold Hlen. apply (StronglySorted_unique String.le).
  - apply sorted_strongly.
  - apply frame_names_strongly; lia.
  - apply NoDup_Permutation.
    + unfold rec_frames, sorted. rewrite merge_sort_Permutation.
      apply NoDup_filter, NoDup_listdir.
    + by apply NoDup_frame_names.
    + intros name. rewrite elem_of_rec_frames, with_frames_dom, list_elem_of_fmap.
      split.
      * intros [Hjpg [Hin|(i & Hi & ->)]].
        { apply Hold in Hin. congruence. }
        exists i. split; [done|]. apply elem_of_seqZ. lia.
      * intros (i & -> & Hi%elem_of_seqZ). split; [apply frame_name_jpg|].
        right. exists i. split; [lia | done].
Qed.

(** Reading the frames back by their names. *)
Lemma omap_frame_names {B} (g : string -> option B) (h : Z -> image -> B)
    (frames : list image) : forall saved,
  (forall (i : nat) frame, frames !! i = Some frame ->
     g (frame_name (saved + Z.of_nat i)) = Some (h (saved + Z.of_nat i) frame)) ->
  omap g (frame_name <$> seqZ saved (Z.of_nat (length frames)))
  = imap (fun i frame => h (saved + Z.of_nat i) frame) frames.
Proof.
  induction frames as [|f rest IH]; intros saved Hg; [done|].
  cbn [length]. rewrite seqZ_cons by lia. rewrite fmap_cons. cbn [omap list_omap].
  pose proof (Hg 0%nat f eq_refl) as H0. rewrite Z.add_0_r in H0. rewrite H0.
  cbn [imap]. rewrite Z.add_0_r. f_equal.
  replace (Z.pred (Z.of_nat (S (length rest)))) with (Z.of_nat (length rest)) by lia.
  rewrite (IH (Z.succ saved)).
  - apply imap_ext. intros i x _. simpl. f_equal. lia.
  - intros i frame Hi. specialize (Hg (S i) frame Hi).
    replace (Z.succ saved + Z.of_nat i) with (saved + Z.of_nat (S i)) by lia. done.
Qed.

(** ** Sampling the frames *)

(** [int(video_fps // 1) if video_fps > 0 else 1] *)
Definition interval_of (video_fps : Q) : Z :=
  if Qlt_le_dec 0 video_fps then Qfloor video_fps else 1.

Lemma interval_of_nonneg fps : 0 <= interval_of fps.
Proof.
  unfold interval_of. destruct (Qlt_le_dec 0 fps) as [H|H]; [|lia].
  change 0 with (Qfloor 0). apply Qfloor_resp_le. by apply Qlt_le_weak.
Qed.

Lemma interval_of_zero fps : (0 < fps)%Q -> (fps < 1)%Q -> interval_of fps = 0.
Proof.
  intros H0 H1. unfold interval_of. destruct (Qlt_le_dec 0 fps) as [_|H]; [|lra].
  pose proof (Qfloor_le fps) as Hle. pose proof (Qlt_floor fps) as Hlt.
  assert (0 <= Qfloor fps).
  { change 0 with (Qfloor 0). apply Qfloor_resp_le. lra. }
  assert (Qfloor fps < 1).
  { rewrite Zlt_Qlt. change (inject_Z 1) with 1%Q. lra. }
  lia.
Qed.

Lemma interval_of_one fps : (fps <= 0 \/ 1 <= fps /\ fps < 2)%Q -> interval_of fps = 1.
Proof.
  intros H. unfold interval_of. destruct (Qlt_le_dec 0 fps) as [H0|H0]; [|done].
  destruct H as [H|[H1 H2]]; [lra|].
  pose proof (Qfloor_le fps) as Hle. pose proof (Qlt_floor fps) as Hlt.
  assert (1 <= Qfloor fps).
  { change 1 with (Qfloor 1). by apply Qfloor_resp_le. }
  assert (Qfloor fps < 2).
  { rewrite Zlt_Qlt. change (inject_Z 2) with 2%Q. lra. }
  lia.
Qed.

Lemma interval_of_pos fps : (fps <= 0 \/ 1 <= fps)%Q -> 0 < interval_of fps.
Proof.
  intros H. unfold interval_of. destruct (Qlt_le_dec 0 fps) as [H0|H0]; [|done].
  destruct H as [H|H]; [lra|].
  assert (1 <= Qfloor fps); [|lia].
  change 1 with (Qfloor 1). by apply Qfloor_resp_le.
Qed.

(** With a frame interval of zero the first frame read stops the loop. *)
Lemma extract_loop_sampling_zero E d fps frame rest saved s :
  interval_of fps = 0 ->
  exists msg,
    extract_loop E d false fps (Some frame :: rest) saved s
    = (Raise (ZeroDivisionError msg), s, []).
Proof.
  intros Hk. cbn [extract_loop]. fold (interval_of fps). rewrite Hk. simpl.
  by eexists.
Qed.

(** With a positive interval the loop returns, and its counter has
    moved by one for each frame read and by one more for each frame
    saved. *)
Lemma extract_loop_sampling_run E d fps reads : forall saved s,
  0 < interval_of fps ->
  is_Some (dirs s !! d) ->
  exists n s' T,
    extract_loop E d false fps reads saved s = (Ok n, s', T) /\
    saved + Z.of_nat (length (readable reads)) <= n
      <= saved + 2 * Z.of_nat (length (readable reads)) /\
    ((forall p img, imwrite_ok E p img = true) -> interval_of fps = 1 ->
     n = saved + 2 * Z.of_nat (length (readable reads))).
Proof.
  intros saved s Hk. revert saved s.
  induction reads as [|[frame|] rest IH]; intros saved s Hd;
    cbn [extract_loop readable length].
  - exists saved, s, []. split; [done|]. split; lia.
  - fold (interval_of fps). destruct (Z.eqb_spec (interval_of fps) 0) as [|_]; [lia|].
    destruct (saved mod interval_of fps =? 0) eqn:Hmod.
    + unfold bind. rewrite imwrite_run. unfold can_write.
      destruct Hd as [files Hd]. rewrite Hd.
      destruct (imwrite_ok E (os_path_join d (frame_name saved)) frame) eqn:Hw.
      * destruct (IH (saved + 1 + 1) (stored s d (frame_name saved) (Decodes frame)))
          as (n & s' & T & Hrun & Hn & Hall).
        { apply stored_dir. by rewrite Hd. }
        rewrite Hrun. eexists n, s', _. split; [done|]. split; [lia|].
        intros Hok H1. specialize (Hall Hok H1). lia.
      * destruct (IH (saved + 1) s) as (n & s' & T & Hrun & Hn & Hall); [by rewrite Hd|].
        unfold emit. rewrite Hrun. eexists n, s', _. split; [done|]. split; [lia|].
        intros Hok. by rewrite Hok in Hw.
    + destruct (IH (saved + 1) s Hd) as (n & s' & T & Hrun & Hn & Hall).
      rewrite Hrun. eexists n, s', _. split; [done|]. split; [lia|].
      intros Hok H1. rewrite H1, Z.mod_1_r in Hmod. done.
  - exists saved, s, []. split; [done|]. split; lia.
Qed.

(** ** Extraction and what follows it *)

(** X1. Two different counters never give the same frame file name,
    however many digits they need, and every frame file name ends in
    [.jpg]: a frame saved by [extract_frames] has a file of its own,
    which the [.jpg] filters of [analyze_video] and [reconstruct_video]
    let through. *)
Theorem frame_names_distinct (a b : Z) :
  0 <= a -> 0 <= b -> a <> b ->
  frame_name a <> frame_name b /\
  endswith (frame_name a) ".jpg" = true /\
  int_of_digits (fmt_06d a) = Some a.
Proof.
  intros Ha Hb Hne. split; [|split].
  - intros H. by apply frame_name_inj in H.
  - apply frame_name_jpg.
  - by apply fmt_06d_reads.
Qed.

Lemma frame_names_distinct_witness :
  frame_name 7 <> frame_name 1234567 /\
  endswith (frame_name 7) ".jpg" = true /\
  int_of_digits (fmt_06d 7) = Some 7.
Proof. apply frame_names_distinct; lia. Defined.

(** X2. Below one million frames the sorted order of the frame file
    names is the order of the counters, so [sorted(os.listdir(...))]
    lists the frames in the order they were saved. With the seventh
    digit this ends: the name of frame 1000000 sorts before the name of
    frame 999999. *)
Theorem frame_names_sort_in_frame_order :
  (forall a b, 0 <= a -> a < b -> b < 1000000 ->
     String.le (frame_name a) (frame_name b) /\ frame_name a <> frame_name b) /\
  String.le (frame_name 1000000) (frame_name 999999) /\
  frame_name 1000000 <> frame_name 999999.
Proof.
  split; [|split].
  - intros a b Ha Hab Hb. split.
    + apply frame_names_monotone; lia.
    + intros H. apply frame_name_inj in H; lia.
  - by apply Is_true_true.
  - done.
Qed.

Lemma frame_names_sort_in_frame_order_witness :
  String.le (frame_name 9) (frame_name 10) /\ frame_name 9 <> frame_name 10.
Proof. apply (proj1 frame_names_sort_in_frame_order); lia. Defined.

(** X3. Extraction followed by analysis: when the frame directory holds
    no [.jpg] file beforehand, every write succeeds and the source
    yields at least one and at most a million frames, [analyze_video]
    returns one verdict per frame, in the order of the frames, the
    [i]-th one being the verdict of the [i]-th frame under the name of
    the counter [i]. *)
Theorem analysis_follows_extraction (E : env) (video_path d : string) (s : fsys)
    (cap : video_capture) :
  capture E video_path = Some cap ->
  (forall p img, imwrite_ok E p img = true) ->
  (forall name, is_Some (dir_of s d !! name) -> endswith name ".jpg" = false) ->
  let frames := readable (cap_reads cap) in
  frames <> [] ->
  Z.of_nat (length frames) <= 1000000 ->
  let s1 := final_fs (extract_frames E video_path d true s) in
  outcome (analyze_video E d s1)
  = Ok (imap (fun i frame => set_filename (score_of E frame) (frame_name (Z.of_nat i)))
          frames).
Proof.
  intros Hc Hok Hold frames Hne Hlen s1.
  destruct (analyze_video_run E d s1) as (T & -> & _). unfold outcome. simpl.
  unfold s1. rewrite (extract_frames_all_run _ _ _ _ _ Hc Hok).
  unfold final_fs, analyze_outcome. simpl. rewrite lookup_insert_eq.
  rewrite frame_files_of_with_frames by done. fold frames.
  destruct frames as [|f0 frames'] eqn:Hfr; [done|]. rewrite <- Hfr in *.
  assert (frame_name <$> seqZ 0 (Z.of_nat (length frames)) <> []) as Hnames.
  { rewrite Hfr. cbn [length]. by rewrite seqZ_cons by lia. }
  destruct (frame_name <$> seqZ 0 (Z.of_nat (length frames))) as [|n0 names] eqn:Hn;
    [done|]. rewrite <- Hn. clear Hnames. f_equal. unfold analysis_of.
  rewrite (omap_frame_names _
             (fun i frame => set_filename (score_of E frame) (frame_name i)) frames 0).
  - apply imap_ext. intros i x _. simpl. by rewrite Z.add_0_l.
  - intros i frame Hi. rewrite Z.add_0_l. unfold decoded. simpl.
    rewrite lookup_insert_eq.
    by rewrite <- (Z.add_0_l (Z.of_nat i)), (with_frames_new _ _ 0 i frame).
Qed.

Lemma analysis_follows_extraction_witness :
  outcome (analyze_video env0 frames_d
             (final_fs (extract_frames env0 "input.mp4" frames_d true empty_fs)))
  = Ok [set_filename (score_of env0 img_small) (frame_name 0);
        set_filename (score_of env0 img_hd) (frame_name 1)].
Proof.
  apply (analysis_follows_extraction env0 "input.mp4" frames_d empty_fs two_frames).
  - reflexivity.
  - reflexivity.
  - intros name [f Hf]. by vm_compute in Hf.
  - discriminate.
  - simpl. lia.
Defined.

(** X4. Sampling ([extract_all_frames] false) with a frame rate between
    0 and 1: the frame interval [int(video_fps // 1)] is 0, so the
    first frame read raises a [ZeroDivisionError] at the modulo; the
    handler logs it and re-raises, and no frame is saved. *)
Theorem sampling_slow_video_raises (E : env) (video_path d : string) (s : fsys)
    (cap : video_capture) (frame : image) (rest : list (option image)) :
  capture E video_path = Some cap ->
  (0 < cap_fps cap)%Q -> (cap_fps cap < 1)%Q ->
  cap_reads cap = Some frame :: rest ->
  let run := extract_frames E video_path d false s in
  exists msg,
    outcome run = Raise (ZeroDivisionError msg) /\
    emitted run = [Log INFO "Starting frame extraction from: " video_path;
                   Log ERROR "Error during frame extraction: " msg] /\
    dir_of (final_fs run) d = dir_of s d.
Proof.
  intros Hc H0 H1 Hreads run. unfold run, extract_frames, bind, emit, try_except.
  rewrite Hc, Hreads.
  destruct (makedirs_run d s) as (s1 & Hm & Hd & _ & Hsame).
  pose proof (eq_refl (makedirs d s)) as Hm'. rewrite Hm in Hm' at 2.
  rewrite Hm.
  destruct (extract_loop_sampling_zero E d (cap_fps cap) frame rest 0 s1
              (interval_of_zero _ H0 H1)) as (msg & ->).
  exists msg. unfold outcome, emitted, final_fs, raise. simpl.
  split; [done|]. split; [done|].
  unfold makedirs, bind, get_fs, put_fs, ret in Hm'. unfold dir_of.
  destruct (dirs s !! d) as [files|] eqn:Hfiles.
  - injection Hm' as <-. by rewrite Hfiles.
  - injection Hm' as <-. simpl. by rewrite lookup_insert_eq.
Qed.

(** A capture of two frames at half a frame per second. *)
Definition slow_frames : video_capture :=
  Capture (1 # 2) 2 [Some img_small; Some img_hd].

Lemma sampling_slow_video_raises_witness :
  exists msg,
    outcome (extract_frames (sample_env (Some slow_frames) upscale_x2 (Ok (0, "")) (Ok tt))
               "input.mp4" frames_d false empty_fs)
    = Raise (ZeroDivisionError msg).
Proof.
  destruct (sampling_slow_video_raises
              (sample_env (Some slow_frames) upscale_x2 (Ok (0, "")) (Ok tt))
              "input.mp4" frames_d empty_fs slow_frames img_small [Some img_hd]
              eq_refl eq_refl eq_refl eq_refl) as (msg & H & _).
  by exists msg.
Defined.

(** X5. Sampling with a frame rate that is not between 0 and 1 never
    raises, but the number it returns is not the number of frames
    saved: the counter moves by one for every frame read and by one
    more for every frame saved. It lies between the number of frames
    read and twice that number, and is exactly twice that number when
    every write succeeds and the interval is 1 (a rate of at most 0, or
    from 1 up to 2). *)
Theorem sampling_counter (E : env) (video_path d : string) (s : fsys)
    (cap : video_capture) :
  capture E video_path = Some cap ->
  (cap_fps cap <= 0 \/ 1 <= cap_fps cap)%Q ->
  let frames := Z.of_nat (length (readable (cap_reads cap))) in
  exists n,
    outcome (extract_frames E video_path d false s) = Ok n /\
    frames <= n <= 2 * frames /\
    ((forall p img, imwrite_ok E p img = true) ->
     (cap_fps cap <= 0 \/ 1 <= cap_fps cap /\ cap_fps cap < 2)%Q ->
     n = 2 * frames).
Proof.
  intros Hc Hfps frames. unfold extract_frames, bind, emit, try_except. rewrite Hc.
  destruct (makedirs_run d s) as (s1 & -> & Hd & _).
  destruct (extract_loop_sampling_run E d (cap_fps cap) (cap_reads cap) 0 s1
              (interval_of_pos _ Hfps) Hd) as (n & s' & T & -> & Hn & Hall).
  exists n. unfold outcome. simpl. split; [done|]. split; [unfold frames; lia|].
  intros Hok H1. rewrite (Hall Hok (interval_of_one _ H1)). unfold frames. lia.
Qed.

Lemma sampling_counter_witness :
  exists n,
    outcome (extract_frames env0 "input.mp4" frames_d false empty_fs) = Ok n /\
    2 <= n <= 2 * 2.
Proof.
  destruct (sampling_counter env0 "input.mp4" frames_d empty_fs two_frames eq_refl)
    as (n & Hn & Hb & _).
  - right. unfold Qle. simpl. lia.
  - exists n. split; [exact Hn | exact Hb].
Defined.

(** ** Counting and clipping *)

(** X6. The good count [run_pipeline] reports, the number of frames
    less the blurry ones less the dark ones, falls short of the number
    of frames the loop copies by the number of frames that are both
    blurry and dark: the two agree exactly when no frame has both
    flags. *)
Theorem good_count_and_copied (E : env) (task : bool) (ch : option string)
    (results : list quality_score) (s : fsys) (counts : Z * Z) :
  outcome (enhance_frames E task (cb_of ch) (Z.of_nat (length results)) results 0 0 0 s)
  = Ok counts ->
  pipeline_good_count results + count_if (fun r => blurry r && dark r) results
  = counts.2 /\
  pipeline_good_count results <= counts.2.
Proof.
  intros Hok.
  pose proof (run_eta (enhance_frames E task (cb_of ch) (Z.of_nat (length results))
                         results 0 0 0 s)) as Hr.
  rewrite Hok in Hr. apply enhance_frames_counts in Hr. subst counts. simpl.
  pose proof (pipeline_good_count_split results) as Hs.
  pose proof (count_if_nonneg (fun r => blurry r && dark r) results). lia.
Qed.

Lemma good_count_and_copied_witness :
  let results := [QualityScore true true false false "frame_000000.jpg";
                  QualityScore false false false false "frame_000001.jpg"] in
  pipeline_good_count results + count_if (fun r => blurry r && dark r) results = 1.
Proof.
  intros results.
  apply (good_count_and_copied env0 true (Some "job-1") results
           (fs_with [("frame_000000.jpg", Decodes img_hd);
                     ("frame_000001.jpg", Decodes img_hd)]) (1, 1)).
  vm_compute. reflexivity.
Defined.

(** X7. The good count [analyze_video] logs never exceeds the number of
    frames without any flag, and equals it exactly when no frame has
    more than one of the four flags: a frame with [k] flags is
    subtracted [k] times. *)
Theorem analyzer_good_count_undercounts (results : list quality_score) :
  let unflagged :=
    count_if (fun r => negb (blurry r || dark r || low_resolution r || pixelated r))
      results in
  analyzer_good_count results <= unflagged /\
  (analyzer_good_count results = unflagged <->
   Forall (fun r => flags_set r <= 1) results).
Proof. apply analyzer_good_count_bound. Qed.

(** X8. Whatever values the model returns, the image [enhance_image]
    saves after running it has all its values between 0 and 255; a
    model output already in that range is saved as it is. *)
Theorem enhanced_pixels_in_range (E : env) (image_path output_path : string * string)
    (s s' : fsys) (T : list effect) :
  enhance_image E image_path output_path s = (Ok true, s', T) ->
  exists img output,
    decoded s image_path.1 image_path.2 = Some img /\
    upsample E img = Ok output /\
    decoded s' output_path.1 output_path.2 = Some (clip_uint8 output) /\
    Forall (fun v => 0 <= v <= 255) (pixels (clip_uint8 output)) /\
    (Forall (fun v => 0 <= v <= 255) (pixels output) -> clip_uint8 output = output).
Proof.
  intros H. apply enhance_image_run in H as (T0 & -> & img & Himg & _ & H).
  destruct H as (output & Hup & -> & Hw & _). exists img, output.
  split; [done|]. split; [done|]. split; [|split].
  - apply decoded_stored. unfold can_write in Hw. by destruct (dirs s !! output_path.1).
  - apply clip_uint8_range.
  - apply clip_uint8_id.
Qed.

Lemma enhanced_pixels_in_range_witness :
  let s := fs_with [("frame_000000.jpg", Decodes img_small)] in
  let run := enhance_image env0 (frames_d, "frame_000000.jpg")
               (enhanced_d, "frame_000000.jpg") s in
  exists img output,
    decoded s frames_d "frame_000000.jpg" = Some img /\
    upsample env0 img = Ok output /\
    decoded (final_fs run) enhanced_d "frame_000000.jpg" = Some (clip_uint8 output) /\
    Forall (fun v => 0 <= v <= 255) (pixels (clip_uint8 output)).
Proof.
  intros s run.
  destruct (enhanced_pixels_in_range env0 (frames_d, "frame_000000.jpg")
              (enhanced_d, "frame_000000.jpg") s (final_fs run) (emitted run))
    as (img & output & H1 & H2 & H3 & H4 & _).
  - vm_compute. reflexivity.
  - exists img, output. by repeat split.
Defined.

(** ** Paths *)

(** X9. [video_path.split('/', 1)] in [run_pipeline_task]: the bucket
    is the text before the first slash and the key all the text after
    it (further slashes included), so that bucket, slash and key put
    together give the path back; a path without a slash gives no
    pair. *)
Theorem object_path_split (video_path : string) :
  match split_slash video_path with
  | Some (bucket, key) =>
      video_path = bucket +:+ "/" +:+ key /\ has_slash bucket = false
  | None => has_slash video_path = false
  end /\
  (forall bucket key,
     has_slash bucket = false ->
     split_slash (bucket +:+ "/" +:+ key) = Some (bucket, key)).
Proof.
  split.
  - destruct (split_slash video_path) as [[bucket key]|] eqn:H.
    + by apply split_slash_some.
    + by apply split_slash_none.
  - intros bucket key Hb. by apply split_slash_some.
Qed.

Lemma object_path_split_witness :
  split_slash ("videos" +:+ "/" +:+ "2024/clip.mp4") = Some ("videos", "2024/clip.mp4").
Proof. apply (proj2 (object_path_split "")). reflexivity. Defined.

(** X10. The temporary path of [reconstruct_video],
    [output_path.replace('.mp4', '_temp.mp4')]: for an output path made
    of a stem without [.mp4] and the extension [.mp4] it is the stem
    with [_temp.mp4]; for an output path in which [.mp4] does not occur
    it is the output path itself. *)
Theorem temporary_video_path (stem : string) :
  has_mp4 stem = false ->
  replace_mp4 (stem +:+ ".mp4") = stem +:+ "_temp.mp4" /\
  replace_mp4 (stem +:+ ".mp4") <> stem +:+ ".mp4" /\
  replace_mp4 stem = stem.
Proof.
  intros H. split; [by apply replace_mp4_stem|]. split; [|by apply replace_mp4_none].
  rewrite replace_mp4_stem by done. intros Heq. apply String.app_inj in Heq. done.
Qed.

Lemma temporary_video_path_witness :
  replace_mp4 ("ml_output/reconstructed" +:+ ".mp4")
  = "ml_output/reconstructed" +:+ "_temp.mp4".
Proof. apply temporary_video_path. reflexivity. Defined.

(** ** Reconstruction *)






(** X12. The first frame file in sorted order decides: when it cannot
    be read, [reconstruct_video] raises a [ValueError] naming it and
    writes nothing, however many of the other frames can be read
    (whereas an unreadable frame further on is only skipped). *)
Theorem unreadable_first_frame_stops_reconstruction (E : env)
    (frame_dir output_path : string) (original : option string) (fps : Z) (s : fsys)
    (files : gmap string jpg_file) (first : string) (rest : list string) :
  dirs s !! frame_dir = Some files ->
  rec_frames files = first :: rest ->
  decoded s frame_dir first = None ->
  let run := reconstruct_video E frame_dir output_path original fps s in
  outcome run
  = Raise (ValueError ("Failed to read first frame: " +:+ os_path_join frame_dir first)) /\
  final_fs run = s /\
  Forall (fun ev => match ev with Call _ _ => False | _ => True end) (emitted run).
Proof.
  intros Hd Hfr Hfirst run. unfold run, reconstruct_video, bind, try_except, emit, get_fs.
  rewrite Hd. fold (rec_frames files). rewrite Hfr, imread_run, Hfirst.
  unfold outcome, final_fs, emitted, raise. simpl. split; [done|]. split; [done|].
  by repeat constructor.
Qed.

Lemma unreadable_first_frame_stops_reconstruction_witness :
  let s := Fsys {[ enhanced_d := {[ "frame_000000.jpg" := Corrupt;
                                    "frame_000001.jpg" := Decodes img_hd ]} ]} ∅ in
  outcome (reconstruct_video env0 enhanced_d reconstructed_mp4 (Some "input.mp4") 24 s)
  = Raise (ValueError ("Failed to read first frame: "
                         +:+ os_path_join enhanced_d "frame_000000.jpg")).
Proof.
  intros s.
  apply (unreadable_first_frame_stops_reconstruction env0 enhanced_d reconstructed_mp4
           (Some "input.mp4") 24 s
           {[ "frame_000000.jpg" := Corrupt; "frame_000001.jpg" := Decodes img_hd ]}
           "frame_000000.jpg" ["frame_000001.jpg"]).
  - reflexivity.
  - vm_compute. reflexivity.
  - vm_compute. reflexivity.
Defined.

(** ** What [enhance_image] may change *)

Lemma stored_other_dir s d name file d' :
  d' <> d -> dirs (stored s d name file) !! d' = dirs s !! d'.
Proof.
  intros Hne. unfold stored. destruct (dirs s !! d); [|done]. simpl.
  by rewrite lookup_insert_ne.
Qed.

Lemma stored_other_name s d name file name' :
  name' <> name ->
  (default ∅ (dirs (stored s d name file) !! d)) !! name'
  = (default ∅ (dirs s !! d)) !! name'.
Proof.
  intros Hne. unfold stored. destruct (dirs s !! d) as [files|] eqn:Hd.
  - simpl. rewrite lookup_insert_eq. simpl. by rewrite lookup_insert_ne.
  - by rewrite Hd.
Qed.

Lemma stored_videos s d name file : videos (stored s d name file) = videos s.
Proof. unfold stored. by destruct (dirs s !! d). Qed.

(** X13. [enhance_image] changes at most the file at its output path:
    every other file, every other directory and the videos are as
    before, whether it returns or raises; and when it raises not even
    the output file has changed, so a failed enhancement leaves no
    partial output. *)
Theorem enhance_image_changes_only_output (E : env)
    (image_path output_path : string * string) (s : fsys) :
  let run := enhance_image E image_path output_path s in
  (forall d', d' <> output_path.1 -> dirs (final_fs run) !! d' = dirs s !! d') /\
  (forall name', name' <> output_path.2 ->
     dir_of (final_fs run) output_path.1 !! name' = dir_of s output_path.1 !! name') /\
  videos (final_fs run) = videos s /\
  (forall ex, outcome run = Raise ex -> final_fs run = s).
Proof.
  intros run. pose proof (run_eta run) as H.
  apply enhance_image_run in H as (T0 & H).
  destruct (outcome run) as [b|ex].
  - destruct H as (_ & img & _ & _ & H).
    assert (exists img', final_fs run = stored s output_path.1 output_path.2 (Decodes img'))
      as (img' & ->).
    { destruct b.
      - destruct H as (output & _ & -> & _). by eexists.
      - destruct H as (-> & _). by eexists. }
    split; [|split; [|split]].
    + intros d' Hd. by apply stored_other_dir.
    + intros name' Hn. by apply stored_other_name.
    + apply stored_videos.
    + done.
  - destruct H as (_ & -> & _). by repeat split.
Qed.

(** ** The messages on the channel *)

Lemma published_app T1 T2 : published (T1 ++ T2) = published T1 ++ published T2.
Proof. apply omap_app. Qed.

Lemma published_running T :
  Forall running T -> Forall (fun d => d !! "state" = None) (published T).
Proof.
  induction 1 as [|ev T Hev _ IH]; [constructor|].
  destruct ev as [st d|c d| |]; simpl; try done.
  constructor; [by destruct Hev | done].
Qed.

Lemma published_failure what e : published (failure true what e) = [].
Proof. reflexivity. Qed.

Lemma published_rep_complete c results counts :
  exists d, published (rep_complete true (Some c) results counts) = [d] /\
            d !! "state" = None /\ percent d = Some 100%Q.
Proof. eexists. split; [reflexivity|]. by split. Qed.

(** The effect, if it is a message, goes to the channel of the task [c]. *)
Definition on_channel (c : string) (ev : effect) : Prop :=
  match ev with
  | Publish channel _ => channel = "task_updates:" +:+ c
  | _ => True
  end.

Lemma reports_on_channel task c d : Forall (on_channel c) (reports task (Some c) d).
Proof. unfold reports. destruct task; by repeat constructor. Qed.

Lemma inner_on_channel c T : Forall is_inner T -> Forall (on_channel c) T.
Proof. intros H. eapply Forall_impl; [done|]. by intros []. Qed.

Lemma notes_on_channel c T : Forall is_note T -> Forall (on_channel c) T.
Proof. intros H. eapply Forall_impl; [done|]. by intros []. Qed.

Lemma quiet_on_channel c T : Forall quiet T -> Forall (on_channel c) T.
Proof. intros H. eapply Forall_impl; [done|]. by intros []. Qed.

Lemma failure_on_channel c task what e : Forall (on_channel c) (failure task what e).
Proof. unfold failure. destruct task; by repeat constructor. Qed.

Lemma process_frame_on_channel E task c total i result e k s r s' T :
  process_frame E task (cb_of (Some c)) total i result e k s = (r, s', T) ->
  Forall (on_channel c) T.
Proof.
  intros H. apply process_frame_run in H. destruct (routed result).
  - destruct H as (T0 & T1 & -> & HT0 & H).
    pose proof (reports_on_channel task c (frame_report total i result e k)).
    pose proof (inner_on_channel c T0 HT0).
    assert (Forall (on_channel c) T1).
    { destruct r; [by destruct H as (_ & -> & _)|]. destruct H as (-> & _).
      by repeat constructor. }
    all_of.
  - destruct H as (-> & _). by repeat constructor.
Qed.

Lemma enhance_frames_on_channel E task c total rest i e k s r s' T :
  enhance_frames E task (cb_of (Some c)) total rest i e k s = (r, s', T) ->
  Forall (on_channel c) T.
Proof.
  eapply (enhance_frames_runs E task (Some c) total
    (fun i e k rest s r s' T => Forall (on_channel c) T)).
  - intros. constructor.
  - intros i0 e0 c0 result rest0 s0 cs s1 t1 r0 s0' t2 Hb _ IH.
    apply Forall_app. split; [|done]. by eapply process_frame_on_channel.
  - intros i0 e0 c0 result rest0 s0 ex s1 t1 Hb. by eapply process_frame_on_channel.
Qed.

Ltac channel_leaf :=
  first [ assumption
        | apply reports_on_channel
        | apply failure_on_channel
        | apply notes_on_channel; assumption
        | apply quiet_on_channel; assumption ].

Lemma pipeline_run_on_channel E task c video_path s r s' T :
  pipeline_run E task (Some c) video_path s r s' T -> Forall (on_channel c) T.
Proof.
  intros H. destruct H as
    [ ex s1 t1 Hx
    | n s1 t1 ex t2 Hx Ha Ht2
    | n s1 t1 results t2 ex s3 t3 Hx Ha Ht2 Hl
    | n s1 t1 results t2 counts s3 t3 ex s4 t4 Hx Ha Ht2 Hl Hr
    | n s1 t1 results t2 counts s3 t3 p s4 t4 Hx Ha Ht2 Hl Hr ];
    pose proof (emits_only_run _ _ _ _ _ _ (extract_frames_notes _ _ _ _) Hx) as Ht1;
    try (apply enhance_frames_on_channel in Hl);
    try (pose proof (reconstruct_video_on_data (fun _ => False) _ _ _ _ _ _ _ _ _ Hr)
           as Hq4);
    segs; channel_leaf.
Qed.

(** ** The last percent of a failed run *)

Lemma last_percents_silent T t :
  percents t = [] -> last (percents (T ++ t)) = last (percents T).
Proof. intros H. by rewrite percents_app, H, app_nil_r. Qed.

Lemma last_percents_rep T ch step message q meta :
  meta !! "progress_percent" = None ->
  last (percents (T ++ rep true ch step message q meta)) = Some q.
Proof.
  intros Hm. rewrite percents_app, last_app. unfold rep, reports, percents.
  pose proof (percent_update_data step message q meta Hm) as Hp.
  destruct ch; simpl; rewrite !Hp; done.
Qed.

Lemma last_percents_loop T ch t :
  mono 55 85 t ->
  exists q, last (percents ((T ++ rep true ch "ENHANCE" "Starting frame enhancement" 55 ∅)
                            ++ t)) = Some q /\ (55 <= q)%Q /\ (q <= 85)%Q.
Proof.
  intros [_ Hb]. rewrite (percents_app _ t), last_app.
  destruct (last (percents t)) as [q|] eqn:Hl.
  - exists q. split; [done|]. apply last_Some_elem_of in Hl.
    rewrite Forall_forall in Hb. by apply Hb.
  - exists 55%Q. split; [by apply last_percents_rep|]. split; qle.
Qed.

(** X14. When [run_pipeline] raises, the last percent it has reported
    tells the step that failed, the one named in the error of the
    FAILURE state that closes its trace: 15 for the extraction, 35 for
    the analysis, a value from 55 to 85 for the enhancement loop, 90
    for the reconstruction. *)
Theorem last_percent_names_failed_step (E : env) (video_path : string)
    (ch : option string) (s : fsys) (ex : exn) :
  let run := run_pipeline E video_path true (cb_of ch) s in
  outcome run = Raise ex ->
  exists what q Tpre,
    emitted run = Tpre ++ failure true what ex /\
    last (percents (emitted run)) = Some q /\
    (what = "Frame extraction" /\ q = 15%Q \/
     what = "Video analysis" /\ q = 35%Q \/
     what = "Frame processing" /\ (55 <= q)%Q /\ (q <= 85)%Q \/
     what = "Video reconstruction" /\ q = 90%Q).
Proof.
  intros run Hex.
  pose proof (run_pipeline_run E true ch video_path s _ _ _ (run_eta run)) as H.
  rewrite Hex in H. clear Hex. remember (Raise ex) as r eqn:Hr.
  destruct H as
    [ ex' s1 t1 Hx
    | n s1 t1 ex' t2 Hx Ha Ht2
    | n s1 t1 results t2 ex' s3 t3 Hx Ha Ht2 Hl
    | n s1 t1 results t2 counts s3 t3 ex' s4 t4 Hx Ha Ht2 Hl Hr'
    | n s1 t1 results t2 counts s3 t3 p s4 t4 Hx Ha Ht2 Hl Hr' ];
    try discriminate Hr; injection Hr as ->;
    pose proof (emits_only_run _ _ _ _ _ _ (extract_frames_notes _ _ _ _) Hx) as Ht1;
    pose proof (notes_silent _ Ht1) as Hs1;
    try pose proof (notes_silent _ Ht2) as Hs2.
  - exists "Frame extraction", 15%Q, (opening true ch video_path ++ t1).
    split; [by rewrite <- !app_assoc|]. split; [|by left].
    rewrite !app_assoc. rewrite last_percents_silent by apply failure_silent.
    rewrite last_percents_silent by done. unfold opening. rewrite !app_assoc.
    by apply last_percents_rep.
  - eexists "Video analysis", 35%Q, _. split; [by rewrite !app_assoc|].
    split; [|right; by left].
    rewrite !app_assoc. rewrite last_percents_silent by apply failure_silent.
    rewrite last_percents_silent by done. by apply last_percents_rep.
  - apply enhance_frames_mono_55 in Hl.
    destruct (last_percents_loop
                (((opening true ch video_path ++ t1) ++ rep_extracted true ch n)
                   ++ (rep true ch "ANALYZE" "Starting video quality analysis" 35 ∅ ++ t2)
                   ++ rep_analyzed true ch results) ch t3 Hl) as (q & Hq & Hlo & Hhi).
    eexists "Frame processing", q, _. split; [by rewrite !app_assoc|].
    split; [|right; right; by left].
    rewrite !app_assoc. rewrite last_percents_silent by apply failure_silent.
    rewrite <- Hq. by rewrite !app_assoc.
  - pose proof (reconstruct_video_on_data (fun _ => False) _ _ _ _ _ _ _ _ _ Hr') as Hq4.
    apply quiet_silent in Hq4.
    eexists "Video reconstruction", 90%Q, _. split; [by rewrite !app_assoc|].
    split; [|right; right; by right].
    rewrite !app_assoc. rewrite last_percents_silent by apply failure_silent.
    rewrite last_percents_silent by done. by apply last_percents_rep.
Qed.

Lemma last_percent_names_failed_step_witness :
  exists Tpre ex,
    emitted (run_pipeline env_unreadable "input.mp4" true (cb_of (Some "job-1")) empty_fs)
    = Tpre ++ failure true "Frame extraction" ex.
Proof.
  destruct (last_percent_names_failed_step env_unreadable "input.mp4" (Some "job-1")
              empty_fs (ValueError "Failed to open video file: input.mp4") eq_refl)
    as (what & q & Tpre & HT & Hq & H).
  assert (what = "Frame extraction") as ->.
  { assert (q = 15%Q) as -> by (rewrite <- (Some_inj _ _ Hq); reflexivity).
    destruct H as [[-> _]|[[_ [=]]|[(_ & Hlo & _)|[_ [=]]]]]; [done|].
    by vm_compute in Hlo. }
  eexists Tpre, _. exact HT.
Defined.

(** ** The working directories *)

Lemma fsys_eta (s : fsys) : Fsys (dirs s) (videos s) = s.
Proof. by destruct s. Qed.

Lemma dir_of_lookup s d files : dirs s !! d = Some files -> dir_of s d = files.
Proof. intros H. unfold dir_of. by rewrite H. Qed.

Lemma makedirs_eq d s :
  makedirs d s = (Ok tt, Fsys (<[d := dir_of s d]> (dirs s)) (videos s), []).
Proof.
  unfold makedirs, bind, get_fs, put_fs, ret, dir_of.
  destruct (dirs s !! d) as [files|] eqn:Hd; simpl; [|done].
  rewrite insert_id by done. by destruct s.
Qed.

Lemma prepared_frames s : dirs (prepared s) !! frames_d = Some (dir_of s frames_d).
Proof.
  unfold prepared. rewrite !makedirs_eq. unfold final_fs. simpl.
  rewrite lookup_insert_ne by done. apply lookup_insert_eq.
Qed.

Lemma prepared_enhanced s : is_Some (dirs (prepared s) !! enhanced_d).
Proof.
  unfold prepared. rewrite !makedirs_eq. unfold final_fs. simpl.
  rewrite lookup_insert_eq. by eexists.
Qed.

Lemma prepared_decoded s name :
  decoded (prepared s) frames_d name = decoded s frames_d name.
Proof.
  unfold decoded. rewrite prepared_frames. unfold dir_of.
  by destruct (dirs s !! frames_d).
Qed.

Lemma decoded_stored_other s d name file d' name' :
  (d', name') <> (d, name) ->
  decoded (stored s d name file) d' name' = decoded s d' name'.
Proof.
  intros Hne. unfold decoded, stored. destruct (dirs s !! d) as [files|] eqn:Hd; [|done].
  simpl. destruct (decide (d' = d)) as [->|Hd'].
  - rewrite lookup_insert_eq, Hd. rewrite lookup_insert_ne; [done|]. congruence.
  - by rewrite lookup_insert_ne.
Qed.

Lemma decoded_stored_some s d name img d' name' :
  is_Some (decoded s d' name') ->
  is_Some (decoded (stored s d name (Decodes img)) d' name').
Proof.
  intros H. destruct (decide ((d', name') = (d, name))) as [[= -> ->]|Hne].
  - rewrite decoded_stored; [by eexists|]. unfold decoded in H.
    by destruct (dirs s !! d).
  - by rewrite decoded_stored_other.
Qed.

(** Extraction removes nothing: a directory stays, and a frame file
    that could be read can be read afterwards (it is as it was, or a
    frame has been saved over it). *)
Lemma extract_loop_keeps E d all fps reads : forall saved s r s' T,
  extract_loop E d all fps reads saved s = (r, s', T) ->
  (forall d', is_Some (dirs s !! d') -> is_Some (dirs s' !! d')) /\
  (forall d' name, is_Some (decoded s d' name) -> is_Some (decoded s' d' name)).
Proof.
  induction reads as [|[frame|] rest IH]; intros saved s r s' T;
    cbn [extract_loop]; [by intros [= <- <- <-] | | by intros [= <- <- <-]].
  assert (forall saved1 saved2 r s' T,
    (success <- imwrite E d (frame_name saved) frame;;
     if success then extract_loop E d all fps rest saved1
     else emit (Log ERROR ("Failed to save frame " +:+ str_int saved +:+ " to ")
                  (os_path_join d (frame_name saved)));;
          extract_loop E d all fps rest saved2) s = (r, s', T) ->
    (forall d', is_Some (dirs s !! d') -> is_Some (dirs s' !! d')) /\
    (forall d' name, is_Some (decoded s d' name) -> is_Some (decoded s' d' name)))
    as Hwrite.
  { intros saved1 saved2 r0 s0 T0. unfold bind. rewrite imwrite_run.
    destruct (can_write E s d (frame_name saved) frame).
    - destruct (extract_loop E d all fps rest saved1 _) as [[r1 s1] t1] eqn:Hl.
      intros [= <- <- <-]. apply IH in Hl as [H1 H2]. split.
      + intros d' Hd'. by apply H1, stored_dir.
      + intros d' name Hn. by apply H2, decoded_stored_some.
    - unfold emit.
      destruct (extract_loop E d all fps rest saved2 s) as [[r1 s1] t1] eqn:Hl.
      intros [= <- <- <-]. by apply IH in Hl. }
  destruct all; [apply Hwrite|].
  destruct (_ =? 0); [by intros [= <- <- <-]|].
  destruct (_ =? 0); [apply Hwrite | apply IH].
Qed.

Lemma extract_frames_keeps E video_path d all s r s' T :
  extract_frames E video_path d all s = (r, s', T) ->
  (forall d', is_Some (dirs s !! d') -> is_Some (dirs s' !! d')) /\
  (forall d' name, is_Some (decoded s d' name) -> is_Some (decoded s' d' name)).
Proof.
  unfold extract_frames, bind, emit, try_except. rewrite makedirs_eq.
  set (s0 := Fsys (<[d := dir_of s d]> (dirs s)) (videos s)).
  assert ((forall d', is_Some (dirs s !! d') -> is_Some (dirs s0 !! d')) /\
          (forall d' name, is_Some (decoded s d' name) -> is_Some (decoded s0 d' name)))
    as [K1 K2].
  { split.
    - intros d' H. simpl. destruct (decide (d' = d)) as [->|Hne].
      + rewrite lookup_insert_eq. by eexists.
      + by rewrite lookup_insert_ne.
    - intros d' name. unfold decoded. simpl. destruct (decide (d' = d)) as [->|Hne].
      + rewrite lookup_insert_eq. unfold dir_of. by destruct (dirs s !! d).
      + by rewrite lookup_insert_ne. }
  destruct (capture E video_path) as [cap|].
  - destruct (extract_loop E d all (cap_fps cap) (cap_reads cap) 0 s0)
      as [[[n|ex] s1] t1] eqn:Hl; apply extract_loop_keeps in Hl as [H1 H2];
      unfold raise; simpl; intros [= <- <- <-]; split; eauto.
  - unfold raise. simpl. intros [= <- <- <-]. by split.
Qed.

(** A directory without [.jpg] files has no frame file to analyze. *)
Lemma frame_files_of_none files :
  (forall name, is_Some (files !! name) -> endswith name ".jpg" = false) ->
  frame_files_of files = [].
Proof.
  intros H. destruct (frame_files_of files) as [|name l] eqn:Hn; [done|].
  assert (name ∈ frame_files_of files) as Hin by (rewrite Hn; apply list_elem_of_here).
  apply elem_of_frame_files in Hin as [Hj Hs]. apply H in Hs. congruence.
Qed.

Lemma extract_loop_nothing E d all fps reads saved s :
  readable reads = [] -> extract_loop E d all fps reads saved s = (Ok saved, s, []).
Proof. by destruct reads as [|[frame|] rest]. Qed.

(** X15. A source that opens and yields no frame does not fail the
    extraction: [run_pipeline] reports the extraction as completed with
    0 frames, and, the frame directory holding no [.jpg] file, it is
    the analysis that raises (no frame files found); the run ends with
    the FAILURE of the analysis step. *)
Theorem empty_video_fails_at_analysis (E : env) (video_path : string) (task : bool)
    (ch : option string) (s : fsys) (cap : video_capture) :
  capture E video_path = Some cap ->
  readable (cap_reads cap) = [] ->
  (forall name, is_Some (dir_of s frames_d !! name) -> endswith name ".jpg" = false) ->
  let run := run_pipeline E video_path task (cb_of ch) s in
  let ex := ValueError ("No frame files found in directory: " +:+ frames_d) in
  outcome run = Raise ex /\
  exists T1 T2,
    emitted run
    = T1 ++ rep_extracted task ch 0 ++ T2 ++ failure task "Video analysis" ex.
Proof.
  intros Hc Hr Hold run ex.
  assert (extract_frames E video_path frames_d true (prepared s)
          = (Ok 0, prepared s, [Log INFO "Starting frame extraction from: " video_path]))
    as Hx.
  { unfold extract_frames, bind, emit, try_except. rewrite makedirs_eq, Hc.
    rewrite extract_loop_nothing by done. simpl.
    rewrite (dir_of_lookup _ _ _ (prepared_frames s)).
    rewrite insert_id by apply prepared_frames. by rewrite fsys_eta. }
  assert (analyze_outcome E (prepared s) frames_d = Raise ex) as Ha.
  { unfold analyze_outcome. rewrite prepared_frames.
    by rewrite frame_files_of_none. }
  pose proof (run_pipeline_run E task ch video_path s _ _ _ (run_eta run)) as H.
  destruct run as [[r s'] T]. unfold outcome, emitted, final_fs in *. simpl in *.
  destruct H as
    [ ex' s1 t1 Hx'
    | n s1 t1 ex' t2 Hx' Ha' Ht2
    | n s1 t1 results t2 ex' s3 t3 Hx' Ha' Ht2 Hl
    | n s1 t1 results t2 counts s3 t3 ex' s4 t4 Hx' Ha' Ht2 Hl Hr'
    | n s1 t1 results t2 counts s3 t3 p s4 t4 Hx' Ha' Ht2 Hl Hr' ];
    rewrite Hx in Hx'; try discriminate Hx'; injection Hx' as <- <- <-;
    rewrite Ha in Ha'; try discriminate Ha'; injection Ha' as <-.
  split; [done|].
  exists (opening task ch video_path
            ++ [Log INFO "Starting frame extraction from: " video_path]),
    (rep task ch "ANALYZE" "Starting video quality analysis" 35 ∅ ++ t2).
  by rewrite <- !app_assoc.
Qed.

Lemma empty_video_fails_at_analysis_witness :
  outcome (run_pipeline env_no_frames "input.mp4" true (cb_of (Some "job-1")) empty_fs)
  = Raise (ValueError ("No frame files found in directory: " +:+ frames_d)).
Proof.
  refine (proj1 (empty_video_fails_at_analysis env_no_frames "input.mp4" true
                   (Some "job-1") empty_fs (Capture 24 0 []) eq_refl eq_refl _)).
  intros name [f Hf]. by vm_compute in Hf.
Defined.

Lemma elem_of_analysis_of E s d names name img :
  name ∈ names -> decoded s d name = Some img ->
  name ∈ filename <$> analysis_of E s d names.
Proof.
  intros Hin Hd. apply list_elem_of_fmap.
  exists (set_filename (score_of E img) name). split; [done|].
  unfold analysis_of. apply list_elem_of_omap. exists name. split; [done|].
  by rewrite Hd.
Qed.

(** X16. [run_pipeline] does not clear its frame directory: a [.jpg]
    file that was in [ml_output/frames] before the run and could be
    read is among the frames of the run that completes (under its
    name, as it was or as the extraction has saved over it), whether
    or not the new video has that many frames. *)
Theorem stale_frames_are_analysed (E : env) (video_path : string) (task : bool)
    (ch : option string) (s : fsys) (name : string) (img : image)
    (results : list quality_score) :
  decoded s frames_d name = Some img ->
  endswith name ".jpg" = true ->
  outcome (run_pipeline E video_path task (cb_of ch) s) = Ok results ->
  name ∈ filename <$> results.
Proof.
  intros Hd Hj Hok.
  pose proof (run_pipeline_run E task ch video_path s _ _ _
                (run_eta (run_pipeline E video_path task (cb_of ch) s))) as H.
  rewrite Hok in H. inversion H as
    [ | | | | n s1 t1 res t2 counts s3 t3 p s4 t4 Hx Ha Ht2 Hl Hr Hres Hs HT ].
  subst res. apply extract_frames_keeps in Hx as [_ Hk].
  destruct (Hk frames_d name) as [img' Himg'].
  { rewrite prepared_decoded, Hd. by eexists. }
  unfold analyze_outcome in Ha.
  destruct (dirs s1 !! frames_d) as [files|] eqn:Hfiles; [|done].
  assert (name ∈ frame_files_of files) as Hin.
  { apply elem_of_frame_files. split; [done|]. unfold decoded in Himg'.
    rewrite Hfiles in Himg'. by destruct (files !! name). }
  destruct (frame_files_of files) as [|n0 names] eqn:Hn; [done|].
  injection Ha as <-. by eapply elem_of_analysis_of.
Qed.

(** A frame directory that still holds a tenth frame of an earlier run. *)
Definition fs_stale : fsys :=
  Fsys {[ frames_d := {[ "frame_000009.jpg" := Decodes img_hd ]} ]} ∅.

Lemma stale_frames_are_analysed_witness :
  "frame_000009.jpg"
  ∈ filename <$> [QualityScore false true true false "frame_000000.jpg";
                  QualityScore false true false false "frame_000001.jpg";
                  QualityScore false true false false "frame_000009.jpg"].
Proof.
  apply (stale_frames_are_analysed env0 "input.mp4" true (Some "job-1") fs_stale
           "frame_000009.jpg" img_hd).
  - reflexivity.
  - reflexivity.
  - vm_compute. reflexivity.
Defined.

(** ** Why the enhancement step fails *)

(** What makes [enhance_image] raise [ex] on an image that was read. *)
Definition enhancement_failure (E : env) (img : image) (ex : exn) : Prop :=
  if needs_model E img then
    model_init E = Raise ex \/ upsample E img = Raise ex \/
    ex = RuntimeError "Failed to save enhanced image"
  else ex = RuntimeError "Failed to save image (copy mode)".

Lemma enhance_image_raises E ip op s ex s' T :
  enhance_image E ip op s = (Raise ex, s', T) ->
  match decoded s ip.1 ip.2 with
  | None => ex = ValueError ("Could not load image from " +:+ path_str ip)
  | Some img => enhancement_failure E img ex
  end.
Proof.
  unfold enhance_image, bind, try_except, emit. rewrite imread_run.
  destruct (decoded s ip.1 ip.2) as [img|] eqn:Himg.
  2:{ unfold raise. by intros [= <- <- <-]. }
  destruct (is_low_resolution_reads img 1280 720 s) as (t1 & E1 & F1).
  destruct (is_pixelated_reads E img s) as (t2 & E2 & F2).
  rewrite E1. cbv beta iota. rewrite E2. cbv beta iota.
  unfold enhancement_failure, needs_model.
  destruct (low_res_of img 1280 720 || verdict_of (pixelated_body E img)) eqn:Hneed;
    cbn [negb]; cbv beta iota.
  - unfold lift, raise, ret. destruct (model_init E) as [[]|e].
    2:{ intros [= <- <- <-]. by left. }
    destruct (upsample E img) as [output|e] eqn:Hup.
    2:{ intros [= <- <- <-]. right. by left. }
    rewrite imwrite_run. destruct (can_write E s op.1 op.2 (clip_uint8 output)).
    + intros [=].
    + intros [= <- <- <-]. right. by right.
  - rewrite imwrite_run. unfold raise, ret.
    destruct (can_write E s op.1 op.2 img); cbn [negb]; cbv beta iota.
    + intros [=].
    + by intros [= <- <- <-].
Qed.

(** How the body of the loop raises: through [enhance_image] for a
    routed frame, through the copy otherwise. *)
Lemma process_frame_raises E task ch total i result e c s ex s' T :
  process_frame E task (cb_of ch) total i result e c s = (Raise ex, s', T) ->
  s' = s /\
  if routed result then
    Log ERROR "Image enhancement failed: " (str_exn ex) ∈ T /\
    match decoded s frames_d (filename result) with
    | None => True
    | Some img => enhancement_failure E img ex
    end
  else copy_source s (filename result) = None.
Proof.
  intros H. pose proof H as H'. apply process_frame_run in H'.
  unfold process_frame in H. fold (routed result) in H.
  destruct (routed result).
  - destruct H' as (T0 & T1 & -> & _ & -> & ->). split; [done|]. split.
    { apply elem_of_app. right. apply list_elem_of_further, elem_of_app. right.
      apply list_elem_of_here. }
    unfold bind in H. rewrite update_progress_run in H.
    destruct (enhance_image E (frames_d, filename result) (enhanced_d, filename result) s)
      as [[[b|ex'] s1] t1] eqn:He; [done|].
    injection H as -> _ _. apply enhance_image_raises in He. simpl in He.
    by destruct (decoded s frames_d (filename result)).
  - by destruct H' as (_ & ? & ->).
Qed.

(** The loop in the state the pipeline runs it in: both directories
    exist and every frame it is given can be read. *)
Definition loop_ready (s : fsys) (rest : list quality_score) : Prop :=
  is_Some (dirs s !! frames_d) /\ is_Some (dirs s !! enhanced_d) /\
  Forall (fun r => is_Some (decoded s frames_d (filename r))) rest.

Lemma loop_ready_step E task ch total i result e c s counts s1 t1 rest :
  process_frame E task (cb_of ch) total i result e c s = (Ok counts, s1, t1) ->
  loop_ready s (result :: rest) ->
  loop_ready s1 rest /\
  forall name, decoded s1 frames_d name = decoded s frames_d name.
Proof.
  intros H (Hf & He & Hall). apply Forall_cons in Hall as [_ Hall].
  assert (exists file, s1 = stored s enhanced_d (filename result) file) as (file & ->).
  { apply process_frame_run in H. destruct (routed result).
    - destruct H as (T0 & T1 & _ & _ & _ & _ & b & Hrun).
      apply enhance_image_run in Hrun as (T0' & _ & img & _ & _ & Hrun).
      destruct b.
      + destruct Hrun as (output & _ & -> & _). by eexists.
      + destruct Hrun as (-> & _). by eexists.
    - destruct H as (_ & _ & f & _ & ->). by eexists. }
  assert (forall name,
    decoded (stored s enhanced_d (filename result) file) frames_d name
    = decoded s frames_d name) as Hsame.
  { intros name. apply decoded_stored_other. intros [=]. }
  split; [|done]. split; [by apply stored_dir|]. split; [by apply stored_dir|].
  eapply Forall_impl; [exact Hall|]. intros r Hr. simpl. by rewrite Hsame.
Qed.

Lemma copy_source_ready s result rest :
  loop_ready s (result :: rest) -> is_Some (copy_source s (filename result)).
Proof.
  intros ([src Hs] & [dst Hd] & Hall). apply Forall_cons in Hall as [[img Hi] _].
  unfold copy_source. rewrite Hs, Hd. unfold decoded in Hi. rewrite Hs in Hi.
  destruct (src !! filename result); [by eexists | done].
Qed.

Lemma enhance_frames_failure E task ch total rest i e c s ex s' T :
  enhance_frames E task (cb_of ch) total rest i e c s = (Raise ex, s', T) ->
  loop_ready s rest ->
  Log ERROR "Image enhancement failed: " (str_exn ex) ∈ T /\
  exists result img,
    result ∈ rest /\ routed result = true /\
    decoded s' frames_d (filename result) = Some img /\
    enhancement_failure E img ex.
Proof.
  remember (Raise ex) as r eqn:Hr. intros H. revert ex Hr.
  eapply (enhance_frames_runs E task ch total
    (fun i e c rest s r s' T => forall ex, r = Raise ex -> loop_ready s rest ->
       Log ERROR "Image enhancement failed: " (str_exn ex) ∈ T /\
       exists result img,
         result ∈ rest /\ routed result = true /\
         decoded s' frames_d (filename result) = Some img /\
         enhancement_failure E img ex)); [| | |exact H].
  - intros; done.
  - intros i0 e0 c0 result rest0 s0 cs s1 t1 r0 s0' t2 Hb _ IH ex -> Hready.
    destruct (loop_ready_step _ _ _ _ _ _ _ _ _ _ _ _ rest0 Hb Hready) as [Hready1 _].
    destruct (IH ex eq_refl Hready1) as (Hin & result' & img & Hr & Hro & Hd & Hc).
    split; [apply elem_of_app; by right|]. exists result', img.
    split; [by apply list_elem_of_further | done].
  - intros i0 e0 c0 result rest0 s0 ex0 s1 t1 Hb ex [= <-] Hready.
    apply process_frame_raises in Hb as [-> Hb].
    destruct (routed result) eqn:Hro.
    + destruct Hb as [Hin Hc]. split; [done|].
      destruct Hready as (_ & _ & Hall). apply Forall_cons in Hall as [[img Hi] _].
      rewrite Hi in Hc. exists result, img. split; [apply list_elem_of_here | done].
    + destruct (copy_source_ready _ _ _ Hready) as [f Hf]. congruence.
Qed.

Lemma analysis_of_readable E s d names :
  Forall (fun r => is_Some (decoded s d (filename r))) (analysis_of E s d names).
Proof.
  apply Forall_forall. intros q Hq. unfold analysis_of in Hq.
  apply list_elem_of_omap in Hq as (n & Hn & Hq).
  destruct (decoded s d n) as [img|] eqn:Hd; [|done]. injection Hq as <-. simpl.
  rewrite Hd. by eexists.
Qed.

Lemma analyze_outcome_readable E s d results :
  analyze_outcome E s d = Ok results ->
  is_Some (dirs s !! d) /\
  Forall (fun r => is_Some (decoded s d (filename r))) results.
Proof.
  unfold analyze_outcome. destruct (dirs s !! d) as [files|]; [|done].
  destruct (frame_files_of files) as [|n names]; [done|]. intros [= <-].
  split; [by eexists | apply analysis_of_readable].
Qed.

Lemma update_not_running T st d :
  Forall running T -> st <> "PROGRESS" -> UpdateState st d ∉ T.
Proof.
  intros H Hst Hin. rewrite Forall_forall in H. apply H in Hin. simpl in Hin.
  by destruct Hin.
Qed.

Lemma failure_update_inv what ex d :
  UpdateState "FAILURE" d ∈ failure true what ex ->
  d = {[ "error" := VStr (what +:+ " failed: " +:+ str_exn ex) ]}.
Proof.
  unfold failure. intros Hin. apply elem_of_cons in Hin as [[=]|Hin].
  apply elem_of_cons in Hin as [[= ->]|Hin]; [done|]. by apply elem_of_nil in Hin.
Qed.

Lemma error_singleton_inj (a b : string) :
  ({[ "error" := VStr a ]} : gmap string value) = {[ "error" := VStr b ]} -> a = b.
Proof.
  intros H. apply (f_equal (fun m => m !! "error")) in H.
  rewrite !lookup_singleton_eq in H. congruence.
Qed.

(** X17. When a job fails in the enhancement step (the state of the
    task is set to FAILURE with the error "Frame processing failed:
    ..."), it is [enhance_image] that raised, on a frame that is blurry
    or dark: its failure record is in the log, the frame file can be
    read, and the exception comes from setting up the model, from the
    model, or from a failed write. Copying a frame never fails the
    step, and no frame is found missing or unreadable, since the step
    works on the files the analysis has just read. *)
Theorem frame_processing_fails_only_in_enhance_image (E : env) (video_path : string)
    (ch : option string) (s : fsys) (m : string) :
  let run := run_pipeline E video_path true (cb_of ch) s in
  UpdateState "FAILURE" {[ "error" := VStr ("Frame processing failed: " +:+ m) ]}
    ∈ emitted run ->
  exists ex result img,
    outcome run = Raise ex /\ str_exn ex = m /\
    Log ERROR "Image enhancement failed: " m ∈ emitted run /\
    blurry result || dark result = true /\
    decoded (final_fs run) frames_d (filename result) = Some img /\
    if low_res_of img 1280 720 || verdict_of (pixelated_body E img) then
      model_init E = Raise ex \/ upsample E img = Raise ex \/
      ex = RuntimeError "Failed to save enhanced image"
    else ex = RuntimeError "Failed to save image (copy mode)".
Proof.
  intros run Hin.
  pose proof (run_pipeline_run E true ch video_path s _ _ _ (run_eta run)) as H.
  destruct run as [[r s'] T]. unfold outcome, emitted, final_fs in *. simpl in *.
  pose proof (pipeline_run_shape _ _ _ _ _ _ _ _ H) as (Tpre & Hrun & _ & Hshape).
  assert (forall d, UpdateState "FAILURE" d ∉ Tpre) as Hpre.
  { intros d. by apply update_not_running. }
  destruct r as [results|ex].
  { destruct Hshape as (counts & ->). apply elem_of_app in Hin as [Hin|Hin].
    - by apply Hpre in Hin.
    - unfold rep_complete, rep, reports in Hin. destruct ch; simpl in Hin.
      + apply elem_of_cons in Hin as [[=]|Hin].
        apply elem_of_cons in Hin as [[=]|Hin]. by apply elem_of_nil in Hin.
      + apply elem_of_cons in Hin as [[=]|Hin]. by apply elem_of_nil in Hin. }
  destruct Hshape as (what & HT).
  assert ("Frame processing failed: " +:+ m = what +:+ " failed: " +:+ str_exn ex) as Hm.
  { rewrite HT in Hin. apply elem_of_app in Hin as [Hin|Hin]; [by apply Hpre in Hin|].
    apply failure_update_inv in Hin. by apply error_singleton_inj in Hin. }
  remember (Raise ex) as r eqn:Hr.
  destruct H as
    [ ex' s1 t1 Hx
    | n s1 t1 ex' t2 Hx Ha Ht2
    | n s1 t1 results t2 ex' s3 t3 Hx Ha Ht2 Hl
    | n s1 t1 results t2 counts s3 t3 ex' s4 t4 Hx Ha Ht2 Hl Hr'
    | n s1 t1 results t2 counts s3 t3 p s4 t4 Hx Ha Ht2 Hl Hr' ];
    try discriminate Hr; injection Hr as ->;
    rewrite !app_assoc in HT;
    (apply app_inj_2 in HT as [_ HT]; [|done]);
    injection HT as HT _; apply string_app_inv_tail in HT; subst what.
  - discriminate Hm.
  - discriminate Hm.
  - apply (String.app_inj "Frame processing failed: ") in Hm.
    subst m.
    assert (loop_ready s1 results) as Hready.
    { apply extract_frames_keeps in Hx as [Hk _].
      apply analyze_outcome_readable in Ha as [Hf Hall]. split; [done|].
      split; [apply Hk, prepared_enhanced | done]. }
    destruct (enhance_frames_failure _ _ _ _ _ _ _ _ _ _ _ _ Hl Hready)
      as (Hlog & result & img & _ & Hro & Hd & Hc).
    exists ex, result, img. split; [done|]. split; [done|]. split.
    { do 7 (apply elem_of_app; right). apply elem_of_app. by left. }
    split; [done|]. split; [done|]. exact Hc.
  - discriminate Hm.
Qed.

Lemma frame_processing_fails_only_in_enhance_image_witness :
  let run := run_pipeline env_oom "input.mp4" true (cb_of (Some "job-1")) empty_fs in
  exists ex, outcome run = Raise ex /\ str_exn ex = "out of memory" /\
    Log ERROR "Image enhancement failed: " "out of memory" ∈ emitted run.
Proof.
  intros run.
  destruct (frame_processing_fails_only_in_enhance_image env_oom "input.mp4"
              (Some "job-1") empty_fs "out of memory")
    as (ex & result & img & Ho & Hm & Hlog & _).
  - apply (list_elem_of_lookup_2 _ 32%nat). vm_compute. reflexivity.
  - exists ex. by repeat split.
Defined.

(** ** The task around the pipeline *)



Lemma videos_after_output vs temp output written o :
  temp <> output -> is_Some (videos_after vs temp output written o !! output).
Proof.
  intros Hne. unfold videos_after. destruct o.
  - rewrite lookup_insert_eq. by eexists.
  - rewrite lookup_delete_ne by done. rewrite lookup_insert_eq. by eexists.
  - rewrite lookup_insert_eq. by eexists.
  - rewrite lookup_insert_eq. by eexists.
Qed.

Lemma length_reports task ch d d' :
  length (reports task ch d) = length (reports task ch d').
Proof. unfold reports. rewrite !length_app. by destruct task, ch. Qed.

(** A run of the pipeline that completes leaves the reconstructed
    video, has counted the frames it routed, and ends with the report
    of 100 percent. *)
Lemma pipeline_run_completed E task ch video_path s results s' T :
  pipeline_run E task ch video_path s (Ok results) s' T ->
  is_Some (videos s' !! reconstructed_mp4) /\
  exists Tpre,
    Forall running Tpre /\
    T = Tpre ++ rep_complete task ch results
                  (count_if routed results,
                   count_if (fun r => negb (routed r)) results).
Proof.
  intros H. pose proof (pipeline_run_shape _ _ _ _ _ _ _ _ H)
    as (Tpre & Hrun & _ & counts & HT).
  inversion H as
    [ | | | | n s1 t1 res t2 counts' s3 t3 p s4 t4 Hx Ha Ht2 Hl Hr Hres Hs HT' ].
  subst. split.
  - apply reconstruct_video_run in Hr as (T0 & _ & _ & _ & files & _ & _ & ->).
    simpl. by apply videos_after_output.
  - exists Tpre. split; [done|]. rewrite !app_assoc in HT'. rewrite !app_assoc.
    apply app_inj_2 in HT' as [-> HT'].
    2:{ unfold rep_complete, rep. apply length_reports. }
    apply enhance_frames_counts in Hl. rewrite !Z.add_0_l in Hl.
    rewrite Hl. reflexivity.
Qed.

(** The run of the task, once the input is fetched, from the run of
    the pipeline. *)
Lemma run_pipeline_task_fetched E task_id video_path s bucket key r s1 Tp :
  get_minio_client E = Ok tt ->
  split_slash video_path = Some (bucket, key) ->
  minio_download E bucket key = Ok tt ->
  run_pipeline E (temp_name E) true (cb_of (Some task_id)) s = (r, s1, Tp) ->
  run_pipeline_task E task_id video_path s
  = match r with
    | Raise ex => (Raise ex, s1, started video_path :: Tp ++ task_failure task_id video_path ex)
    | Ok results =>
        match uploaded E s1 bucket with
        | Ok _ =>
            (Ok (TaskReturn "success" video_path (Z.of_nat (length results))
                   (count_if (fun r => blurry r || dark r) results)
                   (bucket +:+ "/" +:+ "enhanced/reconstructed.mp4") results),
             s1,
             started video_path :: Tp ++ task_success task_id video_path bucket results)
        | Raise ex =>
            (Raise ex, s1,
             started video_path :: Tp ++ task_failure task_id video_path ex)
        end
    end.
Proof.
  intros Hcl Hsplit Hdl Hp. unfold run_pipeline_task, try_except.
  unfold bind at 1. unfold lift at 1. rewrite Hcl, Hsplit.
  unfold bind at 1. unfold lift at 1. rewrite Hdl.
  unfold bind at 1. unfold emit at 1. unfold bind at 1.
  change (Some (publish_progress_to_redis task_id)) with (cb_of (Some task_id)).
  rewrite Hp. destruct r as [results|ex]; [|reflexivity].
  unfold bind at 1. unfold get_fs at 1. unfold bind at 1.
  change (os_path_join "ml_output" "reconstructed.mp4") with reconstructed_mp4.
  unfold uploaded. destruct (videos s1 !! reconstructed_mp4) as [v|].
  - unfold lift at 1. destruct (minio_upload E bucket _) as [[]|ex].
    + simpl. fold (started video_path). unfold task_success.
      by rewrite ?app_nil_l, ?app_nil_r.
    + simpl. fold (started video_path). unfold task_failure.
      by rewrite ?app_nil_l, ?app_nil_r.
  - simpl. fold (started video_path). unfold task_failure.
    by rewrite ?app_nil_l, ?app_nil_r.
Qed.

(** X19. Once the input is fetched and [run_pipeline] has returned,
    the fate of the job is that of the upload. If it succeeds the task
    returns the record of the run: the frames analyzed, their number,
    the number of frames that were blurry or dark (the
    [enhanced_count] of the final report) and the output path
    [<bucket>/enhanced/reconstructed.mp4], whatever the key of the
    input was. If it raises, the task raises that exception and closes
    with FAILURE, although the report of 100 percent has been sent just
    before. *)
Theorem completed_job_follows_upload (E : env) (task_id video_path : string) (s : fsys)
    (bucket key : string) (results : list quality_score) :
  get_minio_client E = Ok tt ->
  video_path = bucket +:+ "/" +:+ key -> has_slash bucket = false ->
  minio_download E bucket key = Ok tt ->
  outcome (run_pipeline E (temp_name E) true (cb_of (Some task_id)) s) = Ok results ->
  let run := run_pipeline_task E task_id video_path s in
  let enhanced := count_if (fun r => blurry r || dark r) results in
  let complete :=
    rep_complete true (Some task_id) results
      (enhanced, count_if (fun r => negb (blurry r || dark r)) results) in
  match minio_upload E bucket "enhanced/reconstructed.mp4" with
  | Ok _ =>
      outcome run
      = Ok (TaskReturn "success" video_path (Z.of_nat (length results)) enhanced
              (bucket +:+ "/" +:+ "enhanced/reconstructed.mp4") results) /\
      exists Tpre,
        emitted run
        = Tpre ++ complete ++ task_success task_id video_path bucket results
  | Raise ex =>
      outcome run = Raise ex /\
      exists Tpre,
        emitted run = Tpre ++ complete ++ task_failure task_id video_path ex
  end.
Proof.
  intros Hcl Hvp Hb Hdl Hok run enhanced complete.
  pose proof (proj2 (split_slash_some video_path bucket key) (conj Hvp Hb)) as Hsplit.
  pose proof (run_eta (run_pipeline E (temp_name E) true (cb_of (Some task_id)) s)) as Hp.
  rewrite Hok in Hp.
  pose proof (run_pipeline_task_fetched _ _ _ _ _ _ _ _ _ Hcl Hsplit Hdl Hp) as Hrun.
  apply run_pipeline_run, pipeline_run_completed in Hp as ([v Hv] & Tpre & _ & HT).
  unfold uploaded in Hrun. rewrite Hv in Hrun. fold run in Hrun. rewrite Hrun, HT.
  destruct (minio_upload E bucket "enhanced/reconstructed.mp4") as [[]|ex].
  - split; [done|]. exists (started video_path :: Tpre).
    unfold emitted. cbn [snd]. by rewrite <- app_assoc.
  - split; [done|]. exists (started video_path :: Tpre).
    unfold emitted. cbn [snd]. by rewrite <- app_assoc.
Qed.

Lemma completed_job_follows_upload_witness :
  exists ret,
    outcome (run_pipeline_task env0 "job-1" "videos/in.mp4" empty_fs) = Ok ret /\
    tr_output_path ret = "videos/enhanced/reconstructed.mp4" /\
    tr_enhanced_frames ret = 2.
Proof.
  destruct (completed_job_follows_upload env0 "job-1" "videos/in.mp4" empty_fs
              "videos" "in.mp4"
              [QualityScore false true true false "frame_000000.jpg";
               QualityScore false true false false "frame_000001.jpg"]
              eq_refl eq_refl eq_refl eq_refl) as [Hret _].
  - vm_compute. reflexivity.
  - eexists. split; [exact Hret|]. split; reflexivity.
Defined.

(** ** The audio track *)

Lemma up_to_last_slash_none p : has_slash p = false -> up_to_last_slash p = "".
Proof.
  induction p as [|c p IH]; [done|]. simpl.
  destruct (Ascii.eqb c "/"); [done|]. simpl. intros H. by rewrite (IH H).
Qed.

Lemma dirname_no_slash p : has_slash p = false -> os_path_dirname p = "".
Proof. intros H. unfold os_path_dirname. by rewrite (up_to_last_slash_none p H). Qed.

(** The records [extract_audio] opens with. *)
Definition audio_opening (video_path output_audio_path : string) : list effect :=
  [Log INFO "Extracting audio from: " video_path;
   Log INFO "Output audio path: " output_audio_path].

(** X20. An output path without a directory part (no slash) makes
    [extract_audio] fail before ffmpeg is started: [os.path.dirname]
    gives the empty path, [os.makedirs] raises [FileNotFoundError] on
    it, the handler logs it and re-raises. No process is run and the
    file system is left as it was. *)
Theorem audio_path_without_directory_raises (E : env)
    (video_path output_audio_path : string) (s : fsys) :
  has_slash output_audio_path = false ->
  extract_audio E video_path output_audio_path s
  = (Raise (FileNotFoundError ""), s,
     audio_opening video_path output_audio_path
       ++ [Log ERROR "Audio extraction failed: " ""]).
Proof.
  intros H. unfold extract_audio, os_makedirs.
  rewrite (dirname_no_slash _ H). reflexivity.
Qed.

Lemma audio_path_without_directory_raises_witness :
  extract_audio env0 "in.mp4" "audio.aac" empty_fs
  = (Raise (FileNotFoundError ""), empty_fs,
     audio_opening "in.mp4" "audio.aac"
       ++ [Log ERROR "Audio extraction failed: " ""]).
Proof. apply (audio_path_without_directory_raises env0 "in.mp4" "audio.aac" empty_fs). reflexivity. Defined.

Lemma makedirs_final d s :
  makedirs d s = (Ok tt, final_fs (makedirs d s), []).
Proof.
  unfold makedirs, bind, get_fs, put_fs, ret, final_fs. simpl.
  by destruct (dirs s !! d).
Qed.

Lemma extract_audio_run E video_path output_audio_path s :
  os_path_dirname output_audio_path <> "" ->
  let cmd := audio_cmd video_path output_audio_path in
  let s' := final_fs (makedirs (os_path_dirname output_audio_path) s) in
  let before :=
    audio_opening video_path output_audio_path
      ++ [Log INFO "Running command: " (join_space cmd); Call "subprocess.run" cmd] in
  extract_audio E video_path output_audio_path s
  = match subprocess_run E cmd with
    | Ok (returncode, stderr) =>
        if returncode =? 0 then
          (Ok output_audio_path, s',
           before ++ [Log INFO "Audio extraction completed successfully!" ""])
        else
          let error_msg := "Audio extraction failed: " +:+ stderr in
          (Raise (RuntimeError error_msg), s',
           before ++ [Log ERROR error_msg "";
                      Log ERROR "Audio extraction failed: " error_msg])
    | Raise ex =>
        (Raise ex, s',
         before ++ [Log ERROR "Audio extraction failed: " (str_exn ex)])
    end.
Proof.
  intros Hd cmd s' before. unfold before, s', extract_audio, os_makedirs.
  apply String.eqb_neq in Hd. rewrite Hd. fold cmd.
  unfold bind at 1. unfold emit at 1. unfold bind at 1. unfold emit at 1.
  unfold try_except. unfold bind at 1. rewrite makedirs_final.
  unfold bind at 1. unfold emit at 1. unfold bind at 1. unfold emit at 1.
  unfold bind at 1. unfold lift at 1.
  destruct (subprocess_run E cmd) as [[returncode stderr]|ex]; [|reflexivity].
  cbn [fst snd]. destruct (returncode =? 0); reflexivity.
Qed.

(** X21. With a directory part in the output path, [extract_audio]
    creates that directory, runs ffmpeg once, and its outcome is that
    of the process: the output path for return code 0; for any other
    code a [RuntimeError] whose text is "Audio extraction failed: "
    followed by the stderr of the process, logged twice (by the branch
    and again, under the same prefix, by the handler); the exception of
    [subprocess.run] itself when it raises. The directory stays
    created in the three cases. *)
Theorem audio_extraction_follows_ffmpeg (E : env)
    (video_path output_audio_path : string) (s : fsys) :
  os_path_dirname output_audio_path <> "" ->
  let cmd := audio_cmd video_path output_audio_path in
  let run := extract_audio E video_path output_audio_path s in
  let before :=
    audio_opening video_path output_audio_path
      ++ [Log INFO "Running command: " (join_space cmd); Call "subprocess.run" cmd] in
  final_fs run = final_fs (makedirs (os_path_dirname output_audio_path) s) /\
  match subprocess_run E cmd with
  | Ok (returncode, stderr) =>
      if returncode =? 0 then
        outcome run = Ok output_audio_path /\
        emitted run
        = before ++ [Log INFO "Audio extraction completed successfully!" ""]
      else
        let error_msg := "Audio extraction failed: " +:+ stderr in
        outcome run = Raise (RuntimeError error_msg) /\
        emitted run
        = before ++ [Log ERROR error_msg "";
                     Log ERROR "Audio extraction failed: " error_msg]
  | Raise ex =>
      outcome run = Raise ex /\
      emitted run = before ++ [Log ERROR "Audio extraction failed: " (str_exn ex)]
  end.
Proof.
  intros Hd cmd run before. unfold run.
  rewrite (extract_audio_run E video_path output_audio_path s Hd). fold cmd.
  destruct (subprocess_run E cmd) as [[returncode stderr]|ex]; [|done].
  destruct (returncode =? 0); done.
Qed.

Lemma audio_extraction_follows_ffmpeg_witness :
  let run := extract_audio env0 "in.mp4" "out/audio.aac" empty_fs in
  outcome run = Raise (RuntimeError "Audio extraction failed: no audio stream") /\
  dirs (final_fs run) !! "out" = Some ∅.
Proof.
  destruct (audio_extraction_follows_ffmpeg env0 "in.mp4" "out/audio.aac" empty_fs)
    as [Hfs Hrun]; [done|].
  split; [exact (proj1 Hrun)|]. rewrite Hfs. reflexivity.
Defined.

(** ** The routes of the API *)

(** A sample world of the API process. *)
Definition api0 : api_env := {|
  now_stamp := "20240101_120000";
  uuid8 := "1a2b3c4d";
  str_http := fun status_code detail => str_int status_code +:+ ": " +:+ detail;
  str_dict := fun _ => "{...}";
  api_upload := fun _ _ _ => Ok tt;
  send_task := fun _ _ => Ok "job-1";
  os_path_exists := fun _ => Ok false
|}.

Lemma or_500_raised {B} A what (body : api_result B) e :
  or_500 A what body = Raised e -> exists detail, e = HTTPException 500 detail.
Proof. destruct body; [done|]. intros [= <-]. by eexists. Qed.

(** X22. The routes answer every failure with status 500. The
    [HTTPException]s raised inside their [try] blocks (400 for an
    upload that is no video, 404 for a job that has not succeeded or
    whose file is missing) are caught by the [except Exception] of the
    same route and raised again as 500, their own status surviving only
    inside the detail text. *)
Theorem routes_answer_failures_with_500 (A : api_env) (E : env) :
  (forall file e,
     enhance_video A E file = Raised e -> exists detail, e = HTTPException 500 detail) /\
  (forall task_id fetched_status e,
     get_enhanced_video A task_id fetched_status = Raised e ->
     exists detail, e = HTTPException 500 detail) /\
  (forall task_id fetched_status e,
     get_task_status_endpoint A task_id fetched_status = Raised e ->
     exists detail, e = HTTPException 500 detail) /\
  (forall file content_type,
     uf_content_type file = Some content_type ->
     startswith content_type "video/" = false ->
     enhance_video A E file
     = Raised (HTTPException 500
                 ("Failed to submit task: " +:+ str_http A 400 "File must be a video"))) /\
  (forall task_id status,
     sr_state status <> "SUCCESS" ->
     get_enhanced_video A task_id (Ok status)
     = Raised (HTTPException 500
                 ("Failed to get enhanced video: "
                    +:+ str_http A 404 "Task not completed or failed"))) /\
  (forall task_id status,
     sr_state status = "SUCCESS" ->
     os_path_exists A (meta_get status "output_path" (VStr "ml_output/reconstructed.mp4"))
     = Ok false ->
     get_enhanced_video A task_id (Ok status)
     = Raised (HTTPException 500
                 ("Failed to get enhanced video: "
                    +:+ str_http A 404 "Enhanced video not found"))).
Proof.
  repeat split.
  - intros file e. apply or_500_raised.
  - intros task_id fetched_status e. apply or_500_raised.
  - intros task_id fetched_status e. apply or_500_raised.
  - intros file content_type Hct Hno. unfold enhance_video. by rewrite Hct, Hno.
  - intros task_id status Hst. unfold get_enhanced_video. simpl.
    apply String.eqb_neq in Hst. by rewrite Hst.
  - intros task_id status Hst Hex. unfold get_enhanced_video. simpl.
    apply String.eqb_eq in Hst. by rewrite Hst, Hex.
Qed.

Lemma task_output_path E task_id video_path s bucket key ret :
  split_slash video_path = Some (bucket, key) ->
  outcome (run_pipeline_task E task_id video_path s) = Ok ret ->
  tr_output_path ret = bucket +:+ "/" +:+ "enhanced/reconstructed.mp4".
Proof.
  intros Hsplit Hret.
  pose proof (run_eta (run_pipeline_task E task_id video_path s)) as Hrun.
  rewrite Hret in Hrun. apply run_pipeline_task_run in Hrun.
  inversion Hrun as [ | | | bucket' results s' Tp Hf Hp Hu]. subst. simpl.
  unfold fetched in Hf. rewrite Hsplit in Hf.
  destruct (get_minio_client E); [|done].
  destruct (minio_download E bucket key); [|done]. by injection Hf as ->.
Qed.

(** X23. What [enhance_video] hands to the worker is what it
    uploaded: when the route returns, the file was stored in the
    bucket "videos" under the key <stamp>_<uuid>_<filename>, the task
    was submitted with the path "videos/" followed by that key, and the
    split that [run_pipeline_task] makes of this path gives back the
    bucket and the whole key, also when the file name itself holds
    slashes. Every such job that returns has stored its result under
    the one object videos/enhanced/reconstructed.mp4. *)
Theorem submitted_path_is_fetched (A : api_env) (E : env) (file : upload_file)
    (resp : enhance_response) :
  enhance_video A E file = Returned resp ->
  let key := now_stamp A +:+ "_" +:+ uuid8 A +:+ "_" +:+ uf_filename file in
  (exists content_type,
     uf_content_type file = Some content_type /\
     api_upload A "videos" key content_type = Ok tt) /\
  send_task A "ml.tasks.run_pipeline_task" (er_minio_object_path resp)
  = Ok (er_task_id resp) /\
  er_task_status_url resp = "/api/v1/task-status/" +:+ er_task_id resp /\
  split_slash (er_minio_object_path resp) = Some ("videos", key) /\
  (forall W s ret,
     outcome (run_pipeline_task W (er_task_id resp) (er_minio_object_path resp) s) = Ok ret ->
     tr_output_path ret = "videos/enhanced/reconstructed.mp4").
Proof.
  intros H key. unfold enhance_video in H. fold key in H.
  destruct (uf_content_type file) as [content_type|]; [|done].
  destruct (startswith content_type "video/"); [|done]. simpl in H.
  destruct (get_minio_client E) as [[]|]; [|done]. simpl in H.
  destruct (api_upload A "videos" key content_type) as [[]|] eqn:Hup; [|done].
  simpl in H.
  destruct (send_task A "ml.tasks.run_pipeline_task" ("videos" +:+ "/" +:+ key))
    as [task_id|] eqn:Hsend; [|done].
  simpl in H. injection H as <-. cbn [er_minio_object_path er_task_id er_task_status_url].
  assert (split_slash ("videos" +:+ "/" +:+ key) = Some ("videos", key)) as Hsplit.
  { by apply split_slash_some. }
  split; [by exists content_type|]. split; [done|]. split; [done|]. split; [done|].
  intros W s ret Hret. by rewrite (task_output_path _ _ _ _ _ _ _ Hsplit Hret).
Qed.

Lemma submitted_path_is_fetched_witness :
  split_slash "videos/20240101_120000_1a2b3c4d_holiday/day 1.mp4"
  = Some ("videos", "20240101_120000_1a2b3c4d_holiday/day 1.mp4").
Proof.
  refine (proj1 (proj2 (proj2 (proj2
    (submitted_path_is_fetched api0 env0
       (UploadFile "holiday/day 1.mp4" (Some "video/mp4")) _ eq_refl))))).
Defined.

(** ** What a poll of the status shows *)

Lemma percent_not_empty d q : percent d = Some q -> meta_truthy
  (StatusResponse "PROGRESS" (default (VStr "") (d !! "status")) (Some d)) = true.
Proof.
  unfold percent, meta_truthy. simpl. intros H.
  rewrite negb_true_iff, bool_decide_eq_false. intros Hd.
  apply dom_empty_inv_L in Hd. subst d. by rewrite lookup_empty in H.
Qed.

(** The states a run of the pipeline records on the task. *)
Lemma pipeline_run_updates E ch video_path s r s' T st d :
  pipeline_run E true ch video_path s r s' T ->
  UpdateState st d ∈ T ->
  (st = "PROGRESS" /\ exists q, percent d = Some q /\ (q <= 100)%Q) \/ st = "FAILURE".
Proof.
  intros H Hin. apply pipeline_run_shape in H as (Tpre & Hrun & _ & Hr).
  assert (UpdateState st d ∈ Tpre ->
          st = "PROGRESS" /\ exists q, percent d = Some q /\ (q <= 100)%Q) as Hpre.
  { intros Hp. rewrite Forall_forall in Hrun. destruct (Hrun _ Hp) as (-> & q & Hq & Hlt).
    split; [done|]. exists q. split; [done|]. by apply Qlt_le_weak. }
  destruct r as [results|ex].
  - destruct Hr as (counts & ->). apply elem_of_app in Hin as [Hin|Hin]; [left; auto|].
    left. unfold rep_complete, rep, reports in Hin.
    apply elem_of_app in Hin as [Hin|Hin].
    + apply list_elem_of_singleton in Hin. injection Hin as -> ->.
      split; [done|]. exists 100%Q. split; [|apply Qle_refl].
      unfold percent, update_data_of.
      rewrite lookup_union_r by done. reflexivity.
    + destruct ch; [|by apply elem_of_nil in Hin].
      by apply list_elem_of_singleton in Hin.
  - destruct Hr as (what & ->). apply elem_of_app in Hin as [Hin|Hin]; [left; auto|].
    right. unfold failure in Hin. apply elem_of_cons in Hin as [Hin|Hin]; [done|].
    apply list_elem_of_singleton in Hin. by injection Hin as -> _.
Qed.

(** X24. What the status endpoint shows for the states a job records
    on its way. For a progress report it shows the percent of the
    report. For the STARTED and SUCCESS states, whose dictionaries hold
    no [progress_percent] and no [step], it shows progress 0 and step
    UNKNOWN: a client that polls sees the progress fall from 100 to 0
    when the job succeeds. For SUCCESS the path it looks up in the file
    system of the API process is the MinIO object path
    <bucket>/enhanced/reconstructed.mp4 the worker recorded, and the
    video is offered only when a file exists there. *)
Theorem polled_progress (A : api_env) (E : env) (task_id video_path : string)
    (s : fsys) (st : string) (d : gmap string value) :
  UpdateState st d ∈ emitted (run_pipeline_task E task_id video_path s) ->
  st <> "FAILURE" ->
  let answer := get_task_status_endpoint A task_id (get_task_status A st (InfoDict d)) in
  (st = "PROGRESS" /\
   exists q view,
     percent d = Some q /\ (q <= 100)%Q /\
     answer = Returned view /\ sv_progress view = VNum q /\
     sv_enhanced_video_path view = None) \/
  (st = "STARTED" /\
   exists view,
     answer = Returned view /\ sv_progress view = VInt 0 /\
     sv_step view = VStr "UNKNOWN" /\ sv_enhanced_video_path view = None) \/
  (st = "SUCCESS" /\
   exists bucket key,
     split_slash video_path = Some (bucket, key) /\
     let output_path := VStr (bucket +:+ "/" +:+ "enhanced/reconstructed.mp4") in
     forall view,
       answer = Returned view ->
       sv_progress view = VInt 0 /\ sv_step view = VStr "UNKNOWN" /\
       sv_enhanced_video_path view
       = match os_path_exists A output_path with
         | Ok true => Some output_path
         | _ => None
         end).
Proof.
  intros Hin Hnf answer.
  assert (forall ch r s' T,
            pipeline_run E true ch (temp_name E) s r s' T -> UpdateState st d ∈ T ->
            st = "PROGRESS" /\
            exists q view,
              percent d = Some q /\ (q <= 100)%Q /\
              answer = Returned view /\ sv_progress view = VNum q /\
              sv_enhanced_video_path view = None) as Hprog.
  { intros ch r s' T Hp HT.
    destruct (pipeline_run_updates _ _ _ _ _ _ _ _ _ Hp HT) as [(-> & q & Hq & Hle)| ->];
      [|done].
    split; [done|]. exists q. eexists. split; [done|]. split; [done|].
    unfold answer, get_task_status, get_task_status_endpoint. simpl.
    rewrite (percent_not_empty d q Hq). split; [reflexivity|]. split; [|done].
    simpl. unfold meta_get. simpl. unfold percent in Hq.
    destruct (d !! "progress_percent") as [[]|]; try done. simpl. by injection Hq as ->. }
  assert (UpdateState st d ∈ task_failure task_id video_path
            (match outcome (run_pipeline_task E task_id video_path s) with
             | Raise ex => ex | Ok _ => ValueError "" end) -> False) as Hfail.
  { intros Hf. unfold task_failure in Hf. apply elem_of_cons in Hf as [Hf|Hf].
    - by injection Hf as -> _.
    - apply elem_of_cons in Hf as [Hf|Hf]; [done|]. by apply list_elem_of_singleton in Hf. }
  pose proof (run_eta (run_pipeline_task E task_id video_path s)) as Hrun.
  apply run_pipeline_task_run in Hrun. revert Hin Hfail.
  destruct (run_pipeline_task E task_id video_path s) as [[r s'] T].
  unfold outcome, emitted, final_fs in *. simpl in *. intros Hin Hfail.
  assert (UpdateState st d = started video_path ->
          st = "STARTED" /\
          exists view,
            answer = Returned view /\ sv_progress view = VInt 0 /\
            sv_step view = VStr "UNKNOWN" /\ sv_enhanced_video_path view = None) as Hst.
  { intros [= -> ->]. split; [done|]. by eexists. }
  inversion Hrun as
    [ ex Hf | bucket ex s1 Tp Hf Hp | bucket results s1 Tp ex Hf Hp Hu
    | bucket results s1 Tp Hf Hp Hu ]; subst.
  - done.
  - apply elem_of_cons in Hin as [Hin|Hin]; [right; left; auto|].
    apply elem_of_app in Hin as [Hin|Hin]; [left; eauto|done].
  - apply elem_of_cons in Hin as [Hin|Hin]; [right; left; auto|].
    apply elem_of_app in Hin as [Hin|Hin]; [left; eauto|done].
  - apply elem_of_cons in Hin as [Hin|Hin]; [right; left; auto|].
    apply elem_of_app in Hin as [Hin|Hin]; [left; eauto|].
    right. right. unfold task_success in Hin.
    apply elem_of_cons in Hin as [Hin|Hin];
      [|by apply list_elem_of_singleton in Hin].
    injection Hin as -> ->. split; [done|].
    unfold fetched in Hf. destruct (get_minio_client E); [|done].
    destruct (split_slash video_path) as [[b key]|]; [|done].
    destruct (minio_download E b key); [|done]. injection Hf as ->.
    exists bucket, key. split; [done|]. clear Hprog Hfail Hrun Hst Hp Hu.
    intros view.
    unfold answer, get_task_status, get_task_status_endpoint. simpl.
    unfold meta_get. simpl.
    destruct (os_path_exists A _) as [[]|]; simpl; [| |done].
    + by intros [= <-].
    + by intros [= <-].
Qed.

Lemma polled_progress_witness :
  exists view,
    get_task_status_endpoint api0 "job-1"
      (get_task_status api0 "SUCCESS"
         (InfoDict
            {[ "status" := VStr "Pipeline completed successfully";
               "video_path" := VStr "videos/in.mp4";
               "total_frames" := VInt 2;
               "enhanced_frames" := VInt 2;
               "output_path" := VStr "videos/enhanced/reconstructed.mp4" ]}))
    = Returned view /\
    sv_progress view = VInt 0 /\ sv_step view = VStr "UNKNOWN" /\
    sv_enhanced_video_path view = None.
Proof.
  destruct (polled_progress api0 env0 "job-1" "videos/in.mp4" empty_fs "SUCCESS"
              {[ "status" := VStr "Pipeline completed successfully";
                 "video_path" := VStr "videos/in.mp4";
                 "total_frames" := VInt 2;
                 "enhanced_frames" := VInt 2;
                 "output_path" := VStr "videos/enhanced/reconstructed.mp4" ]})
    as [[H _]|[[H _]|[_ (bucket & key & Hs & Hv)]]].
  - apply (list_elem_of_lookup_2 _ 45%nat). vm_compute. reflexivity.
  - discriminate.
  - discriminate H.
  - discriminate H.
  - injection Hs as <- <-. eexists. split; [reflexivity|]. by apply Hv.
Defined.

(** ** The Redis client *)

(** A sample server: reachable, with a JSON codec that knows one
    number and one dictionary. *)
Definition redis0 : redis_env := {|
  redis_connect := Ok tt;
  redis_ping := Ok true;
  redis_command := fun _ => Ok tt;
  receivers := fun _ => 1;
  json_dumps := fun v =>
    match v with
    | RVal (VInt 123) => Ok "123"
    | RDict _ => Ok "{}"
    | _ => Raise (ExternalError "Object is not JSON serializable")
    end;
  json_loads := fun s =>
    if String.eqb s "123" then Some (RVal (VInt 123))
    else if String.eqb s "{}" then Some (RDict ∅)
    else None
|}.

(** The same codec behind a server that accepts the connection and
    fails the ping. *)
Definition redis_down : redis_env := {|
  redis_connect := Ok tt;
  redis_ping := Raise (ExternalError "Connection refused");
  redis_command := fun _ => Raise (ExternalError "Connection refused");
  receivers := fun _ => 0;
  json_dumps := json_dumps redis0;
  json_loads := json_loads redis0
|}.

Definition fresh : redis := Redis false ∅.

Lemma client_store R c : store (client R c).1.2 = store c.
Proof.
  unfold client. destruct (client_set c); [done|].
  destruct (redis_connect R); [|done]. by destruct (redis_ping R).
Qed.

(** A command that does not reach the server: the client cannot be
    had, or the command raises. *)
Definition out_of_reach (R : redis_env) (command : string) (c : redis) : Prop :=
  (exists e, (client R c).1.1 = Raise e) \/ (exists e, redis_command R command = Raise e).

Lemma on_server_out_of_reach {B} R command c (k : _ -> B * _) :
  out_of_reach R command c ->
  exists e c1 t, on_server R command c k = (Raise e, c1, t) /\ store c1 = store c.
Proof.
  intros H. unfold out_of_reach in H. unfold on_server.
  pose proof (client_store R c) as Hs.
  destruct (client R c) as [[[[]|e] c1] t]; simpl in *.
  - destruct H as [[e He]|[e He]]; [done|]. rewrite He. by exists e, c1, t.
  - by exists e, c1, t.
Qed.

Lemma on_server_keeps {B} R command c (k : _ -> B * _) :
  (forall keys, (k keys).2 = keys) ->
  store (on_server R command c k).1.2 = store c.
Proof.
  intros Hk. unfold on_server. pose proof (client_store R c) as Hs.
  destruct (client R c) as [[[[]|e] c1] t]; simpl in *; [|done].
  destruct (redis_command R command); [|done].
  specialize (Hk (store c1)). destruct (k (store c1)) as [b keys]. simpl in *.
  by rewrite Hk.
Qed.

Lemma or_default_ok {B} what (fallback : B) attempt :
  exists b, (or_default what fallback attempt).1.1 = Ok b.
Proof. destruct attempt as [[[b|e] c] t]; by eexists. Qed.

Lemma or_default_store {B} what (fallback : B) attempt :
  store (or_default what fallback attempt).1.2 = store attempt.1.2.
Proof. by destruct attempt as [[[b|e] c] t]. Qed.

(** X25. The methods of [RedisClient] never raise; a failure is
    logged and turned into the default answer. [publish] answers 0,
    [set] answers False and [get] answers the default it was given
    whenever the server is out of reach (the client cannot be had or
    the command raises), and for [publish] and [set] also when the
    message cannot be serialised. [publish] and [get] never change a
    key, and a [set] that fails changes none. *)
Theorem redis_failures_give_defaults (R : redis_env) (c : redis) :
  (forall channel message,
     let run := redis_publish R channel message c in
     (exists n, run.1.1 = Ok n) /\ store run.1.2 = store c /\
     (out_of_reach R "PUBLISH" c \/ (exists e, serialize R message = Raise e) ->
      run.1.1 = Ok 0)) /\
  (forall key v ex,
     let run := redis_set R key v ex c in
     (exists b, run.1.1 = Ok b) /\
     (out_of_reach R "SET" c \/ (exists e, serialize R v = Raise e) ->
      run.1.1 = Ok false /\ store run.1.2 = store c)) /\
  (forall key fallback,
     let run := redis_get R key fallback c in
     (exists v, run.1.1 = Ok v) /\ store run.1.2 = store c /\
     (out_of_reach R "GET" c -> run.1.1 = Ok fallback)).
Proof.
  split; [|split].
  - intros channel message run. unfold run, redis_publish.
    split; [apply or_default_ok|]. split.
    + rewrite or_default_store. destruct (serialize R message); [|done].
      by apply on_server_keeps.
    + intros [H|[e He]].
      * destruct (serialize R message); [|done].
        by destruct (on_server_out_of_reach R "PUBLISH" c
                       (fun keys => (receivers R channel, keys)) H)
          as (e & c1 & t & -> & _).
      * by rewrite He.
  - intros key v ex run. unfold run, redis_set. split; [apply or_default_ok|].
    intros [H|[e He]].
    + destruct (serialize R v) as [payload|]; [|done].
      by destruct (on_server_out_of_reach R "SET" c
                     (fun keys => (true, <[key := (payload, ex)]> keys)) H)
        as (e & c1 & t & -> & Hs).
    + by rewrite He.
  - intros key fallback run. unfold run, redis_get.
    split; [apply or_default_ok|]. split.
    + rewrite or_default_store. by apply on_server_keeps.
    + intros H.
      by destruct (on_server_out_of_reach R "GET" c
                     (fun keys => (match keys !! key with
                                   | None => fallback
                                   | Some raw => Some (deserialize R raw.1)
                                   end, keys)) H)
        as (e & c1 & t & -> & _).
Qed.

(** X26. Once the ping of the first connection has failed, the client
    object stays: [client] raised, but [self._client] was assigned
    before the ping, so every later access hands out that client
    without connecting, pinging or logging again, whatever the state of
    the server. The keys are not touched. *)
Theorem failed_ping_leaves_client (R : redis_env) (c : redis) (e : exn) :
  client_set c = false ->
  redis_connect R = Ok tt ->
  redis_ping R = Raise e ->
  exists c1,
    client R c = (Raise e, c1, [Log ERROR "Failed to connect to Redis: " (str_exn e)]) /\
    client_set c1 = true /\ store c1 = store c /\
    forall R', client R' c1 = (Ok tt, c1, []).
Proof.
  intros Hc Hconn Hping. exists (Redis true (store c)).
  unfold client at 1. rewrite Hc, Hconn, Hping. repeat split.
Qed.

Lemma failed_ping_leaves_client_witness :
  exists c1,
    (client redis_down fresh).1.1 = Raise (ExternalError "Connection refused") /\
    (client redis_down fresh).1.2 = c1 /\
    client redis_down c1 = (Ok tt, c1, []).
Proof.
  destruct (failed_ping_leaves_client redis_down fresh (ExternalError "Connection refused")
              eq_refl eq_refl eq_refl) as (c1 & Hrun & _ & _ & Hnext).
  exists c1. rewrite Hrun. repeat split. apply Hnext.
Defined.

(** X27. Writing a key and reading it back. With the server in reach
    and the value serialisable, [set] answers True and a [get] of the
    same key answers what [json.loads] makes of the stored text, and
    the stored text itself only when it is no JSON. So a dictionary
    comes back as it was when the codec round-trips it, while a string
    is stored as it is and comes back parsed when it happens to be
    JSON: the string 123 is read back as the number 123. The default
    of [get] is not used. *)
Theorem redis_set_get_round_trip (R : redis_env) (c : redis) (key : string)
    (v : redis_value) (ex : option Z) (fallback : option redis_value) (payload : string) :
  (client R c).1.1 = Ok tt ->
  redis_command R "SET" = Ok tt ->
  redis_command R "GET" = Ok tt ->
  serialize R v = Ok payload ->
  let written := redis_set R key v ex c in
  let read := redis_get R key fallback written.1.2 in
  written.1.1 = Ok true /\
  store written.1.2 = <[key := (payload, ex)]> (store c) /\
  read.1.1 = Ok (Some (deserialize R payload)) /\
  (json_loads R payload = Some v -> read.1.1 = Ok (Some v)) /\
  (forall s w, v = RVal (VStr s) -> json_loads R s = Some w -> read.1.1 = Ok (Some w)) /\
  (forall s, v = RVal (VStr s) -> json_loads R s = None -> read.1.1 = Ok (Some v)).
Proof.
  intros Hcl Hset Hget Hser written read.
  assert (exists c1 t, client R c = (Ok tt, c1, t) /\ client_set c1 = true /\
                       store c1 = store c) as (c1 & t & Hrun & Hc1 & Hs1).
  { pose proof (client_store R c) as Hs. unfold client in *.
    destruct (client_set c) eqn:Hc; [by eexists _, _|].
    destruct (redis_connect R) as [[]|]; [|done].
    destruct (redis_ping R); [|done]. by eexists _, _. }
  assert (written = (Ok true, Redis true (<[key := (payload, ex)]> (store c)), t)) as Hw.
  { unfold written, redis_set, on_server. rewrite Hser, Hrun, Hset. simpl.
    by rewrite Hc1, Hs1. }
  assert (read.1.1 = Ok (Some (deserialize R payload))) as Hr.
  { unfold read. rewrite Hw. unfold redis_get, on_server. simpl.
    rewrite Hget. simpl. by rewrite lookup_insert_eq. }
  rewrite Hw. simpl. split; [done|]. split; [done|]. split; [done|].
  rewrite Hr. unfold deserialize. split; [|split].
  - by intros ->.
  - intros s w -> Hs. simpl in Hser. injection Hser as <-. by rewrite Hs.
  - intros s -> Hs. simpl in Hser. injection Hser as <-. by rewrite Hs.
Qed.

Lemma redis_set_get_round_trip_witness :
  (redis_get redis0 "k" None (redis_set redis0 "k" (RVal (VStr "123")) None fresh).1.2).1.1
  = Ok (Some (RVal (VInt 123))).
Proof.
  refine (proj1 (proj2 (proj2 (proj2 (proj2
    (redis_set_get_round_trip redis0 fresh "k" (RVal (VStr "123")) None None "123"
       eq_refl eq_refl eq_refl eq_refl))))) "123" (RVal (VInt 123)) eq_refl eq_refl).
Defined.

(** * The claims on extraction, analysis and the terminal events *)

(** ** What extraction saves *)

(** The frames [cv2.imwrite] saves when the loop goes through [frames]
    with its counter at [saved_frames]: a frame is written under the
    name of the counter, and the counter moves only when the write
    succeeds. *)
Fixpoint saved_of (E : env) (output_dir : string) (frames : list image)
    (saved_frames : Z) : list image :=
  match frames with
  | [] => []
  | frame :: rest =>
      if imwrite_ok E (os_path_join output_dir (frame_name saved_frames)) frame
      then frame :: saved_of E output_dir rest (saved_frames + 1)
      else saved_of E output_dir rest saved_frames
  end.

(** The error records of the writes that fail. *)
Fixpoint save_failures (E : env) (output_dir : string) (frames : list image)
    (saved_frames : Z) : list effect :=
  match frames with
  | [] => []
  | frame :: rest =>
      if imwrite_ok E (os_path_join output_dir (frame_name saved_frames)) frame
      then save_failures E output_dir rest (saved_frames + 1)
      else Log ERROR ("Failed to save frame " +:+ str_int saved_frames +:+ " to ")
             (os_path_join output_dir (frame_name saved_frames))
           :: save_failures E output_dir rest saved_frames
  end.

Lemma saved_of_sublist E d frames : forall saved,
  saved_of E d frames saved `sublist_of` frames.
Proof.
  induction frames as [|f rest IH]; intros saved; cbn [saved_of]; [done|].
  destruct (imwrite_ok E _ f).
  - by apply sublist_skip.
  - by apply sublist_cons.
Qed.

Lemma save_failures_length E d frames : forall saved,
  (length (saved_of E d frames saved) + length (save_failures E d frames saved)
   = length frames)%nat.
Proof.
  induction frames as [|f rest IH]; intros saved; cbn [saved_of save_failures]; [done|].
  destruct (imwrite_ok E _ f); cbn [length].
  - by rewrite <- (IH (saved + 1)).
  - rewrite <- (IH saved). lia.
Qed.

Lemma saved_of_all E d frames : forall saved,
  (forall p img, imwrite_ok E p img = true) -> saved_of E d frames saved = frames.
Proof.
  intros saved Hok. revert saved.
  induction frames as [|f rest IH]; intros saved; cbn [saved_of]; [done|].
  by rewrite Hok, IH.
Qed.

Lemma saved_of_none E d frames : forall saved,
  (forall p img, imwrite_ok E p img = false) -> saved_of E d frames saved = [].
Proof.
  intros saved Hno. revert saved.
  induction frames as [|f rest IH]; intros saved; cbn [saved_of]; [done|].
  by rewrite Hno, IH.
Qed.

Lemma readable_prefix before rest : readable ((Some <$> before) ++ None :: rest) = before.
Proof.
  induction before as [|f l IH]; [done|].
  rewrite fmap_cons. cbn [app readable]. by rewrite IH.
Qed.

(** The loop that saves every frame, in full: the count it returns,
    the directory it leaves and the records it logs. *)
Lemma extract_loop_saves E d fps reads : forall saved s files,
  dirs s !! d = Some files ->
  extract_loop E d true fps reads saved s
  = (Ok (saved + Z.of_nat (length (saved_of E d (readable reads) saved))),
     Fsys (<[d := with_frames files saved (saved_of E d (readable reads) saved)]> (dirs s))
       (videos s),
     save_failures E d (readable reads) saved).
Proof.
  induction reads as [|[frame|] rest IH]; intros saved s files Hd;
    cbn [extract_loop readable saved_of save_failures with_frames length].
  - unfold ret. rewrite Z.add_0_r, insert_id by done. by destruct s.
  - unfold bind. rewrite imwrite_run. unfold can_write, stored. rewrite Hd.
    destruct (imwrite_ok E (os_path_join d (frame_name saved)) frame).
    + rewrite (IH (saved + 1) _ (<[frame_name saved := Decodes frame]> files)).
      * cbn [length with_frames dirs videos]. rewrite insert_insert_eq.
        rewrite app_nil_l. do 3 f_equal. lia.
      * simpl. apply lookup_insert_eq.
    + unfold emit. by rewrite (IH saved s files Hd).
  - unfold ret. rewrite Z.add_0_r, insert_id by done. by destruct s.
Qed.

Lemma extract_frames_saves E video_path d s cap :
  capture E video_path = Some cap ->
  extract_frames E video_path d true s
  = (Ok (Z.of_nat (length (saved_of E d (readable (cap_reads cap)) 0))),
     Fsys (<[d := with_frames (dir_of s d) 0 (saved_of E d (readable (cap_reads cap)) 0)]>
             (dirs s))
       (videos s),
     Log INFO "Starting frame extraction from: " video_path
     :: save_failures E d (readable (cap_reads cap)) 0).
Proof.
  intros Hc. unfold extract_frames, bind, emit, try_except. rewrite Hc.
  rewrite makedirs_eq.
  rewrite (extract_loop_saves _ _ _ _ _ _ (dir_of s d)); [|apply lookup_insert_eq].
  cbn [dirs videos]. by rewrite insert_insert_eq.
Qed.

Lemma extract_frames_closed E video_path d s :
  capture E video_path = None ->
  extract_frames E video_path d true s
  = (Raise (ValueError ("Failed to open video file: " +:+ video_path)),
     Fsys (<[d := dir_of s d]> (dirs s)) (videos s),
     [Log INFO "Starting frame extraction from: " video_path;
      Log ERROR ("Failed to open video file: " +:+ video_path) ""]).
Proof.
  intros Hc. unfold extract_frames, bind, emit. rewrite Hc. by rewrite makedirs_eq.
Qed.

(** A capture that fails its second read and has a frame left after
    it. *)
Definition env_gap : env :=
  sample_env (Some (Capture 24 3 [Some img_small; None; Some img_hd])) upscale_x2
    (Ok (0, "")) (Ok tt).

(** The small frame cannot be written; any other frame can. *)
Definition env_flaky : env := {|
  blur_body := fun _ => Ok false;
  dark_body := fun _ => Ok true;
  pixelated_body := fun _ => Ok false;
  imwrite_ok := fun _ img => negb (hd 0 (shape img) =? 100);
  model_init := Ok tt;
  upsample := upscale_x2;
  capture := fun _ => Some two_frames;
  writer_opens := fun _ => true;
  path_exists := fun _ => true;
  subprocess_run := fun _ => Ok (0, "");
  get_minio_client := Ok tt;
  minio_download := fun _ _ => Ok tt;
  minio_upload := fun _ _ => Ok tt;
  temp_name := "/tmp/tmpabc.mp4"
|}.

(** C7, as the claim states it, fails twice. From a source that opens
    and yields no frame, [extract_frames] returns 0 and raises nothing.
    And a frame that cannot be decoded is not skipped: the failed read
    ends the loop, so of a source whose second read fails only the
    first frame is saved, and the frame after the failed read is never
    read (there is no second file). *)
Lemma extraction_neither_raises_nor_skips :
  outcome (extract_frames env_no_frames "input.mp4" frames_d true empty_fs) = Ok 0 /\
  (let run := extract_frames env_gap "input.mp4" frames_d true empty_fs in
   outcome run = Ok 1 /\
   decoded (final_fs run) frames_d (frame_name 0) = Some img_small /\
   dir_of (final_fs run) frames_d !! frame_name 1 = None).
Proof. split; [reflexivity|]. vm_compute. by repeat split. Qed.

(** C7, amended. [extract_frames] raises a [ValueError] when the source
    cannot be opened, and saves nothing. When the source opens,
    extracting all frames never raises, also when no frame is saved.
    The frames it goes through are those read before the first failed
    read, which ends the loop. Each is written under the name of the
    counter; a failed write is logged and not counted (the next frame
    is written under the same name). The number returned is the number
    of frames saved, and the [i]-th frame saved is in the file named
    after [i]; the other files, the other directories and the videos
    are as before. *)
Theorem extraction_outcome (E : env) (video_path output_dir : string) (s : fsys) :
  let run := extract_frames E video_path output_dir true s in
  match capture E video_path with
  | None =>
      outcome run = Raise (ValueError ("Failed to open video file: " +:+ video_path)) /\
      dir_of (final_fs run) output_dir = dir_of s output_dir
  | Some cap =>
      let frames := readable (cap_reads cap) in
      let saved := saved_of E output_dir frames 0 in
      outcome run = Ok (Z.of_nat (length saved)) /\
      (forall (i : nat) frame,
         saved !! i = Some frame ->
         decoded (final_fs run) output_dir (frame_name (Z.of_nat i)) = Some frame) /\
      (forall name,
         (forall i, 0 <= i < Z.of_nat (length saved) -> name <> frame_name i) ->
         dir_of (final_fs run) output_dir !! name = dir_of s output_dir !! name) /\
      (forall d', d' <> output_dir -> dirs (final_fs run) !! d' = dirs s !! d') /\
      videos (final_fs run) = videos s /\
      emitted run
      = Log INFO "Starting frame extraction from: " video_path
        :: save_failures E output_dir frames 0 /\
      (length saved + length (save_failures E output_dir frames 0) = length frames)%nat /\
      saved `sublist_of` frames /\
      (forall before rest,
         cap_reads cap = (Some <$> before) ++ None :: rest -> frames = before) /\
      ((forall p img, imwrite_ok E p img = true) -> saved = frames) /\
      ((forall p img, imwrite_ok E p img = false) -> saved = [])
  end.
Proof.
  intros run. unfold run. destruct (capture E video_path) as [cap|] eqn:Hc.
  - cbv zeta. rewrite (extract_frames_saves E video_path output_dir s cap Hc).
    set (frames := readable (cap_reads cap)).
    set (saved := saved_of E output_dir frames 0).
    unfold outcome, final_fs, emitted. cbn [fst snd].
    split; [done|]. split; [|split; [|split; [|split; [|split; [|split; [|split;
      [|split; [|split]]]]]]]].
    + intros i frame Hi. unfold decoded. cbn [dirs]. rewrite lookup_insert_eq.
      by rewrite (with_frames_new _ _ 0 i frame).
    + intros name Hname. unfold dir_of at 1. cbn [dirs]. rewrite lookup_insert_eq.
      cbn [default]. apply with_frames_old. intros i Hi. rewrite Z.add_0_l.
      by apply Hname.
    + intros d' Hne. cbn [dirs]. by rewrite lookup_insert_ne.
    + done.
    + done.
    + apply save_failures_length.
    + apply saved_of_sublist.
    + intros before rest Hr. unfold frames. rewrite Hr. apply readable_prefix.
    + intros Hok. by apply saved_of_all.
    + intros Hno. by apply saved_of_none.
  - rewrite (extract_frames_closed E video_path output_dir s Hc).
    split; [done|]. unfold final_fs, dir_of. cbn [fst snd dirs].
    by rewrite lookup_insert_eq.
Qed.

(** The first of two frames cannot be written: one frame is counted,
    and it is the second one that the file of the counter 0 holds. *)
Lemma extraction_outcome_witness :
  let run := extract_frames env_flaky "input.mp4" frames_d true empty_fs in
  outcome run = Ok 1 /\
  decoded (final_fs run) frames_d "frame_000000.jpg" = Some img_hd /\
  emitted run
  = [Log INFO "Starting frame extraction from: " "input.mp4";
     Log ERROR "Failed to save frame 0 to " "ml_output/frames/frame_000000.jpg"].
Proof.
  intros run.
  pose proof (extraction_outcome env_flaky "input.mp4" frames_d empty_fs) as H.
  cbv zeta in H. change (capture env_flaky "input.mp4") with (Some two_frames) in H.
  cbv beta iota in H. destruct H as (Ho & Hf & _ & _ & _ & HT & _).
  split; [exact Ho|]. split; [exact (Hf 0%nat img_hd eq_refl) | exact HT].
Defined.

(** ** The stages of a run that completes *)

Lemma StronglySorted_sublist {A} (R : relation A) (l1 l2 : list A) :
  l1 `sublist_of` l2 -> StronglySorted R l2 -> StronglySorted R l1.
Proof.
  induction 1 as [|x l1 l2 Hs IH|x l1 l2 Hs IH]; intros H2; [done| |].
  - apply StronglySorted_inv in H2 as [H2 Hx]. constructor; [by apply IH|].
    rewrite Forall_forall in Hx. apply Forall_forall. intros y Hy. apply Hx.
    by eapply sublist_subseteq.
  - apply StronglySorted_inv in H2 as [H2 _]. by apply IH.
Qed.









Section stages.
Context (E : env) (task : bool) (ch : option string).



End stages.





(** ** The two views of a job: the state record and the channel *)

Lemma broadcast_app T1 T2 : broadcast (T1 ++ T2) = broadcast T1 ++ broadcast T2.
Proof. apply omap_app. Qed.

Lemma broadcast_Forall (P : effect -> Prop) T : Forall P T -> Forall P (broadcast T).
Proof.
  induction 1 as [|ev T Hev _ IH]; [constructor|].
  destruct ev; simpl; try done. by constructor.
Qed.

Lemma broadcast_failure what e : broadcast (failure true what e) = [].
Proof. reflexivity. Qed.

Lemma broadcast_reports task c d :
  broadcast (reports task (Some c) d) = [Publish ("task_updates:" +:+ c) d].
Proof. unfold reports. by destruct task. Qed.

Lemma percents_status T : percents (status T) `sublist_of` percents T.
Proof.
  induction T as [|ev T IH]; [done|].
  destruct ev as [st d|c d|lvl text arg|fn args]; try exact IH.
  - change (status (UpdateState st d :: T)) with (UpdateState st d :: status T).
    unfold percents in *. cbn [omap list_omap percent_of].
    destruct (percent d); [by apply sublist_skip | done].
  - change (status (Publish c d :: T)) with (status T).
    unfold percents in *. cbn [omap list_omap percent_of].
    destruct (percent d); [by apply sublist_cons | done].
Qed.

Lemma percents_broadcast T : percents (broadcast T) `sublist_of` percents T.
Proof.
  induction T as [|ev T IH]; [done|].
  destruct ev as [st d|c d|lvl text arg|fn args]; try exact IH.
  - change (broadcast (UpdateState st d :: T)) with (broadcast T).
    unfold percents in *. cbn [omap list_omap percent_of].
    destruct (percent d); [by apply sublist_cons | done].
  - change (broadcast (Publish c d :: T)) with (Publish c d :: broadcast T).
    unfold percents in *. cbn [omap list_omap percent_of].
    destruct (percent d); [by apply sublist_skip | done].
Qed.

(** The two views of a run of [run_pipeline] alone. On the record its
    updates end with its one terminal event. On the channel its
    handlers are silent: a run that raises has published no terminal
    event, a run that returns has published one, the report of 100
    percent, last. *)
Lemma pipeline_views E c video_path s :
  let inner := run_pipeline E video_path true (cb_of (Some c)) s in
  exists pre last,
    status (emitted inner) = pre ++ [last] /\
    Forall (fun ev => ~ terminal ev) pre /\
    match outcome inner with
    | Ok _ =>
        is_completion last /\
        exists msgs report,
          broadcast (emitted inner) = msgs ++ [report] /\
          Forall (fun ev => ~ terminal ev) msgs /\ is_completion report
    | Raise _ =>
        is_failure last /\
        Forall (fun ev => ~ terminal ev) (broadcast (emitted inner))
    end.
Proof.
  intros inner.
  pose proof (run_pipeline_run E true (Some c) video_path s _ _ _ (run_eta inner)) as H.
  apply pipeline_run_shape in H as (Tpre & Hrun & _ & H).
  assert (Forall (fun ev => ~ terminal ev) Tpre) as Hnt.
  { eapply Forall_impl; [exact Hrun|]. apply running_not_terminal. }
  destruct (outcome inner) as [results|ex].
  - destruct H as (counts & ->). eexists (status Tpre), _.
    rewrite status_app. unfold rep_complete, rep. rewrite status_reports.
    split; [done|]. split; [by apply status_Forall|]. split; [by exists 100%Q|].
    eexists (broadcast Tpre), _. rewrite broadcast_app, broadcast_reports.
    split; [done|]. split; [by apply broadcast_Forall|]. by exists 100%Q.
  - destruct H as (what & ->). eexists (status Tpre), _.
    rewrite status_app, status_failure. split; [done|].
    split; [by apply status_Forall|]. split; [done|].
    rewrite broadcast_app, broadcast_failure, app_nil_r. by apply broadcast_Forall.
Qed.

(** The closing records of [run_pipeline_task]: the state it sets last
    and the message it publishes last. *)
Definition closing_update (video_path : string) (bucket : string)
    (r : result (list quality_score)) : effect :=
  match r with
  | Ok results =>
      UpdateState "SUCCESS"
        {[ "status" := VStr "Pipeline completed successfully";
           "video_path" := VStr video_path;
           "total_frames" := VInt (Z.of_nat (length results));
           "enhanced_frames" := VInt (count_if (fun r => blurry r || dark r) results);
           "output_path" := VStr (bucket +:+ "/" +:+ "enhanced/reconstructed.mp4") ]}
  | Raise e =>
      UpdateState "FAILURE"
        {[ "status" := VStr "Pipeline failed";
           "error" := VStr (str_exn e);
           "video_path" := VStr video_path ]}
  end.

Definition closing_message (task_id : string) (bucket : string)
    (r : result (list quality_score)) : effect :=
  match r with
  | Ok results =>
      Publish ("task_updates:" +:+ task_id)
        {[ "state" := VStr "SUCCESS";
           "status" := VStr "Pipeline completed successfully";
           "output_path" := VStr (bucket +:+ "/" +:+ "enhanced/reconstructed.mp4") ]}
  | Raise e =>
      Publish ("task_updates:" +:+ task_id)
        {[ "state" := VStr "FAILURE";
           "status" := VStr "Pipeline failed";
           "error" := VStr (str_exn e) ]}
  end.

(** The error record of the handler of the task. *)
Definition closing_log (r : result (list quality_score)) : list effect :=
  match r with
  | Ok _ => []
  | Raise e => [Log ERROR "Pipeline task failed: " (str_exn e)]
  end.

(** How the job went: the frames analyzed when the task returns, the
    exception when it raises. *)
Definition verdict (run : result task_return * fsys * list effect)
  : result (list quality_score) :=
  match outcome run with
  | Ok ret => Ok (tr_results ret)
  | Raise e => Raise e
  end.

Lemma fetched_ok E video_path bucket :
  fetched E video_path = Ok bucket ->
  get_minio_client E = Ok tt /\
  exists key, split_slash video_path = Some (bucket, key) /\
              minio_download E bucket key = Ok tt.
Proof.
  unfold fetched. destruct (get_minio_client E) as [[]|]; [|done].
  destruct (split_slash video_path) as [[b key]|]; [|done].
  destruct (minio_download E b key) as [[]|] eqn:Hdl; [|done]. intros [= ->].
  split; [done|]. by exists key.
Qed.

(** The trace of the task from the trace of the pipeline. *)
Lemma task_trace E task_id video_path s :
  let run := run_pipeline_task E task_id video_path s in
  let inner := run_pipeline E (temp_name E) true (cb_of (Some task_id)) s in
  match fetched E video_path with
  | Raise ex =>
      outcome run = Raise ex /\
      emitted run = [closing_update video_path "" (Raise ex);
                     closing_message task_id "" (Raise ex);
                     Log ERROR "Pipeline task failed: " (str_exn ex)]
  | Ok bucket =>
      (forall ex, outcome inner = Raise ex -> outcome run = Raise ex) /\
      emitted run
      = started video_path :: emitted inner
          ++ [closing_update video_path bucket (verdict run);
              closing_message task_id bucket (verdict run)]
          ++ closing_log (verdict run)
  end.
Proof.
  intros run inner. destruct (fetched E video_path) as [bucket|ex] eqn:Hf.
  - destruct (fetched_ok _ _ _ Hf) as (Hcl & key & Hsplit & Hdl).
    pose proof (run_pipeline_task_fetched E task_id video_path s bucket key
                  _ _ _ Hcl Hsplit Hdl (run_eta inner)) as Hrun.
    fold run in Hrun. unfold verdict. rewrite Hrun. clear Hrun.
    destruct (outcome inner) as [results|ex].
    + split; [done|]. by destruct (uploaded E (final_fs inner) bucket) as [[]|ex].
    + split; [by intros ? [= ->]|]. reflexivity.
  - pose proof (run_pipeline_task_run E task_id video_path s _ _ _ (run_eta run)) as H.
    inversion H as
      [ ex' Hf' Ho Hs HT | bucket ex' s' Tp Hf' | bucket results s' Tp ex' Hf'
      | bucket results s' Tp Hf' ]; try congruence.
    rewrite Hf in Hf'. injection Hf' as <-. by split.
Qed.

Lemma one_terminal_last_snoc pre last :
  Forall (fun ev => ~ terminal ev) pre -> terminal last -> one_terminal_last (pre ++ [last]).
Proof. intros Hpre Hl. by exists pre, last. Qed.

(** The upload of the result fails. *)
Definition env_upload_fails : env :=
  sample_env (Some two_frames) upscale_x2 (Ok (0, "")) (Raise (ExternalError "bucket is gone")).

(** C3, as the claim states it, fails on both views of a job. On the
    state record: when the source video cannot be opened,
    [run_pipeline] sets the state FAILURE and the handler of
    [run_pipeline_task] sets it again, so the record holds two terminal
    events. On the channel: when the upload of the result fails, the
    report of 100 percent has been published and the FAILURE message
    follows it. *)
Lemma two_terminal_events :
  ~ one_terminal_last
      (status (emitted (run_pipeline_task env_unreadable "job-1" "videos/in.mp4" empty_fs))) /\
  ~ one_terminal_last
      (broadcast (emitted (run_pipeline_task env_upload_fails "job-1" "videos/in.mp4"
                             empty_fs))).
Proof.
  split.
  - assert (exists pre a b,
      status (emitted (run_pipeline_task env_unreadable "job-1" "videos/in.mp4" empty_fs))
      = pre ++ [a; b] /\ is_failure a) as (pre & a & b & -> & Ha).
    { eexists [_; _; _; _; _], _, _. split; [vm_compute; reflexivity | reflexivity]. }
    apply not_one_terminal_last. by left.
  - assert (exists pre a b,
      broadcast (emitted (run_pipeline_task env_upload_fails "job-1" "videos/in.mp4"
                            empty_fs))
      = pre ++ [a; b] /\ is_completion a) as (pre & a & b & -> & Ha).
    { eexists (removelast (removelast (broadcast (emitted
                 (run_pipeline_task env_upload_fails "job-1" "videos/in.mp4" empty_fs))))),
        _, _.
      split; [vm_compute; reflexivity|]. exists 100%Q. split; reflexivity. }
    apply not_one_terminal_last. by right.
Qed.

(** C3, amended. In every run of the task the percents reported do not
    decrease, neither on the state record nor on the channel. A job
    whose input cannot be fetched leaves one FAILURE on each. Otherwise
    the record is the STARTED state, the updates of [run_pipeline],
    which end with its one terminal event (the report of 100 percent
    when it returns, the FAILURE set by the handler of the failing step
    when it raises), and directly after it the closing update of
    [run_pipeline_task]. The handlers of [run_pipeline] publish
    nothing, so the channel is the reports of [run_pipeline] followed
    by the closing message of the task. When [run_pipeline] raises, the
    record ends with two FAILURE updates, while the FAILURE message is
    the one terminal event of the channel, and the last. When it
    returns, the report of 100 percent is the one terminal event of
    both views as long as the upload succeeds (the SUCCESS update and
    message that follow carry no percent); if the upload fails, a
    FAILURE follows the report of 100 percent on both. *)
Theorem progress_monotone_and_closed (E : env) (task_id video_path : string) (s : fsys) :
  let run := run_pipeline_task E task_id video_path s in
  let inner := run_pipeline E (temp_name E) true (cb_of (Some task_id)) s in
  StronglySorted Qle (percents (emitted run)) /\
  StronglySorted Qle (percents (status (emitted run))) /\
  StronglySorted Qle (percents (broadcast (emitted run))) /\
  match fetched E video_path with
  | Raise ex =>
      outcome run = Raise ex /\
      status (emitted run) = [closing_update video_path "" (Raise ex)] /\
      broadcast (emitted run) = [closing_message task_id "" (Raise ex)] /\
      one_terminal_last (status (emitted run)) /\
      one_terminal_last (broadcast (emitted run))
  | Ok bucket =>
      exists pre last msgs,
        status (emitted inner) = pre ++ [last] /\
        Forall (fun ev => ~ terminal ev) pre /\
        status (emitted run)
        = started video_path
          :: pre ++ [last; closing_update video_path bucket (verdict run)] /\
        match outcome inner with
        | Raise ex =>
            outcome run = Raise ex /\
            is_failure last /\
            is_failure (closing_update video_path bucket (verdict run)) /\
            ~ one_terminal_last (status (emitted run)) /\
            broadcast (emitted inner) = msgs /\
            Forall (fun ev => ~ terminal ev) msgs /\
            broadcast (emitted run)
            = msgs ++ [closing_message task_id bucket (Raise ex)] /\
            one_terminal_last (broadcast (emitted run))
        | Ok results =>
            is_completion last /\
            exists report,
              broadcast (emitted inner) = msgs ++ [report] /\
              Forall (fun ev => ~ terminal ev) msgs /\
              is_completion report /\
              broadcast (emitted run)
              = msgs ++ [report; closing_message task_id bucket (verdict run)] /\
              match outcome run with
              | Ok _ =>
                  ~ terminal (closing_update video_path bucket (verdict run)) /\
                  ~ terminal (closing_message task_id bucket (verdict run))
              | Raise _ =>
                  is_failure (closing_update video_path bucket (verdict run)) /\
                  is_failure (closing_message task_id bucket (verdict run)) /\
                  ~ one_terminal_last (status (emitted run)) /\
                  ~ one_terminal_last (broadcast (emitted run))
              end
        end
  end.
Proof.
  intros run inner.
  assert (StronglySorted Qle (percents (emitted run))) as Hsorted.
  { pose proof (run_pipeline_task_run E task_id video_path s _ _ _ (run_eta run)) as H.
    destruct H as
      [ ex Hf | bucket ex s' Tp Hf Hp | bucket results s' Tp ex Hf Hp Hu
      | bucket results s' Tp Hf Hp Hu ].
    - repeat constructor.
    - apply pipeline_run_mono in Hp. apply (mono_sorted 0 100).
      change (started video_path :: Tp ++ task_failure task_id video_path ex)
        with ([started video_path] ++ Tp ++ task_failure task_id video_path ex).
      apply mono_cons_silent; [done|].
      apply (mono_app 0 100 100); [qle | qle | done | by apply mono_silent].
    - apply pipeline_run_mono in Hp. apply (mono_sorted 0 100).
      change (started video_path :: Tp ++ task_failure task_id video_path ex)
        with ([started video_path] ++ Tp ++ task_failure task_id video_path ex).
      apply mono_cons_silent; [done|].
      apply (mono_app 0 100 100); [qle | qle | done | by apply mono_silent].
    - apply pipeline_run_mono in Hp. apply (mono_sorted 0 100).
      change (started video_path :: Tp ++ task_success task_id video_path bucket results)
        with ([started video_path] ++ Tp
                ++ task_success task_id video_path bucket results).
      apply mono_cons_silent; [done|].
      apply (mono_app 0 100 100); [qle | qle | done | by apply mono_silent]. }
  split; [done|].
  split; [by eapply StronglySorted_sublist; [apply percents_status|]|].
  split; [by eapply StronglySorted_sublist; [apply percents_broadcast|]|].
  pose proof (task_trace E task_id video_path s) as Ht. cbv zeta in Ht.
  fold run in Ht. fold inner in Ht.
  destruct (fetched E video_path) as [bucket|ex].
  - destruct Ht as [Hraise HT].
    destruct (pipeline_views E task_id (temp_name E) s) as (pre & last & Hst & Hpre & Hv).
    fold inner in Hst, Hv.
    assert (status (emitted run)
            = started video_path
              :: pre ++ [last; closing_update video_path bucket (verdict run)]) as Hrec.
    { rewrite HT.
      change (started video_path :: ?l) with ([started video_path] ++ l).
      rewrite !status_app, Hst. cbn [app]. rewrite <- app_assoc. f_equal. f_equal.
      by destruct (verdict run). }
    assert (forall msgs,
      broadcast (emitted inner) = msgs ->
      broadcast (emitted run)
      = msgs ++ [closing_message task_id bucket (verdict run)]) as Hch.
    { intros msgs Hm. rewrite HT.
      change (started video_path :: ?l) with ([started video_path] ++ l).
      destruct (verdict run); rewrite !broadcast_app, Hm; reflexivity. }
    destruct (outcome inner) as [results|ex] eqn:Hin.
    + destruct Hv as (Hlast & msgs & report & Hm & Hmsgs & Hrep).
      exists pre, last, msgs. split; [done|]. split; [done|]. split; [done|].
      split; [done|]. exists report. split; [done|]. split; [done|]. split; [done|].
      rewrite (Hch _ Hm), <- app_assoc. split; [done|].
      unfold verdict in *. destruct (outcome run) as [ret|ex].
      * split; intros [Hf|(q & Hq & _)]; discriminate.
      * split; [done|]. split; [done|]. split.
        { rewrite Hrec.
          change (started video_path :: ?l) with ([started video_path] ++ l).
          rewrite app_assoc. apply not_one_terminal_last. by right. }
        apply not_one_terminal_last. by right.
    + destruct Hv as (Hlast & Hmsgs).
      exists pre, last, (broadcast (emitted inner)).
      split; [done|]. split; [done|]. split; [done|].
      pose proof (Hraise ex eq_refl) as Hout. split; [done|]. split; [done|].
      assert (verdict run = Raise ex) as Hver by (unfold verdict; by rewrite Hout).
      split; [by rewrite Hver|]. split.
      { rewrite Hrec. change (started video_path :: ?l) with ([started video_path] ++ l).
        rewrite app_assoc. apply not_one_terminal_last. by left. }
      split; [done|]. split; [done|].
      rewrite (Hch _ eq_refl), Hver. split; [done|].
      apply one_terminal_last_snoc; [done|]. by left.
  - destruct Ht as [Hout HT]. rewrite HT. split; [done|]. split; [done|]. split; [done|].
    split.
    + apply (one_terminal_last_snoc []); [constructor|]. by left.
    + apply (one_terminal_last_snoc []); [constructor|]. by left.
Qed.
